(** * Conversation context management of the chat backend

    A shallow embedding of
    - [src/backend/src/services/contextManager.ts] (class [ContextManager]:
      token estimation, trimming, summaries, idle test, message validation),
    - [src/backend/src/routes/chat.ts] (the session map, the hourly sweep,
      the [POST /] handler and the routes of a conversation; the handler
      once as a whole, and once in the two halves that its [await]
      separates, over a heap of arrays and objects),
    - [src/backend/src/services/openai.ts] (the completion service), and
    - [src/frontend/lib/validation.ts] (the sanitizer, the validator and the
      rate limit of the input area),
    followed by the properties of the specification that concern them and
    by further properties of the code.

    Conventions of the embedding:
    - a JavaScript string is the list of its UTF-16 code units, so that
      [length] is [String.prototype.length];
    - a [Date] is its time value, an integer number of milliseconds;
    - JavaScript numbers are used by this code only on integers far below
      2^53 and in one division whose result is only compared or rounded up,
      so they are embedded as [Z] and the division as an exact rational;
    - arrays are lists; [push] is [++ [x]]; the session map is a [gmap];
      where handlers overlap, arrays and objects are addresses into a heap,
      so that two handlers can hold the same array. *)

From Stdlib Require Import ZArith QArith Qround String Ascii DecimalString Sorted.
From Equations Require Import Equations.
From Equations.Prop Require Import Logic.
From stdpp Require Import gmap list fin_maps.

Local Open Scope Z_scope.

(** ** JavaScript strings *)

Abbreviation jsstring := (list N).

(** The code units of an ASCII literal of the source. *)
Definition js (s : string) : jsstring :=
  List.map N_of_ascii (list_ascii_of_string s).

(** [WhiteSpace] and [LineTerminator] of ECMA-262: what [String.prototype.trim]
    strips and what [\s] matches. *)
Definition isWhiteSpace (c : N) : bool :=
  ((9 <=? c) && (c <=? 13) || (c =? 32) || (c =? 160) || (c =? 5760)
   || (8192 <=? c) && (c <=? 8202) || (c =? 8232) || (c =? 8233)
   || (c =? 8239) || (c =? 8287) || (c =? 12288) || (c =? 65279))%N.

Fixpoint trimStart (s : jsstring) : jsstring :=
  match s with
  | c :: s' => if isWhiteSpace c then trimStart s' else s
  | [] => []
  end.

Definition trimEnd (s : jsstring) : jsstring := rev (trimStart (rev s)).

(** [s.trim()] *)
Definition trim (s : jsstring) : jsstring := trimEnd (trimStart s).

(** ** Array helpers *)

(** [a.slice(-n)]: the last [n] elements, the whole array when it is shorter. *)
Definition sliceLast {A} (n : nat) (a : list A) : list A :=
  drop (length a - n) a.

(** [a.splice(start, deleteCount)] on an index inside the array: the array
    that is left. *)
Definition splice {A} (start deleteCount : nat) (a : list A) : list A :=
  take start a ++ drop (start + deleteCount) a.

(** ** Messages ([types/index.ts]) *)

Inductive Role := system | user | assistant.

Definition Role_eqb (r1 r2 : Role) : bool :=
  match r1, r2 with
  | system, system | user, user | assistant, assistant => true
  | _, _ => false
  end.

Record Message := {
  id : jsstring;
  role : Role;
  content : jsstring;
  timestamp : Z;
  conversationId : option jsstring
}.

(** The two callbacks of [trimConversation]:
    [msg => msg.role === 'system'] and [msg => msg.role !== 'system']. *)
Definition isSystem (msg : Message) : bool := Role_eqb (role msg) system.
Definition notSystem (msg : Message) : bool := negb (isSystem msg).

(** ** ContextManager *)

Module ContextManager.

Definition MAX_TOKENS : Z := 4000.
Definition TOKENS_PER_MESSAGE : Z := 100.
Definition MAX_MESSAGES : nat := 30.
Definition KEEP_RECENT_MESSAGES : nat := 10.

(** [Math.ceil(message.content.length / 4) + 10] *)
Definition estimateTokens (message : Message) : Z :=
  Qceiling (inject_Z (Z.of_nat (length (content message))) / 4) + 10.

(** [messages.reduce((total, msg) => total + this.estimateTokens(msg), 0)] *)
Definition calculateTotalTokens (messages : list Message) : Z :=
  fold_left (fun total msg => total + estimateTokens msg) messages 0.

(** The guard of the [while] loop of [trimConversation]. *)
Definition overBudget (trimmedMessages : list Message) : bool :=
  (2 <? length trimmedMessages)%nat
  && (MAX_TOKENS <? calculateTotalTokens trimmedMessages).

(** One turn of the loop body: [if (length > 2) splice(1, 1)]. *)
Definition removeSecond (trimmedMessages : list Message) : list Message :=
  if (2 <? length trimmedMessages)%nat
  then splice 1 1 trimmedMessages
  else trimmedMessages.

(** The [while] loop; every turn makes the array one element shorter. *)
Equations? trimLoop (trimmedMessages : list Message) : list Message
  by wf (length trimmedMessages) lt :=
  trimLoop trimmedMessages with inspect (overBudget trimmedMessages) := {
    | exist _ true Hguard => trimLoop (removeSecond trimmedMessages)
    | exist _ false _ => trimmedMessages }.
Proof.
  unfold overBudget in Hguard. apply andb_prop in Hguard as [Hlen _].
  unfold removeSecond. rewrite Hlen. apply Nat.ltb_lt in Hlen.
  unfold splice. rewrite length_app, length_take, length_drop. lia.
Qed.

(** The test [if within limits, return as is]. *)
Definition withinLimits (messages : list Message) : bool :=
  (length (List.filter notSystem messages) <=? MAX_MESSAGES)%nat
  && (calculateTotalTokens messages <=? MAX_TOKENS).

Definition trimConversation (messages : list Message) : list Message :=
  let systemMessage := List.find isSystem messages in
  let nonSystemMessages := List.filter notSystem messages in
  if withinLimits messages then messages
  else
    let trimmedMessages :=
      match systemMessage with Some s => [s] | None => [] end in
    let recentMessages := sliceLast KEEP_RECENT_MESSAGES nonSystemMessages in
    trimLoop (trimmedMessages ++ recentMessages).

(** [nonSystemMessages.length > this.MAX_MESSAGES * 0.8], with 30 * 0.8 = 24. *)
Definition needsSummarization (messages : list Message) : bool :=
  (24 <? length (List.filter notSystem messages))%nat.

(** [shouldCleanupConversation(lastActivity)], with the value [now] that
    [new Date()] reads inside it made a parameter. The quotient is the
    number of hours as a fraction. *)
Definition hoursSinceActivity (now lastActivity : Z) : Q :=
  (inject_Z (now - lastActivity) / inject_Z (1000 * 60 * 60))%Q.

Definition shouldCleanupConversation (now lastActivity : Z) : bool :=
  negb (Qle_bool (hoursSinceActivity now lastActivity) (inject_Z 24)).

(** *** The patterns of [validateMessage]

    The four regular expressions carry the flag [i] and not [u]: a letter
    of the pattern matches its two ASCII cases and nothing else, and [\w]
    is [[A-Za-z0-9_]]. Each matcher below decides whether its pattern
    matches at the start of the input; [RegExp.prototype.test] then tries
    every start position. *)

Definition isWordChar (c : N) : bool :=
  ((48 <=? c) && (c <=? 57) || (65 <=? c) && (c <=? 90) || (c =? 95)
   || (97 <=? c) && (c <=? 122))%N.

(** A pattern character [p] against an input code unit [c], ignoring case. *)
Definition charMatchesIgnoreCase (p c : N) : bool :=
  ((c =? p) || (97 <=? p) && (p <=? 122) && (c =? p - 32)
   || (65 <=? p) && (p <=? 90) && (c =? p + 32))%N.

(** Match the literal [lit] at the start of [s]; the rest of [s] on success. *)
Fixpoint matchLiteral (lit s : jsstring) : option jsstring :=
  match lit, s with
  | [], _ => Some s
  | p :: lit', c :: s' =>
      if charMatchesIgnoreCase p c then matchLiteral lit' s' else None
  | _ :: _, [] => None
  end.

(** The longest prefix of code units satisfying [f] is skipped. The classes
    that follow one another in the patterns are disjoint, so backtracking
    into a shorter run never helps. *)
Fixpoint skipWhile (f : N -> bool) (s : jsstring) : jsstring :=
  match s with
  | c :: s' => if f c then skipWhile f s' else s
  | [] => []
  end.

Definition startsWith (c : N) (s : jsstring) : bool :=
  match s with
  | c' :: _ => (c' =? c)%N
  | [] => false
  end.

(** [/javascript:/i] *)
Definition matchJavascript (s : jsstring) : bool :=
  match matchLiteral (js "javascript:") s with Some _ => true | None => false end.

(** [/<script\b/i]: after the final [t], a word boundary. *)
Definition matchScript (s : jsstring) : bool :=
  match matchLiteral (js "<script") s with
  | Some (c :: _) => negb (isWordChar c)
  | Some [] => true
  | None => false
  end.

(** [/on\w+\s*=/i] *)
Definition matchHandler (s : jsstring) : bool :=
  match matchLiteral (js "on") s with
  | Some (c :: rest) =>
      isWordChar c
      && startsWith 61 (skipWhile isWhiteSpace (skipWhile isWordChar rest))
  | _ => false
  end.

(** [/eval\s*\(/i] *)
Definition matchEval (s : jsstring) : bool :=
  match matchLiteral (js "eval") s with
  | Some rest => startsWith 40 (skipWhile isWhiteSpace rest)
  | None => false
  end.

(** [pattern.test(content)]: a match at some start position. *)
Fixpoint test (matchHere : jsstring -> bool) (s : jsstring) : bool :=
  matchHere s ||
  match s with
  | _ :: s' => test matchHere s'
  | [] => false
  end.

Definition maliciousPatterns : list (jsstring -> bool) :=
  [matchJavascript; matchScript; matchHandler; matchEval].

Record Validation := { valid : bool; error : option string }.

(** [validateMessage(content)] on a string. For a string, [!content] holds
    of the empty string only and [typeof content !== 'string'] never. *)
Definition validateMessage (content : jsstring) : Validation :=
  if (Z.of_nat (length content) =? 0) then
    {| valid := false;
       error := Some "Message content must be a non-empty string"%string |}
  else if (Z.of_nat (length (trim content)) =? 0) then
    {| valid := false; error := Some "Message cannot be empty"%string |}
  else if (10000 <? Z.of_nat (length content)) then
    {| valid := false;
       error := Some "Message is too long (maximum 10,000 characters)"%string |}
  else if existsb (fun pattern => test pattern content) maliciousPatterns then
    {| valid := false;
       error := Some "Message contains potentially unsafe content"%string |}
  else {| valid := true; error := None |}.

(** [a.slice(0, -n)] for [n > 0]: all but the last [n] elements. *)
Definition sliceButLast {A} (n : nat) (a : list A) : list A :=
  take (length a - n) a.

(** The decimal digits of an integer, as a template literal prints a
    number of this size. *)
Definition decimal (z : Z) : jsstring :=
  js (NilZero.string_of_int (Z.to_int z)).

(** The text of a summary of [n] messages. *)
Definition summaryContent (n : nat) : jsstring :=
  js "Previous conversation summary: The user and assistant discussed "
  ++ decimal (Z.of_nat n)
  ++ js " messages covering various topics. Key context has been preserved for continuity.".

(** [createConversationSummary(messages)]; [now] is what [Date.now()]
    returns and [stamp] the time of [new Date()]. *)
Definition createConversationSummary (now stamp : Z) (messages : list Message)
  : option Message :=
  let nonSystemMessages := List.filter notSystem messages in
  if (length nonSystemMessages <=? KEEP_RECENT_MESSAGES)%nat then None
  else
    let messagesToSummarize :=
      sliceButLast KEEP_RECENT_MESSAGES nonSystemMessages in
    if (length messagesToSummarize =? 0)%nat then None
    else
      Some {| id := js "summary-" ++ decimal now;
              role := system;
              content := summaryContent (length messagesToSummarize);
              timestamp := stamp;
              conversationId := None |}.

End ContextManager.

(** ** The chat route ([routes/chat.ts]) *)

Module Chat.
Import ContextManager.

Record ConversationData := {
  messages : list Message;
  lastActivity : Z
}.

Record AppError := {
  message : string;
  statusCode : option Z
}.

(** The body of a request, typed [ChatRequest]. *)
Record ChatRequest := {
  req_message : jsstring;
  req_conversationId : option jsstring;
  req_stream : option bool
}.

(** What [openaiService.chatCompletion] settles to. *)
Inductive Completion :=
| Resolved (response : jsstring)
| Rejected (reason : string).

(** A run of [openaiService.chatCompletionStream]: the chunks it yields and
    whether it then throws instead of returning. *)
Record StreamRun := {
  chunks : list jsstring;
  thrown : option string
}.

(** What is written to [res], or handed to [next]. *)
Inductive StreamEvent :=
| ChunkEvent (chunk messageId conversation : jsstring)
| DoneEvent (messageId conversation fullMessage : jsstring)
| ErrorEvent (reason : string).

Inductive Response :=
| Json (response conversation messageId : jsstring) (stamp : Z)
| EventStream (events : list StreamEvent)
| Next (err : AppError).

(** The state the handler runs in: the module-level map [conversations],
    how many times [uuidv4()] and [new Date()] were evaluated so far, and
    the arguments the completion provider was called with, oldest first. *)
Record World := {
  conversations : gmap jsstring ConversationData;
  uuidCalls : nat;
  dateCalls : nat;
  providerCalls : list (list Message)
}.

(** The hourly sweep: visit every entry, delete the idle ones. All clock
    readings of one sweep are the instant [now]. *)
Definition sweep (now : Z) (m : gmap jsstring ConversationData)
  : gmap jsstring ConversationData :=
  map_fold
    (fun conversationId conversation acc =>
       if shouldCleanupConversation now (lastActivity conversation)
       then delete conversationId acc
       else acc)
    m m.

Section Handler.

(** The environment: the identifiers [uuidv4] returns, the clock, and the
    completion provider. *)
Variable uuid : nat -> jsstring.
Variable clock : nat -> Z.
Variable chatCompletion : list Message -> Completion.
Variable chatCompletionStream : list Message -> StreamRun.

(** A state monad over [World]. *)
Definition M (A : Type) : Type := World -> A * World.

Definition ret {A} (a : A) : M A := fun w => (a, w).

Definition bind {A B} (m : M A) (k : A -> M B) : M B :=
  fun w => let (a, w') := m w in k a w'.

Notation "x <- m ;; k" := (bind m (fun x => k))
  (at level 100, m at next level, right associativity).
Notation "m ;;; k" := (bind m (fun _ => k))
  (at level 100, right associativity).

Definition uuidv4 : M jsstring := fun w =>
  (uuid (uuidCalls w),
   {| conversations := conversations w; uuidCalls := S (uuidCalls w);
      dateCalls := dateCalls w; providerCalls := providerCalls w |}).

Definition newDate : M Z := fun w =>
  (clock (dateCalls w),
   {| conversations := conversations w; uuidCalls := uuidCalls w;
      dateCalls := S (dateCalls w); providerCalls := providerCalls w |}).

Definition conversations_get (k : jsstring) : M (option ConversationData) :=
  fun w => (conversations w !! k, w).

Definition conversations_set (k : jsstring) (v : ConversationData) : M unit :=
  fun w =>
    (tt, {| conversations := <[k := v]> (conversations w);
            uuidCalls := uuidCalls w; dateCalls := dateCalls w;
            providerCalls := providerCalls w |}).

(** Calling the provider records its argument. *)
Definition callProvider {A} (provider : list Message -> A)
    (payload : list Message) : M A :=
  fun w =>
    (provider payload,
     {| conversations := conversations w; uuidCalls := uuidCalls w;
        dateCalls := dateCalls w;
        providerCalls := providerCalls w ++ [payload] |}).

Definition addSystemMessage : M Message :=
  i <- uuidv4 ;;
  t <- newDate ;;
  ret {| id := i; role := system;
         content := js "You are a helpful AI assistant. Be concise, friendly, and informative in your responses. Keep your answers clear and well-structured.";
         timestamp := t; conversationId := None |}.

(** [conversationId || uuidv4()]: an absent or empty identifier is minted. *)
Definition currentConversationId (req : ChatRequest) : M jsstring :=
  match req_conversationId req with
  | Some (c :: cs) => ret (c :: cs)
  | _ => uuidv4
  end.

(** Lines 41 to 69: find or seed the conversation, push the user message,
    trim, and store the trimmed array back. The array that is handed on is
    the array that is stored. *)
Definition recordUserMessage (req : ChatRequest)
  : M (jsstring * list Message) :=
  cid <- currentConversationId req ;;
  existing <- conversations_get cid ;;
  conversationData <-
    match existing with
    | Some c => ret c
    | None =>
        sys <- addSystemMessage ;;
        t <- newDate ;;
        let c := {| messages := [sys]; lastActivity := t |} in
        conversations_set cid c ;;;
        ret c
    end ;;
  i <- uuidv4 ;;
  t <- newDate ;;
  let userMessage :=
    {| id := i; role := user; content := trim (req_message req);
       timestamp := t; conversationId := Some cid |} in
  let conversationMessages :=
    trimConversation (messages conversationData ++ [userMessage]) in
  t' <- newDate ;;
  conversations_set cid
    {| messages := conversationMessages; lastActivity := t' |} ;;;
  ret (cid, conversationMessages).

(** The assistant message is pushed and the conversation stored again. *)
Definition recordAssistantMessage (cid : jsstring)
    (conversationMessages : list Message) (assistantMessageId response : jsstring)
  : M Message :=
  t <- newDate ;;
  let assistantMessage :=
    {| id := assistantMessageId; role := assistant; content := response;
       timestamp := t; conversationId := Some cid |} in
  t' <- newDate ;;
  conversations_set cid
    {| messages := conversationMessages ++ [assistantMessage];
       lastActivity := t' |} ;;;
  ret assistantMessage.

Definition chunkEvents (assistantMessageId cid : jsstring)
    (cs : list jsstring) : list StreamEvent :=
  List.map (fun chunk => ChunkEvent chunk assistantMessageId cid) cs.

(** [router.post('/')] *)
Definition post (req : ChatRequest) : M Response :=
  let validation := validateMessage (req_message req) in
  if negb (valid validation) then
    ret (Next {| message := default "Invalid message"%string (error validation);
                 statusCode := Some 400 |})
  else
    recorded <- recordUserMessage req ;;
    let (cid, conversationMessages) := recorded : jsstring * list Message in
    if default false (req_stream req) then
      assistantMessageId <- uuidv4 ;;
      run <- callProvider chatCompletionStream conversationMessages ;;
      let written := chunkEvents assistantMessageId cid (chunks run) in
      match thrown run with
      | None =>
          let fullResponse := concat (chunks run) in
          recordAssistantMessage cid conversationMessages
            assistantMessageId fullResponse ;;;
          ret (EventStream
                 (written ++ [DoneEvent assistantMessageId cid fullResponse]))
      | Some _ =>
          ret (EventStream
                 (written ++ [ErrorEvent "Failed to generate response"]))
      end
    else
      outcome <- callProvider chatCompletion conversationMessages ;;
      match outcome with
      | Resolved response =>
          i <- uuidv4 ;;
          assistantMessage <-
            recordAssistantMessage cid conversationMessages i response ;;
          ret (Json response cid (id assistantMessage)
                 (timestamp assistantMessage))
      | Rejected reason =>
          ret (Next {| message := reason; statusCode := None |})
      end.

(** *** Vocabulary of the statements about the handler *)

(** The history a request finds: the stored one, or the seed of a new
    conversation. *)
Definition historyFound (w : World) (cid : jsstring) (seed : Message)
  : list Message :=
  match conversations w !! cid with
  | Some c => messages c
  | None => [seed]
  end.

(** The array handed to the completion provider. *)
Definition payloadOf (req : ChatRequest) (w : World) : list Message :=
  snd (fst (recordUserMessage req w)).

Definition providerSucceeds (req : ChatRequest) (w : World) : Prop :=
  if default false (req_stream req)
  then thrown (chatCompletionStream (payloadOf req w)) = None
  else exists response, chatCompletion (payloadOf req w) = Resolved response.

Definition providerFails (req : ChatRequest) (w : World) (reason : string)
  : Prop :=
  if default false (req_stream req)
  then thrown (chatCompletionStream (payloadOf req w)) = Some reason
  else chatCompletion (payloadOf req w) = Rejected reason.

Definition handle (req : ChatRequest) (w : World) : Response * World :=
  post req w.

(** The conversation a request addresses. *)
Definition conversationOf (req : ChatRequest) (w : World) : jsstring :=
  fst (currentConversationId req w).

End Handler.

(** What [GET /conversation/:id] answers. *)
Inductive ConversationReply :=
| ConversationJson (conversation : jsstring) (shown : list Message)
    (active : Z) (messageCount : nat)
| ConversationNext (err : AppError).

(** What [DELETE /conversation/:id] answers. *)
Inductive DeleteReply :=
| DeleteJson (text : string)
| DeleteNext (err : AppError).

Definition notFound : AppError :=
  {| message := "Conversation not found"; statusCode := Some 404 |}.

(** [router.get('/conversation/:id')] *)
Definition getConversation (i : jsstring) (w : World) : ConversationReply :=
  match conversations w !! i with
  | None => ConversationNext notFound
  | Some conversationData =>
      let messagesWithoutSystem :=
        List.filter notSystem (messages conversationData) in
      ConversationJson i messagesWithoutSystem (lastActivity conversationData)
        (length messagesWithoutSystem)
  end.

(** [router.delete('/conversation/:id')]; [Map.prototype.delete] tells
    whether the key was there. *)
Definition deleteConversation (i : jsstring) (w : World)
  : DeleteReply * World :=
  let deleted := bool_decide (is_Some (conversations w !! i)) in
  let w' := {| conversations := delete i (conversations w);
               uuidCalls := uuidCalls w; dateCalls := dateCalls w;
               providerCalls := providerCalls w |} in
  if deleted then (DeleteJson "Conversation cleared successfully", w')
  else (DeleteNext notFound, w').

(** The callback of [setInterval] on the whole state. *)
Definition sweepWorld (now : Z) (w : World) : World :=
  {| conversations := sweep now (conversations w);
     uuidCalls := uuidCalls w; dateCalls := dateCalls w;
     providerCalls := providerCalls w |}.

End Chat.

Import ContextManager.

(** ** The chat route, with handlers that overlap ([routes/chat.ts]) *)

(** [router.post] is an async function. It runs without interruption up to
    its [await] (the [for await] of line 82 when the answer is streamed,
    line 119 otherwise); what follows the [await] runs later, and other
    handlers, deletions and sweeps may run in between. The entries of
    [conversations] are objects and their [messages] are arrays, both held
    by reference: two handlers that read the same entry hold the same
    object and the same array. [Chat.post] is one handler run from its
    first line to its last; here the two halves are steps of their own,
    over a heap of arrays and objects. What a handler answers is in
    [Chat.post]; this module has what it stores. *)
Module Server.

(** An entry of [conversations]: [{ messages, lastActivity }], with
    [messages] the address of an array. *)
Record ConversationData := {
  messages : nat;
  lastActivity : Z
}.

(** A handler suspended at its [await], with the locals that the rest of
    its body reads. The identifier of the answer is minted before the [await] when
    the answer is streamed (line 78), after it otherwise (line 122). *)
Record Suspended := {
  h_currentConversationId : jsstring;
  h_conversationData : nat;
  h_conversationMessages : nat;
  h_assistantMessageId : option jsstring
}.

(** What the [await] settles to: the text of the answer (the whole of it,
    all chunks joined, when it is streamed), or a failure. *)
Inductive Outcome :=
| Answered (response : jsstring)
| Failed.

Record State := {
  arrays : list (list Message);
  objects : list ConversationData;
  conversations : gmap jsstring nat;
  suspended : list Suspended;
  uuidCalls : nat;
  dateCalls : nat;
  providerCalls : list (list Message)
}.

Section Handler.

Variable uuid : nat -> jsstring.
Variable clock : nat -> Z.

Definition M (A : Type) : Type := State -> A * State.

Definition ret {A} (a : A) : M A := fun st => (a, st).

Definition bind {A B} (m : M A) (k : A -> M B) : M B :=
  fun st => let (a, st') := m st in k a st'.

Notation "x <- m ;; k" := (bind m (fun x => k))
  (at level 100, m at next level, right associativity).
Notation "m ;;; k" := (bind m (fun _ => k))
  (at level 100, right associativity).

Definition uuidv4 : M jsstring := fun st =>
  (uuid (uuidCalls st),
   {| arrays := arrays st; objects := objects st;
      conversations := conversations st; suspended := suspended st;
      uuidCalls := S (uuidCalls st); dateCalls := dateCalls st;
      providerCalls := providerCalls st |}).

Definition newDate : M Z := fun st =>
  (clock (dateCalls st),
   {| arrays := arrays st; objects := objects st;
      conversations := conversations st; suspended := suspended st;
      uuidCalls := uuidCalls st; dateCalls := S (dateCalls st);
      providerCalls := providerCalls st |}).

Definition withArrays (f : list (list Message) -> list (list Message))
  : M unit := fun st =>
  (tt,
   {| arrays := f (arrays st); objects := objects st;
      conversations := conversations st; suspended := suspended st;
      uuidCalls := uuidCalls st; dateCalls := dateCalls st;
      providerCalls := providerCalls st |}).

Definition withObjects (f : list ConversationData -> list ConversationData)
  : M unit := fun st =>
  (tt,
   {| arrays := arrays st; objects := f (objects st);
      conversations := conversations st; suspended := suspended st;
      uuidCalls := uuidCalls st; dateCalls := dateCalls st;
      providerCalls := providerCalls st |}).

(** A new array, [[...]] or the one [trimConversation] builds. *)
Definition newArray (elements : list Message) : M nat := fun st =>
  (length (arrays st), snd (withArrays (fun h => h ++ [elements]) st)).

(** A new object [{ messages, lastActivity }]. *)
Definition newObject (c : ConversationData) : M nat := fun st =>
  (length (objects st), snd (withObjects (fun h => h ++ [c]) st)).

(** The elements of an array. *)
Definition elements (a : nat) : M (list Message) := fun st =>
  (default [] (arrays st !! a), st).

(** [a.push(m)] *)
Definition push (a : nat) (m : Message) : M unit :=
  withArrays (alter (fun l => l ++ [m]) a).

(** [o.messages] *)
Definition getMessages (o : nat) : M nat := fun st =>
  (default 0%nat (messages <$> objects st !! o), st).

(** [o.messages = a] *)
Definition setMessages (o a : nat) : M unit :=
  withObjects
    (alter (fun c => {| messages := a; lastActivity := lastActivity c |}) o).

(** [o.lastActivity = t] *)
Definition setLastActivity (o : nat) (t : Z) : M unit :=
  withObjects
    (alter (fun c => {| messages := messages c; lastActivity := t |}) o).

Definition conversations_get (k : jsstring) : M (option nat) :=
  fun st => (conversations st !! k, st).

Definition conversations_set (k : jsstring) (o : nat) : M unit := fun st =>
  (tt,
   {| arrays := arrays st; objects := objects st;
      conversations := <[k := o]> (conversations st);
      suspended := suspended st;
      uuidCalls := uuidCalls st; dateCalls := dateCalls st;
      providerCalls := providerCalls st |}).

(** The provider reads the array when it is called: [messages.map] runs
    before the first [await] of [chatCompletion] and of
    [chatCompletionStream]. *)
Definition callProvider (payload : list Message) : M unit := fun st =>
  (tt,
   {| arrays := arrays st; objects := objects st;
      conversations := conversations st; suspended := suspended st;
      uuidCalls := uuidCalls st; dateCalls := dateCalls st;
      providerCalls := providerCalls st ++ [payload] |}).

Definition suspend (h : Suspended) : M unit := fun st =>
  (tt,
   {| arrays := arrays st; objects := objects st;
      conversations := conversations st;
      suspended := suspended st ++ [h];
      uuidCalls := uuidCalls st; dateCalls := dateCalls st;
      providerCalls := providerCalls st |}).

Definition addSystemMessage : M Message :=
  i <- uuidv4 ;;
  t <- newDate ;;
  ret {| id := i; role := system;
         content := js "You are a helpful AI assistant. Be concise, friendly, and informative in your responses. Keep your answers clear and well-structured.";
         timestamp := t; conversationId := None |}.

(** [contextManager.trimConversation(messages)] on an array: the array
    itself when it is within the limits (line 35), else a new array. *)
Definition trimConversation (messages : nat) : M nat :=
  contents <- elements messages ;;
  if withinLimits contents then ret messages
  else newArray (ContextManager.trimConversation contents).

(** [conversationId || uuidv4()] *)
Definition currentConversationId (req : Chat.ChatRequest) : M jsstring :=
  match Chat.req_conversationId req with
  | Some (c :: cs) => ret (c :: cs)
  | _ => uuidv4
  end.

(** Lines 43 to 50: the object of the conversation, a new one with a new
    array when the map has none. *)
Definition openConversation (cid : jsstring) : M nat :=
  existing <- conversations_get cid ;;
  match existing with
  | Some o => ret o
  | None =>
      sys <- addSystemMessage ;;
      a <- newArray [sys] ;;
      t <- newDate ;;
      o <- newObject {| messages := a; lastActivity := t |} ;;
      conversations_set cid o ;;;
      ret o
  end.

(** Lines 50 to 69: the user message is pushed onto the array of the
    conversation, and the object is given the trimmed array and stored. *)
Definition recordUserMessage (req : Chat.ChatRequest) (cid : jsstring)
    (conversationData : nat) : M nat :=
  conversationMessages <- getMessages conversationData ;;
  i <- uuidv4 ;;
  t <- newDate ;;
  push conversationMessages
    {| id := i; role := user; content := trim (Chat.req_message req);
       timestamp := t; conversationId := Some cid |} ;;;
  conversationMessages <- trimConversation conversationMessages ;;
  setMessages conversationData conversationMessages ;;;
  t' <- newDate ;;
  setLastActivity conversationData t' ;;;
  conversations_set cid conversationData ;;;
  ret conversationMessages.

(** Lines 29 to 82, or to 119: a handler from its first line to its
    [await]. A message that fails validation ends it at line 37. *)
Definition begin (req : Chat.ChatRequest) : M unit :=
  if negb (valid (validateMessage (Chat.req_message req))) then ret tt
  else
    cid <- currentConversationId req ;;
    conversationData <- openConversation cid ;;
    conversationMessages <- recordUserMessage req cid conversationData ;;
    assistantMessageId <-
      (if default false (Chat.req_stream req)
       then i <- uuidv4 ;; ret (Some i)
       else ret None) ;;
    payload <- elements conversationMessages ;;
    callProvider payload ;;;
    suspend {| h_currentConversationId := cid;
               h_conversationData := conversationData;
               h_conversationMessages := conversationMessages;
               h_assistantMessageId := assistantMessageId |}.

(** Lines 92 to 103, or 121 to 133: what a handler does once its answer
    is there. It pushes onto the array and stores the object that it has
    held since before the [await]. *)
Definition finish (h : Suspended) (response : jsstring) : M unit :=
  i <- match h_assistantMessageId h with
       | Some i => ret i
       | None => uuidv4
       end ;;
  t <- newDate ;;
  push (h_conversationMessages h)
    {| id := i; role := assistant; content := response; timestamp := t;
       conversationId := Some (h_currentConversationId h) |} ;;;
  setMessages (h_conversationData h) (h_conversationMessages h) ;;;
  t' <- newDate ;;
  setLastActivity (h_conversationData h) t' ;;;
  conversations_set (h_currentConversationId h) (h_conversationData h).

(** The [n]-th suspended handler goes on. After a failure it only answers
    (lines 114 to 117, or 141 to 143) and nothing is stored. *)
Definition resume (n : nat) (outcome : Outcome) : M unit := fun st =>
  match suspended st !! n with
  | None => (tt, st)
  | Some h =>
      let st' :=
        {| arrays := arrays st; objects := objects st;
           conversations := conversations st;
           suspended := delete n (suspended st);
           uuidCalls := uuidCalls st; dateCalls := dateCalls st;
           providerCalls := providerCalls st |} in
      match outcome with
      | Answered response => finish h response st'
      | Failed => (tt, st')
      end
  end.

End Handler.

(** [router.delete('/conversation/:id')], on the state. *)
Definition deleteConversation (i : jsstring) (st : State) : State :=
  {| arrays := arrays st; objects := objects st;
     conversations := delete i (conversations st);
     suspended := suspended st;
     uuidCalls := uuidCalls st; dateCalls := dateCalls st;
     providerCalls := providerCalls st |}.

(** The callback of [setInterval]. *)
Definition sweep (now : Z) (st : State) : State :=
  {| arrays := arrays st; objects := objects st;
     conversations :=
       map_fold
         (fun conversationId conversation acc =>
            if shouldCleanupConversation now
                 (default 0 (lastActivity <$> objects st !! conversation))
            then delete conversationId acc
            else acc)
         (conversations st) (conversations st);
     suspended := suspended st;
     uuidCalls := uuidCalls st; dateCalls := dateCalls st;
     providerCalls := providerCalls st |}.

(** What an object holds: its array, element by element, and its last
    activity. *)
Definition entry (st : State) (o : nat) : option Chat.ConversationData :=
  match objects st !! o with
  | None => None
  | Some c =>
      match arrays st !! messages c with
      | None => None
      | Some history =>
          Some {| Chat.messages := history;
                  Chat.lastActivity := lastActivity c |}
      end
  end.

(** What [conversations.get(id)] holds, as [router.get('/conversation/:id')]
    reads it. *)
Definition stored (st : State) (i : jsstring) : option Chat.ConversationData :=
  match conversations st !! i with
  | None => None
  | Some o => entry st o
  end.

(** The session map with every entry read out, and the counters and the
    calls of the provider: the state that [Chat.post] runs in. *)
Definition view (st : State) : Chat.World :=
  {| Chat.conversations := omap (entry st) (conversations st);
     Chat.uuidCalls := uuidCalls st;
     Chat.dateCalls := dateCalls st;
     Chat.providerCalls := providerCalls st |}.

(** A handler that nothing overlaps: it begins, and it is the next to go
    on. The handler that has just begun is the last of the suspended
    ones. *)
Definition serve (uuid : nat -> jsstring) (clock : nat -> Z)
    (req : Chat.ChatRequest) (outcome : Outcome) (st : State) : State :=
  snd (resume uuid clock (length (suspended st)) outcome
         (snd (begin uuid clock req st))).

(** The provider that settles every call to [outcome]. *)
Definition settles (outcome : Outcome) (_ : list Message) : Chat.Completion :=
  match outcome with
  | Answered response => Chat.Resolved response
  | Failed => Chat.Rejected "Failed to generate response from AI"
  end.

(** The same, streamed: the answer in one chunk. *)
Definition streams (outcome : Outcome) (_ : list Message) : Chat.StreamRun :=
  match outcome with
  | Answered response =>
      {| Chat.chunks := [response]; Chat.thrown := None |}
  | Failed =>
      {| Chat.chunks := [];
         Chat.thrown :=
           Some "Failed to generate streaming response from AI"%string |}
  end.

End Server.

(** ** The completion service ([services/openai.ts]) *)

Module OpenAIService.

(** What a call of the client library comes to. *)
Inductive Api (A : Type) :=
| Returns (a : A)
| Throws.
Arguments Returns {A} a.
Arguments Throws {A}.

(** A choice of a completion: [message?.content], which may be missing at
    either level or [null]. *)
Record Choice := { choiceContent : option jsstring }.

(** A streamed answer: [choices[0]?.delta?.content] of each chunk, and
    whether the iteration then throws. *)
Record Stream := {
  deltas : list (option jsstring);
  breaks : bool
}.

(** [messages.map(msg => ({ role: msg.role, content: msg.content }))] *)
Definition formatMessages (messages : list Message) : list (Role * jsstring) :=
  List.map (fun msg => (role msg, content msg)) messages.

Section Service.

(** [process.env.OPENAI_API_KEY], and the two calls of
    [chat.completions.create]. *)
Variable apiKey : option jsstring.
Variable create : list (Role * jsstring) -> Api (list Choice).
Variable createStream : list (Role * jsstring) -> Api Stream.

(** [getOpenAIClient()] on the module variable [openai]: [client] tells
    whether a client exists already; the result is whether one exists
    afterwards, or [None] when the key is missing. *)
Definition getOpenAIClient (client : bool) : option bool :=
  if client then Some true
  else match apiKey with
       | Some (_ :: _) => Some true
       | _ => None
       end.

(** [x || fallback] on a string that may be missing. *)
Definition orElse (x : option jsstring) (fallback : jsstring) : jsstring :=
  match x with
  | Some (c :: s) => c :: s
  | _ => fallback
  end.

Definition chatCompletion (client : bool) (messages : list Message)
  : Chat.Completion * bool :=
  let formattedMessages := formatMessages messages in
  match getOpenAIClient client with
  | None => (Chat.Rejected "Failed to generate response from AI", client)
  | Some client' =>
      match create formattedMessages with
      | Returns choices =>
          (Chat.Resolved
             (orElse (choices !! 0%nat ≫= choiceContent)
                (js "No response generated.")),
           client')
      | Throws => (Chat.Rejected "Failed to generate response from AI", client')
      end
  end.

(** [if (content) yield content] *)
Definition yielded (delta : option jsstring) : list jsstring :=
  match delta with
  | Some (c :: s) => [c :: s]
  | _ => []
  end.

Definition chatCompletionStream (client : bool) (messages : list Message)
  : Chat.StreamRun * bool :=
  let formattedMessages := formatMessages messages in
  let failure := Some "Failed to generate streaming response from AI"%string in
  match getOpenAIClient client with
  | None => ({| Chat.chunks := []; Chat.thrown := failure |}, client)
  | Some client' =>
      match createStream formattedMessages with
      | Returns stream =>
          ({| Chat.chunks := List.flat_map yielded (deltas stream);
              Chat.thrown := if breaks stream then failure else None |},
           client')
      | Throws => ({| Chat.chunks := []; Chat.thrown := failure |}, client')
      end
  end.

End Service.

End OpenAIService.

(** ** The rate limit of the input area ([lib/validation.ts]) *)

Module ClientRateLimit.

(** The limit and the window are whole numbers, as in every use of the
    class. *)
Record t := {
  timestamps : list Z;
  maxRequests : Z;
  windowMs : Z
}.

(** [new ClientRateLimit(maxRequests, windowMs)] *)
Definition new (maxRequests windowMs : Z) : t :=
  {| timestamps := []; maxRequests := maxRequests; windowMs := windowMs |}.

(** [canMakeRequest()], with the value [now] of [Date.now()]. *)
Definition canMakeRequest (now : Z) (r : t) : bool * t :=
  let kept :=
    List.filter (fun timestamp => now - timestamp <? windowMs r)
      (timestamps r) in
  if Z.of_nat (length kept) >=? maxRequests r then
    (false, {| timestamps := kept; maxRequests := maxRequests r;
               windowMs := windowMs r |})
  else
    (true, {| timestamps := kept ++ [now]; maxRequests := maxRequests r;
              windowMs := windowMs r |}).

(** [Math.min(...timestamps)] on a non-empty array. *)
Definition minimum (first : Z) (others : list Z) : Z :=
  fold_left Z.min others first.

(** [getTimeUntilReset()] *)
Definition getTimeUntilReset (now : Z) (r : t) : Z :=
  match timestamps r with
  | [] => 0
  | first :: others =>
      let oldestTimestamp := minimum first others in
      let resetTime := oldestTimestamp + windowMs r in
      Z.max 0 (resetTime - now)
  end.

(** A series of calls of [canMakeRequest], at the given times. *)
Fixpoint requests (times : list Z) (r : t) : list (Z * bool) * t :=
  match times with
  | [] => ([], r)
  | now :: later =>
      let (granted, r') := canMakeRequest now r in
      let (answers, r'') := requests later r' in
      ((now, granted) :: answers, r'')
  end.

End ClientRateLimit.

(** ** The validator of the input area ([lib/validation.ts]) *)

Module Frontend.

(** [/[\x00-\x08\x0B\x0C\x0E-\x1F\x7F]/] *)
Definition isControl (c : N) : bool :=
  ((c <=? 8) || (c =? 11) || (c =? 12) || (14 <=? c) && (c <=? 31)
   || (c =? 127))%N.

(** [s.replace(/c/g, replacement)] for a single character [c]. *)
Definition replaceChar (c : N) (replacement : jsstring) (s : jsstring)
  : jsstring :=
  List.flat_map (fun x => if (x =? c)%N then replacement else [x]) s.

(** [sanitizeInput(input)] on a string. *)
Definition sanitizeInput (input : jsstring) : jsstring :=
  let sanitized := List.filter (fun c => negb (isControl c)) input in
  replaceChar 47 (js "&#x2F;")
    (replaceChar 39 (js "&#x27;")
       (replaceChar 34 (js "&quot;")
          (replaceChar 62 (js "&gt;")
             (replaceChar 60 (js "&lt;")
                (replaceChar 38 (js "&amp;") sanitized))))).

(** [/<name\b/i] *)
Definition matchTag (name : string) (s : jsstring) : bool :=
  match matchLiteral (js name) s with
  | Some (c :: _) => negb (isWordChar c)
  | Some [] => true
  | None => false
  end.

(** [/name\s*\(/i] *)
Definition matchCall (name : string) (s : jsstring) : bool :=
  match matchLiteral (js name) s with
  | Some rest => startsWith 40 (skipWhile isWhiteSpace rest)
  | None => false
  end.

Definition suspiciousPatterns : list (jsstring -> bool) :=
  [ matchJavascript; matchTag "<script"; matchTag "<iframe"; matchTag "<object";
    matchTag "<embed"; matchHandler; matchCall "eval"; matchCall "expression" ].

(** [.] of a regular expression without the flag [s]. *)
Definition isLineTerminator (c : N) : bool :=
  ((c =? 10) || (c =? 13) || (c =? 8232) || (c =? 8233))%N.

(** How many copies of [c] the text starts with. *)
Fixpoint runOf (c : N) (s : jsstring) : nat :=
  match s with
  | x :: s' => if (x =? c)%N then S (runOf c s') else 0%nat
  | [] => 0%nat
  end.

(** [/(.)\1{50,}/] at the start of the text. *)
Definition matchRepeated (s : jsstring) : bool :=
  match s with
  | c :: s' => negb (isLineTerminator c) && (50 <=? runOf c s')%nat
  | [] => false
  end.

Record MessageValidation := {
  valid : bool;
  error : option string;
  sanitizedContent : option jsstring
}.

Definition invalid (reason : string) : MessageValidation :=
  {| valid := false; error := Some reason; sanitizedContent := None |}.

(** [validateMessage(content)] on a string. *)
Definition validateMessage (content : jsstring) : MessageValidation :=
  if (Z.of_nat (length content) =? 0) then invalid "Message cannot be empty"
  else
    let trimmed := trim content in
    if (Z.of_nat (length trimmed) =? 0) then invalid "Message cannot be empty"
    else if (10000 <? Z.of_nat (length trimmed)) then
      invalid "Message is too long (maximum 10,000 characters)"
    else if (Z.of_nat (length trimmed) <? 1) then
      invalid "Message is too short"
    else if existsb (fun pattern => test pattern trimmed) suspiciousPatterns
    then invalid "Message contains potentially unsafe content"
    else if test matchRepeated trimmed then
      invalid "Message contains too many repeated characters"
    else
      {| valid := true; error := None;
         sanitizedContent := Some (sanitizeInput trimmed) |}.

(** What [handleSend] of the input area passes to [onSendMessage], if
    anything, once the rate limit has let the message through and the area
    is not disabled: the sanitized content, when it is not empty. *)
Definition sent (message : jsstring) : option jsstring :=
  let validation := validateMessage message in
  if negb (valid validation) then None
  else match sanitizedContent validation with
       | Some (c :: s) => Some (c :: s)
       | _ => None
       end.

End Frontend.

(** ** Vocabulary of the statements and sample data *)

Import ContextManager.

Fixpoint sumZ (l : list Z) : Z :=
  match l with
  | [] => 0
  | x :: l' => x + sumZ l'
  end.

(** The array the loop starts from. *)
Definition window (ms : list Message) : list Message :=
  match List.find isSystem ms with Some s => [s] | None => [] end
  ++ sliceLast KEEP_RECENT_MESSAGES (List.filter notSystem ms).

(** The shape of a trimmed payload: an optional pinned system turn, then at
    most [KEEP_RECENT_MESSAGES] turns, none of them a system turn. *)
Inductive Payload : list Message -> Prop :=
| Payload_pinned (s : Message) (r : list Message) :
    role s = system ->
    Forall (fun m => role m <> system) r ->
    (length r <= KEEP_RECENT_MESSAGES)%nat ->
    Payload (s :: r)
| Payload_plain (r : list Message) :
    Forall (fun m => role m <> system) r ->
    (length r <= KEEP_RECENT_MESSAGES)%nat ->
    Payload r.

Definition tooLong : string :=
  "Message is too long (maximum 10,000 characters)".

Definition hour : Z := 1000 * 60 * 60.

(** Sample turns: [turn r n len] has identifier [n] and [len] letters. *)
Definition turn (r : Role) (n : nat) (len : N) : Message :=
  {| id := [N.of_nat n]; role := r; content := repeat 97%N (N.to_nat len);
     timestamp := Z.of_nat n; conversationId := Some (js "c1") |}.
Arguments turn r n%_nat len%_N.

(** [n] turns of [len] letters each, alternately from user and assistant,
    numbered from [start]. *)
Definition dialogue (start n : nat) (len : N) : list Message :=
  List.map (fun i => turn (if Nat.even i then user else assistant) i len)
    (seq start n).

Arguments dialogue start%_nat n%_nat len%_N.

Definition pinned : Message := turn system 0 11.

Definition greeting : list Message :=
  [ {| id := js "s"; role := system; content := js "Be concise.";
       timestamp := 0; conversationId := None |};
    {| id := js "u"; role := user; content := js "Hi";
       timestamp := 1; conversationId := Some (js "c1") |} ].

(** *** Sample runs of the handler *)

Definition sampleUuid (n : nat) : jsstring := js "id-" ++ [N.of_nat n].
Definition sampleClock (n : nat) : Z := 1000 * Z.of_nat n.

Definition answering (_ : list Message) : Chat.Completion :=
  Chat.Resolved (js "Hello!").
Definition streaming (_ : list Message) : Chat.StreamRun :=
  {| Chat.chunks := [js "Hel"; js "lo!"]; Chat.thrown := None |}.
Definition failing (_ : list Message) : Chat.Completion :=
  Chat.Rejected "Failed to generate response from AI".
Definition breaking (_ : list Message) : Chat.StreamRun :=
  {| Chat.chunks := [js "Hel"];
     Chat.thrown := Some "Failed to generate streaming response from AI"%string |}.

Definition sayHi (stream : bool) : Chat.ChatRequest :=
  {| Chat.req_message := js " Hi "; Chat.req_conversationId := Some (js "c1");
     Chat.req_stream := Some stream |}.

Definition emptyWorld : Chat.World :=
  {| Chat.conversations := ∅; Chat.uuidCalls := 0; Chat.dateCalls := 0;
     Chat.providerCalls := [] |}.

(** A session [c1] with a system turn and 30 short turns. *)
Definition longSession : list Message := pinned :: dialogue 1 30 2.

Definition busyWorld : Chat.World :=
  {| Chat.conversations :=
       {[ js "c1" := {| Chat.messages := longSession; Chat.lastActivity := 0 |} ]};
     Chat.uuidCalls := 0; Chat.dateCalls := 0; Chat.providerCalls := [] |}.

(** *** Vocabulary of the further properties *)

(** *** Occurrences of the unsafe patterns, stated on the text *)

(** [v] spells the lower-case literal [lit], each letter in either case. *)
Definition Spells (lit v : jsstring) : Prop :=
  Forall2 (fun p c => c = p \/ ((97 <= p)%N /\ (p <= 122)%N /\ c = (p - 32)%N))
    lit v.

Definition WordChars (w : jsstring) : Prop :=
  Forall (fun c => isWordChar c = true) w.

Definition Blanks (ws : jsstring) : Prop :=
  Forall (fun c => isWhiteSpace c = true) ws.

(** [javascript:] somewhere in [s]. *)
Definition HasJavascriptUri (s : jsstring) : Prop :=
  exists pre v post, s = pre ++ v ++ post /\ Spells (js "javascript:") v.

(** [<script] somewhere in [s], not followed by a letter, digit or [_]. *)
Definition HasScriptTag (s : jsstring) : Prop :=
  exists pre v post,
    s = pre ++ v ++ post /\ Spells (js "<script") v
    /\ match post with c :: _ => isWordChar c = false | [] => True end.

(** [on], one or more word characters, optional blanks and [=]. *)
Definition HasEventHandler (s : jsstring) : Prop :=
  exists pre v w ws post,
    s = pre ++ v ++ w ++ ws ++ 61%N :: post /\ Spells (js "on") v
    /\ w <> [] /\ WordChars w /\ Blanks ws.

(** [eval], optional blanks and an opening parenthesis. *)
Definition HasEvalCall (s : jsstring) : Prop :=
  exists pre v ws post,
    s = pre ++ v ++ ws ++ 40%N :: post /\ Spells (js "eval") v /\ Blanks ws.

Definition unsafe : string := "Message contains potentially unsafe content".

Definition noCapitals (lit : jsstring) : bool :=
  forallb (fun p => negb ((65 <=? p) && (p <=? 90))%N) lit.

(** Where a run of characters ends. *)
Definition stopsAt (f : N -> bool) (s : jsstring) : Prop :=
  match s with c :: _ => f c = false | [] => True end.

Definition systemPrompt : jsstring :=
  js "You are a helpful AI assistant. Be concise, friendly, and informative in your responses. Keep your answers clear and well-structured.".

(** A stored history: the seeded prompt, then user and assistant turns. *)
Definition Seeded (history : list Message) : Prop :=
  exists s rest,
    history = s :: rest
    /\ role s = system /\ content s = systemPrompt
    /\ Forall (fun m => role m <> system) rest
    /\ (length rest <= 31)%nat.

(** A payload of the completion provider: the seeded prompt first, the
    user turn of the request last, within the token budget unless it is
    down to these two turns. *)
Definition Prompted (payload : list Message) : Prop :=
  exists s rest u,
    payload = s :: rest ++ [u]
    /\ role s = system /\ content s = systemPrompt
    /\ Forall (fun m => role m <> system) rest
    /\ role u = user
    /\ (length rest <= 29)%nat
    /\ (calculateTotalTokens payload <= MAX_TOKENS \/ rest = []).

(** The states that runs of [Chat.post], deletions and sweeps reach from an
    empty session map, in any order and with any environment. Every request
    is served from its first line to its last before the next step; for
    handlers that overlap see [Interleaved]. *)
Inductive Reachable : Chat.World -> Prop :=
| Reachable_start (uuids dates : nat) :
    Reachable {| Chat.conversations := ∅; Chat.uuidCalls := uuids;
                 Chat.dateCalls := dates; Chat.providerCalls := [] |}
| Reachable_post uuid clock chatCompletion chatCompletionStream req w :
    Reachable w ->
    Reachable
      (snd (Chat.handle uuid clock chatCompletion chatCompletionStream req w))
| Reachable_delete i w :
    Reachable w -> Reachable (snd (Chat.deleteConversation i w))
| Reachable_sweep now w :
    Reachable w -> Reachable (Chat.sweepWorld now w).

Definition StoreOk (w : Chat.World) : Prop :=
  (forall k c, Chat.conversations w !! k = Some c -> Seeded (Chat.messages c))
  /\ Forall Prompted (Chat.providerCalls w).

(** The text of every delta, missing ones counting for nothing. *)
Definition deltaText (delta : option jsstring) : jsstring := default [] delta.

(** The times at which requests were granted. *)
Definition grantedTimes (answers : list (Z * bool)) : list Z :=
  List.map fst (List.filter snd answers).

(** The characters that [sanitizeInput] removes or encodes. *)
Definition isMarkup (c : N) : bool :=
  ((c =? 38) || (c =? 60) || (c =? 62) || (c =? 34) || (c =? 39) || (c =? 47))%N.

(** The entity that stands for a character. *)
Definition encode (c : N) : jsstring :=
  if (c =? 38)%N then js "&amp;"
  else if (c =? 60)%N then js "&lt;"
  else if (c =? 62)%N then js "&gt;"
  else if (c =? 34)%N then js "&quot;"
  else if (c =? 39)%N then js "&#x27;"
  else if (c =? 47)%N then js "&#x2F;"
  else [c].

Definition plain (c : N) : bool :=
  negb (Frontend.isControl c)
  && negb ((c =? 60) || (c =? 62) || (c =? 34) || (c =? 39) || (c =? 47))%N.

Definition blankRequest : Chat.ChatRequest :=
  {| Chat.req_message := js "   "; Chat.req_conversationId := Some (js "c1");
     Chat.req_stream := None |}.

(** The state after one answered request on an empty server. *)
Definition greetedWorld : Chat.World :=
  snd (Chat.handle sampleUuid sampleClock answering streaming (sayHi false)
         emptyWorld).

(** *** Vocabulary of the statements about overlapping handlers *)

(** A history that begins with the seeded prompt, its only system turn. *)
Definition PromptFirst (history : list Message) : Prop :=
  exists s rest,
    history = s :: rest
    /\ role s = system /\ content s = systemPrompt
    /\ Forall (fun m => role m <> system) rest.

(** The states of the server when handlers may overlap: from an empty
    heap and session map, handlers begin, suspended handlers go on in any
    order and with any outcome, conversations are deleted and sweeps run,
    with any environment. *)
Inductive Interleaved : Server.State -> Prop :=
| Interleaved_start (uuids dates : nat) :
    Interleaved
      {| Server.arrays := []; Server.objects := [];
         Server.conversations := ∅; Server.suspended := [];
         Server.uuidCalls := uuids; Server.dateCalls := dates;
         Server.providerCalls := [] |}
| Interleaved_begin uuid clock req st :
    Interleaved st -> Interleaved (snd (Server.begin uuid clock req st))
| Interleaved_resume uuid clock n outcome st :
    Interleaved st -> Interleaved (snd (Server.resume uuid clock n outcome st))
| Interleaved_delete i st :
    Interleaved st -> Interleaved (Server.deleteConversation i st)
| Interleaved_sweep now st :
    Interleaved st -> Interleaved (Server.sweep now st).

(** Every address in use is allocated, every array begins with the prompt,
    and every payload was a trimmed one. *)
Record HeapOk (st : Server.State) : Prop := {
  arrays_ok : Forall PromptFirst (Server.arrays st);
  objects_ok :
    Forall (fun c => (Server.messages c < length (Server.arrays st))%nat)
      (Server.objects st);
  conversations_ok :
    map_Forall (fun _ o => (o < length (Server.objects st))%nat)
      (Server.conversations st);
  suspended_ok :
    Forall (fun h =>
              (Server.h_conversationData h < length (Server.objects st))%nat
              /\ (Server.h_conversationMessages h
                  < length (Server.arrays st))%nat)
      (Server.suspended st);
  providerCalls_ok : Forall Prompted (Server.providerCalls st)
}.

(** What holds once a computation has run. *)
Definition after {A} (m : Server.M A) (st : Server.State)
    (Q : A -> Server.State -> Prop) : Prop :=
  Q (fst (m st)) (snd (m st)).

(** The states of the server when no handler is overlapped: every handler
    goes on as soon as it has begun. *)
Inductive Serial : Server.State -> Prop :=
| Serial_start (uuids dates : nat) :
    Serial
      {| Server.arrays := []; Server.objects := [];
         Server.conversations := ∅; Server.suspended := [];
         Server.uuidCalls := uuids; Server.dateCalls := dates;
         Server.providerCalls := [] |}
| Serial_serve uuid clock req outcome st :
    Serial st -> Serial (Server.serve uuid clock req outcome st)
| Serial_delete i st :
    Serial st -> Serial (Server.deleteConversation i st)
| Serial_sweep now st :
    Serial st -> Serial (Server.sweep now st).

(** Every address in use is allocated, no two conversations hold the same
    object, and no two objects the same array. *)
Record Owned (st : Server.State) : Prop := {
  objects_valid :
    forall o c, Server.objects st !! o = Some c ->
                (Server.messages c < length (Server.arrays st))%nat;
  conversations_valid :
    forall i o, Server.conversations st !! i = Some o ->
                (o < length (Server.objects st))%nat;
  own_object :
    forall i j o,
      Server.conversations st !! i = Some o ->
      Server.conversations st !! j = Some o -> i = j;
  own_array :
    forall o1 o2 c1 c2,
      Server.objects st !! o1 = Some c1 ->
      Server.objects st !! o2 = Some c2 ->
      Server.messages c1 = Server.messages c2 -> o1 = o2
}.

(** *** Sample runs of the server *)

Definition emptyServer : Server.State :=
  {| Server.arrays := []; Server.objects := []; Server.conversations := ∅;
     Server.suspended := []; Server.uuidCalls := 0; Server.dateCalls := 0;
     Server.providerCalls := [] |}.

(** [n] requests on [c1], each answered before the next begins. *)
Definition exchanges (n : nat) : Server.State :=
  Nat.iter n
    (Server.serve sampleUuid sampleClock (sayHi false)
       (Server.Answered (js "Hello!")))
    emptyServer.

(** One more request on [c1], which the provider fails. *)
Definition unanswered (st : Server.State) : Server.State :=
  Server.serve sampleUuid sampleClock (sayHi false) Server.Failed st.

(** Two requests on [c1] that overlap: both handlers begin, then the first
    is answered... *)
Definition overlapBegun (st : Server.State) : Server.State :=
  snd (Server.resume sampleUuid sampleClock 0 (Server.Answered (js "First"))
         (snd (Server.begin sampleUuid sampleClock (sayHi true)
                 (snd (Server.begin sampleUuid sampleClock (sayHi false)
                         st))))).

(** ... and then the second. *)
Definition overlap (st : Server.State) : Server.State :=
  snd (Server.resume sampleUuid sampleClock 0 (Server.Answered (js "Second"))
         (overlapBegun st)).

(** The roles and texts stored for [c1]. *)
Definition texts (st : Server.State) : list (Role * jsstring) :=
  match Server.stored st (js "c1") with
  | Some c => List.map (fun m => (role m, content m)) (Chat.messages c)
  | None => []
  end.

(** One request on an empty server, answered. *)
Definition servedOnce : Server.State :=
  Server.serve sampleUuid sampleClock (sayHi false)
    (Server.Answered (js "Hello!")) emptyServer.

(** * Properties *)

(** ** Token estimates *)

Lemma estimateTokens_closed_form (m : Message) :
  estimateTokens m = (Z.of_nat (length (content m)) + 3) / 4 + 10.
Proof.
  unfold estimateTokens, Qceiling, Qfloor.
  set (n := Z.of_nat (length (content m))).
  cbn. rewrite Z.mul_1_r.
  change (Z.pos (1 * 4)) with 4. f_equal.
  Z.div_mod_to_equations. lia.
Qed.

Lemma estimateTokens_lower (m : Message) : 10 <= estimateTokens m.
Proof.
  rewrite estimateTokens_closed_form.
  pose proof (Nat2Z.is_nonneg (length (content m))).
  Z.div_mod_to_equations. lia.
Qed.

Lemma fold_left_tokens (ms : list Message) (acc : Z) :
  fold_left (fun total msg => total + estimateTokens msg) ms acc
  = acc + sumZ (List.map estimateTokens ms).
Proof.
  revert acc. induction ms as [|m ms IH]; intros acc; simpl.
  - lia.
  - rewrite IH. lia.
Qed.

Lemma calculateTotalTokens_sum (ms : list Message) :
  calculateTotalTokens ms = sumZ (List.map estimateTokens ms).
Proof. unfold calculateTotalTokens. rewrite fold_left_tokens. lia. Qed.

Lemma calculateTotalTokens_cons (m : Message) (ms : list Message) :
  calculateTotalTokens (m :: ms) = estimateTokens m + calculateTotalTokens ms.
Proof. rewrite !calculateTotalTokens_sum. reflexivity. Qed.

Lemma calculateTotalTokens_nonneg (ms : list Message) :
  0 <= calculateTotalTokens ms.
Proof.
  induction ms as [|m ms IH].
  - reflexivity.
  - rewrite calculateTotalTokens_cons. pose proof (estimateTokens_lower m). lia.
Qed.

(** C8. The estimate of a turn is [ceil(length / 4) + 10], that is, ten more
    than the least integer [c] with [length <= 4 * c]; the total of a
    sequence is the sum of the estimates of its turns; and every estimate
    is a non-negative integer. *)
Theorem estimate_is_ceiling_and_total_is_sum :
  (forall m : Message,
      let n := Z.of_nat (length (content m)) in
      let c := estimateTokens m - 10 in
      n <= 4 * c < n + 4 /\ estimateTokens m = (n + 3) / 4 + 10)
  /\ (forall ms : list Message,
        calculateTotalTokens ms = sumZ (List.map estimateTokens ms))
  /\ (forall m : Message, 0 <= estimateTokens m).
Proof.
  split; [|split].
  - intros m n c. subst c. rewrite estimateTokens_closed_form. fold n.
    split; [|reflexivity]. Z.div_mod_to_equations. lia.
  - apply calculateTotalTokens_sum.
  - intros m. pose proof (estimateTokens_lower m). lia.
Qed.

(** ** The trimming loop *)

Lemma trimLoop_unfold (l : list Message) :
  trimLoop l = if overBudget l then trimLoop (removeSecond l) else l.
Proof.
  funelim (trimLoop l);
    match goal with Hg : overBudget _ = _ |- _ => rewrite Hg end; reflexivity.
Qed.

(** Induction along the turns of the loop. *)
Lemma trimLoop_by_turns (P : list Message -> list Message -> Prop) :
  (forall l, overBudget l = false -> P l l) ->
  (forall l r, overBudget l = true -> P (removeSecond l) r -> P l r) ->
  forall l, P l (trimLoop l).
Proof.
  intros Hexit Hturn l.
  induction l as [l IH] using (induction_ltof1 _ (@length Message)).
  unfold ltof in IH. rewrite trimLoop_unfold.
  destruct (overBudget l) eqn:Hg.
  - apply Hturn; [exact Hg|]. apply IH.
    unfold overBudget in Hg. apply andb_prop in Hg as [Hlen _].
    unfold removeSecond. rewrite Hlen. apply Nat.ltb_lt in Hlen.
    unfold splice. rewrite length_app, length_take, length_drop. lia.
  - apply Hexit, Hg.
Qed.

Lemma overBudget_removeSecond (l : list Message) :
  overBudget l = true ->
  exists a b c r, l = a :: b :: c :: r /\ removeSecond l = a :: c :: r.
Proof.
  intros Hg. unfold overBudget in Hg. apply andb_prop in Hg as [Hlen _].
  unfold removeSecond. rewrite Hlen. apply Nat.ltb_lt in Hlen.
  destruct l as [|a [|b [|c r]]]; simpl in Hlen; try lia.
  exists a, b, c, r. split; reflexivity.
Qed.

Lemma trimLoop_exit (l : list Message) : overBudget (trimLoop l) = false.
Proof. apply (trimLoop_by_turns (fun _ r => overBudget r = false)); auto. Qed.

Lemma trimLoop_fixed (l : list Message) :
  overBudget l = false -> trimLoop l = l.
Proof. intros Hg. rewrite trimLoop_unfold, Hg. reflexivity. Qed.

Lemma trimLoop_idempotent (l : list Message) :
  trimLoop (trimLoop l) = trimLoop l.
Proof. apply trimLoop_fixed, trimLoop_exit. Qed.

(** The loop keeps the first element and a suffix of the others. *)
Lemma trimLoop_keeps_head (a : Message) (r : list Message) :
  exists k, trimLoop (a :: r) = a :: drop k r.
Proof.
  apply (trimLoop_by_turns
           (fun l res => forall a r, l = a :: r -> exists k, res = a :: drop k r)
           ) with (l := a :: r); [| |reflexivity].
  - intros l _ a' r' ->. exists 0%nat. reflexivity.
  - intros l res Hg IH a' r' ->.
    destruct (overBudget_removeSecond _ Hg) as (x & b & c & t & Hl & Hrm).
    injection Hl as -> ->.
    destruct (IH x (c :: t) Hrm) as [k Hk].
    exists (S k). exact Hk.
Qed.

Lemma trimLoop_length_floor (l : list Message) :
  (2 <= length l)%nat -> (2 <= length (trimLoop l))%nat.
Proof.
  apply (trimLoop_by_turns
           (fun l res => (2 <= length l)%nat -> (2 <= length res)%nat)).
  - auto.
  - intros l' res Hg IH _. apply IH.
    destruct (overBudget_removeSecond _ Hg) as (x & b & c & t & _ & ->).
    simpl. lia.
Qed.

Lemma trimLoop_nil : trimLoop [] = [].
Proof. apply trimLoop_fixed. reflexivity. Qed.

(** ** Roles *)

Lemma isSystem_true (m : Message) : isSystem m = true <-> role m = system.
Proof. unfold isSystem. destruct (role m); simpl; split; congruence. Qed.

Lemma notSystem_true (m : Message) : notSystem m = true <-> role m <> system.
Proof.
  unfold notSystem, isSystem. destruct (role m); simpl; split; congruence.
Qed.

Lemma notSystem_false (m : Message) : notSystem m = false <-> role m = system.
Proof.
  unfold notSystem, isSystem. destruct (role m); simpl; split; congruence.
Qed.

Lemma filter_notSystem_all (l : list Message) :
  Forall (fun m => role m <> system) l -> List.filter notSystem l = l.
Proof.
  induction 1 as [|m l Hm _ IH]; simpl; [reflexivity|].
  apply notSystem_true in Hm. rewrite Hm, IH. reflexivity.
Qed.

Lemma filter_notSystem_Forall (l : list Message) :
  Forall (fun m => role m <> system) (List.filter notSystem l).
Proof.
  apply List.Forall_forall. intros m Hm.
  apply List.filter_In in Hm as [_ Hm]. apply notSystem_true, Hm.
Qed.

Lemma find_isSystem_none (l : list Message) :
  List.find isSystem l = None -> Forall (fun m => role m <> system) l.
Proof.
  intros Hnone. apply List.Forall_forall. intros m Hm.
  pose proof (List.find_none _ _ Hnone m Hm) as Hf.
  unfold isSystem in Hf. destruct (role m); simpl in Hf; congruence.
Qed.

Lemma find_isSystem_all_others (l : list Message) :
  Forall (fun m => role m <> system) l -> List.find isSystem l = None.
Proof.
  induction 1 as [|m l Hm _ IH]; simpl; [reflexivity|].
  apply notSystem_true in Hm. unfold notSystem in Hm.
  destruct (isSystem m); [discriminate|exact IH].
Qed.

Lemma sliceLast_short {A} (n : nat) (l : list A) :
  (length l <= n)%nat -> sliceLast n l = l.
Proof.
  intros Hle. unfold sliceLast.
  replace (length l - n)%nat with 0%nat by lia. reflexivity.
Qed.

Lemma sliceLast_length {A} (n : nat) (l : list A) :
  (length (sliceLast n l) <= n)%nat.
Proof. unfold sliceLast. rewrite length_drop. lia. Qed.

(** ** The two branches of [trimConversation] *)

Lemma trimConversation_within (ms : list Message) :
  withinLimits ms = true -> trimConversation ms = ms.
Proof. intros H. unfold trimConversation. rewrite H. reflexivity. Qed.

Lemma trimConversation_over (ms : list Message) :
  withinLimits ms = false -> trimConversation ms = trimLoop (window ms).
Proof. intros H. unfold trimConversation. rewrite H. reflexivity. Qed.

Lemma withinLimits_true (ms : list Message) :
  withinLimits ms = true <->
  (length (List.filter notSystem ms) <= MAX_MESSAGES)%nat
  /\ calculateTotalTokens ms <= MAX_TOKENS.
Proof.
  unfold withinLimits. rewrite andb_true_iff, Nat.leb_le, Z.leb_le. tauto.
Qed.

Lemma recent_Forall (ms : list Message) :
  Forall (fun m => role m <> system)
    (sliceLast KEEP_RECENT_MESSAGES (List.filter notSystem ms)).
Proof. unfold sliceLast. apply Forall_drop, filter_notSystem_Forall. Qed.

Lemma window_Payload (ms : list Message) : Payload (window ms).
Proof.
  unfold window. destruct (List.find isSystem ms) as [s|] eqn:Hfind.
  - apply List.find_some in Hfind as [_ Hs]. apply isSystem_true in Hs.
    apply Payload_pinned; [exact Hs|apply recent_Forall|apply sliceLast_length].
  - apply Payload_plain; [apply recent_Forall|apply sliceLast_length].
Qed.

Lemma Payload_removeSecond (l : list Message) :
  overBudget l = true -> Payload l -> Payload (removeSecond l).
Proof.
  intros Hg Hp.
  destruct (overBudget_removeSecond _ Hg) as (a & b & c & t & -> & ->).
  inversion Hp as [s r Hs Hr Hlen Heq | r Hr Hlen Heq]; subst.
  - apply Payload_pinned; [exact Hs| |simpl in *; lia].
    inversion Hr; subst. assumption.
  - apply Payload_plain; [|simpl in *; lia].
    inversion Hr as [|? ? Ha Hr']; subst. inversion Hr'; subst.
    constructor; assumption.
Qed.

Lemma Payload_trimLoop (l : list Message) : Payload l -> Payload (trimLoop l).
Proof.
  apply (trimLoop_by_turns (fun l res => Payload l -> Payload res)).
  - auto.
  - intros l' res Hg IH Hp. apply IH, Payload_removeSecond; assumption.
Qed.

(** A payload is its own window. *)
Lemma Payload_window (l : list Message) : Payload l -> window l = l.
Proof.
  intros [s r Hs Hr Hlen | r Hr Hlen]; unfold window.
  - simpl. apply isSystem_true in Hs as Hs'. rewrite Hs'.
    apply notSystem_false in Hs. rewrite Hs.
    rewrite (filter_notSystem_all _ Hr), sliceLast_short by exact Hlen.
    reflexivity.
  - rewrite (find_isSystem_all_others _ Hr), (filter_notSystem_all _ Hr).
    rewrite sliceLast_short by exact Hlen. reflexivity.
Qed.

Lemma trimConversation_Payload (l : list Message) :
  Payload l -> trimConversation l = if withinLimits l then l else trimLoop l.
Proof.
  intros Hp. unfold trimConversation. fold (window l).
  rewrite (Payload_window _ Hp). reflexivity.
Qed.

(** ** Identity under budget *)

(** C5. A sequence with at most 30 non-system turns and at most 4000
    estimated tokens in total, the system turn included, is returned
    unchanged. *)
Theorem trim_identity_under_budget (turns : list Message) :
  (length (List.filter notSystem turns) <= 30)%nat ->
  calculateTotalTokens turns <= 4000 ->
  trimConversation turns = turns.
Proof.
  intros Hcount Htokens. apply trimConversation_within, withinLimits_true.
  split; assumption.
Qed.

Lemma trim_identity_under_budget_witness :
  trimConversation greeting = greeting.
Proof.
  apply trim_identity_under_budget.
  - vm_compute. lia.
  - vm_compute. discriminate.
Defined.

(** ** The pinned system turn *)

Lemma trimConversation_over_pinned (ms : list Message) (s : Message) :
  List.find isSystem ms = Some s ->
  withinLimits ms = false ->
  exists rest,
    trimConversation ms = s :: rest
    /\ Forall (fun m => role m <> system) rest.
Proof.
  intros Hfind Hover. rewrite (trimConversation_over _ Hover).
  unfold window. rewrite Hfind. simpl.
  destruct (trimLoop_keeps_head s
              (sliceLast KEEP_RECENT_MESSAGES (List.filter notSystem ms)))
    as [k ->].
  eexists; split; [reflexivity|]. apply Forall_drop, recent_Forall.
Qed.

(** C4, as the code has it. When the input has a system turn, the output
    contains the first one. It is the first element of the output, and the
    only system turn there, whenever the input is over its limits (so that
    trimming takes place) or already had that turn first and no other
    system turn. An input within limits is returned as it is. *)
Theorem trim_pins_first_system_turn (turns : list Message) (s : Message) :
  List.find isSystem turns = Some s ->
  In s (trimConversation turns)
  /\ (withinLimits turns = true -> trimConversation turns = turns)
  /\ (withinLimits turns = false
      \/ (exists others,
             turns = s :: others
             /\ Forall (fun m => role m <> system) others) ->
      exists rest,
        trimConversation turns = s :: rest
        /\ Forall (fun m => role m <> system) rest).
Proof.
  intros Hfind. split; [|split].
  - destruct (withinLimits turns) eqn:Hw.
    + rewrite (trimConversation_within _ Hw).
      apply List.find_some in Hfind. tauto.
    + destruct (trimConversation_over_pinned _ _ Hfind Hw) as (rest & -> & _).
      left. reflexivity.
  - apply trimConversation_within.
  - intros [Hover | (others & -> & Hothers)].
    + apply trimConversation_over_pinned; assumption.
    + destruct (withinLimits (s :: others)) eqn:Hw.
      * rewrite (trimConversation_within _ Hw). eauto.
      * apply trimConversation_over_pinned; assumption.
Qed.

Lemma trim_pins_first_system_turn_witness :
  exists rest,
    trimConversation (pinned :: dialogue 1 31 2) = pinned :: rest
    /\ Forall (fun m => role m <> system) rest.
Proof.
  destruct (trim_pins_first_system_turn (pinned :: dialogue 1 31 2) pinned)
    as (_ & _ & Hfirst).
  - reflexivity.
  - apply Hfirst. left. vm_compute. reflexivity.
Defined.

(** C4 as stated ("for every input with a system turn, the output has
    exactly that turn, first") fails on inputs within limits, which are
    returned unchanged: one whose system turn is not first, and one with
    two system turns. *)
Lemma within_limits_system_turn_counterexample :
  (List.find isSystem [turn user 1 2; pinned] = Some pinned
   /\ trimConversation [turn user 1 2; pinned] = [turn user 1 2; pinned]
   /\ ~ exists rest, trimConversation [turn user 1 2; pinned] = pinned :: rest)
  /\ (List.find isSystem [pinned; turn system 1 5] = Some pinned
      /\ trimConversation [pinned; turn system 1 5] = [pinned; turn system 1 5]
      /\ ~ exists rest,
            trimConversation [pinned; turn system 1 5] = pinned :: rest
            /\ Forall (fun m => role m <> system) rest).
Proof.
  split; (split; [reflexivity|split; [reflexivity|]]).
  - intros [rest Hrest]. vm_compute in Hrest. discriminate.
  - intros [rest [Hrest Hall]]. vm_compute in Hrest.
    injection Hrest as <-. inversion Hall as [|? ? Hrole _]; subst.
    apply Hrole. reflexivity.
Qed.

(** ** The floor of two turns *)

(** C6. When the input has a system turn and at least one other turn (a
    user or assistant turn), the output has at least two turns, whatever
    they cost. *)
Theorem trim_floor_two_turns (turns : list Message) :
  (exists s, In s turns /\ role s = system) ->
  (exists m, In m turns /\ role m <> system) ->
  (2 <= length (trimConversation turns))%nat.
Proof.
  intros (s & Hs & Hrole) (m & Hm & Hother).
  destruct (withinLimits turns) eqn:Hw.
  - rewrite (trimConversation_within _ Hw).
    destruct turns as [|a [|b t]]; simpl in *; try lia.
    destruct Hs as [->|[]], Hm as [->|[]]. contradiction.
  - rewrite (trimConversation_over _ Hw). apply trimLoop_length_floor.
    unfold window.
    destruct (List.find isSystem turns) as [s'|] eqn:Hfind.
    + assert (In m (List.filter notSystem turns)) as Hin.
      { apply List.filter_In. split; [exact Hm|]. apply notSystem_true, Hother. }
      unfold sliceLast. simpl. rewrite length_drop.
      destruct (List.filter notSystem turns) as [|x xs]; [destruct Hin|].
      simpl. lia.
    + apply find_isSystem_none in Hfind.
      rewrite List.Forall_forall in Hfind. destruct (Hfind s Hs Hrole).
Qed.

(** A system turn and one turn of 20000 letters: the two turns that are
    returned cost 5023 tokens. *)
Lemma trim_floor_two_turns_witness :
  (2 <= length (trimConversation [pinned; turn user 1 20000]))%nat
  /\ MAX_TOKENS < calculateTotalTokens
                    (trimConversation [pinned; turn user 1 20000]).
Proof.
  split.
  - apply trim_floor_two_turns.
    + exists pinned. split; [left; reflexivity|reflexivity].
    + exists (turn user 1 20000). split; [right; left; reflexivity|discriminate].
  - vm_compute. reflexivity.
Defined.

(** The floor is reached by the loop as well: three costly turns after the
    system turn are cut down to the last one. *)
Example trim_floor_reached :
  trimConversation
    [pinned; turn user 1 9000; turn assistant 2 9000; turn user 3 9000]
  = [pinned; turn user 3 9000].
Proof. vm_compute. reflexivity. Qed.

(** With system turns only, there is no second turn to keep. *)
Example trim_system_turns_only :
  trimConversation [turn system 0 9000; turn system 1 9000]
  = [turn system 0 9000].
Proof. vm_compute. reflexivity. Qed.

(** ** Recency *)

Lemma sumZ_constant (c : Z) (l : list Z) :
  Forall (fun x => x = c) l -> sumZ l = c * Z.of_nat (length l).
Proof.
  induction 1 as [|x l -> _ IH]; simpl sumZ; [simpl; lia|].
  rewrite IH. simpl length. lia.
Qed.

Lemma calculateTotalTokens_constant (c : Z) (ms : list Message) :
  Forall (fun m => estimateTokens m = c) ms ->
  calculateTotalTokens ms = c * Z.of_nat (length ms).
Proof.
  intros Hall. rewrite calculateTotalTokens_sum.
  rewrite (sumZ_constant c), length_map; [reflexivity|].
  apply Forall_fmap. exact Hall.
Qed.

(** C7. Of 40 user and assistant turns estimated at 50 tokens each, the
    output keeps the last 10, in their order: the last 10 non-system turns
    of the output are the last 10 non-system turns of the input (and they
    are 10). *)
Theorem trim_recency_forty_turns (turns : list Message) :
  length turns = 40%nat ->
  Forall (fun m => role m <> system /\ estimateTokens m = 50) turns ->
  sliceLast 10 (List.filter notSystem (trimConversation turns))
  = sliceLast 10 (List.filter notSystem turns)
  /\ length (sliceLast 10 (List.filter notSystem (trimConversation turns)))
     = 10%nat.
Proof.
  intros Hlen Hall.
  assert (Forall (fun m => role m <> system) turns) as Hroles.
  { eapply Forall_impl; [exact Hall|]. intros m [H _]. exact H. }
  assert (Forall (fun m => estimateTokens m = 50) turns) as Hcost.
  { eapply Forall_impl; [exact Hall|]. intros m [_ H]. exact H. }
  assert (trimConversation turns = sliceLast 10 turns) as Hout.
  { rewrite trimConversation_over.
    - unfold window.
      rewrite (find_isSystem_all_others _ Hroles), (filter_notSystem_all _ Hroles).
      simpl app. apply trimLoop_fixed. unfold overBudget.
      rewrite (calculateTotalTokens_constant 50).
      + pose proof (sliceLast_length KEEP_RECENT_MESSAGES turns) as Hle.
        unfold KEEP_RECENT_MESSAGES in Hle.
        apply andb_false_iff. right. apply Z.ltb_ge.
        unfold MAX_TOKENS, KEEP_RECENT_MESSAGES. lia.
      + unfold sliceLast. apply Forall_drop, Hcost.
    - unfold withinLimits. rewrite (filter_notSystem_all _ Hroles), Hlen.
      reflexivity. }
  rewrite Hout.
  assert (Forall (fun m => role m <> system) (sliceLast 10 turns)) as Hkept.
  { unfold sliceLast. apply Forall_drop, Hroles. }
  rewrite (filter_notSystem_all _ Hkept), (filter_notSystem_all _ Hroles).
  rewrite (sliceLast_short 10 (sliceLast 10 turns)) by apply sliceLast_length.
  split; [reflexivity|]. unfold sliceLast. rewrite length_drop. lia.
Qed.

(** Forty turns of 160 letters: [160 / 4 + 10 = 50]. *)
Lemma trim_recency_forty_turns_witness :
  sliceLast 10 (List.filter notSystem (trimConversation (dialogue 1 40 160)))
  = dialogue 31 10 160.
Proof.
  destruct (trim_recency_forty_turns (dialogue 1 40 160)) as [Hlast _].
  - reflexivity.
  - apply Forall_forall. intros m Hm. unfold dialogue in Hm.
    apply list_elem_of_fmap in Hm as (i & -> & _).
    split; [destruct (Nat.even i); discriminate|reflexivity].
  - rewrite Hlast. reflexivity.
Defined.

(** ** Idempotence *)

(** C10. Trimming a trimmed sequence changes nothing; this includes the
    outputs of two turns that are still over the token budget. *)
Theorem trim_idempotent (turns : list Message) :
  trimConversation (trimConversation turns) = trimConversation turns.
Proof.
  destruct (withinLimits turns) eqn:Hw.
  - rewrite (trimConversation_within _ Hw). apply trimConversation_within, Hw.
  - rewrite (trimConversation_over _ Hw).
    rewrite trimConversation_Payload
      by apply Payload_trimLoop, window_Payload.
    rewrite trimLoop_idempotent.
    destruct (withinLimits (trimLoop (window turns))); reflexivity.
Qed.

Example floor_output_is_stable :
  let out := trimConversation [pinned; turn user 1 16000; turn user 2 16000] in
  out = [pinned; turn user 2 16000]
  /\ MAX_TOKENS < calculateTotalTokens out
  /\ trimConversation out = out.
Proof. vm_compute. split; [reflexivity|split; reflexivity]. Qed.

(** ** The length check of the validator *)

Lemma trimStart_length (s : jsstring) : (length (trimStart s) <= length s)%nat.
Proof.
  induction s as [|c s IH]; simpl; [lia|].
  destruct (isWhiteSpace c); simpl; lia.
Qed.

Lemma trim_length (s : jsstring) : (length (trim s) <= length s)%nat.
Proof.
  unfold trim, trimEnd. rewrite length_rev.
  pose proof (trimStart_length (rev (trimStart s))) as H1.
  rewrite length_rev in H1. pose proof (trimStart_length s). lia.
Qed.

(** What the code does: once the two emptiness checks pass, "too long" is
    decided by the length of the content as received. *)
Lemma validateMessage_too_long_iff (content : jsstring) :
  trim content <> [] ->
  error (validateMessage content) = Some tooLong
  <-> 10000 < Z.of_nat (length content).
Proof.
  intros Hne. unfold validateMessage.
  assert ((Z.of_nat (length (trim content)) =? 0) = false) as ->.
  { apply Z.eqb_neq. destruct (trim content); [congruence|simpl; lia]. }
  assert ((Z.of_nat (length content) =? 0) = false) as ->.
  { apply Z.eqb_neq. destruct content; [|simpl; lia].
    exfalso. apply Hne. reflexivity. }
  destruct (10000 <? Z.of_nat (length content)) eqn:Hlen.
  - apply Z.ltb_lt in Hlen. simpl. unfold tooLong. tauto.
  - apply Z.ltb_ge in Hlen.
    destruct (existsb _ maliciousPatterns); simpl; unfold tooLong;
      split; intros H; try discriminate H; lia.
Qed.

(** One direction of C3 follows: a trimmed length above 10000 is rejected
    as too long. *)
Lemma validateMessage_long_trimmed (content : jsstring) :
  10000 < Z.of_nat (length (trim content)) ->
  error (validateMessage content) = Some tooLong.
Proof.
  intros Hlong. apply validateMessage_too_long_iff.
  - destruct (trim content); [simpl in Hlong; lia|congruence].
  - pose proof (trim_length content). lia.
Qed.

(** The cases of the specification. *)
Example validate_empty :
  validateMessage []
  = {| valid := false;
       error := Some "Message content must be a non-empty string"%string |}.
Proof. reflexivity. Qed.

Example validate_blank :
  validateMessage (js "   ")
  = {| valid := false; error := Some "Message cannot be empty"%string |}.
Proof. reflexivity. Qed.

Example validate_script :
  validateMessage (js "<script>evil()</script>")
  = {| valid := false;
       error := Some "Message contains potentially unsafe content"%string |}.
Proof. reflexivity. Qed.

Example validate_handler :
  valid (validateMessage (js "<img ONerror  =x>")) = false
  /\ valid (validateMessage (js "on the moon = far")) = true.
Proof. split; reflexivity. Qed.

Example validate_hello :
  validateMessage (js "hello") = {| valid := true; error := None |}.
Proof. reflexivity. Qed.

Example validate_ten_thousand_and_one :
  validateMessage (repeat 97%N (N.to_nat 10001))
  = {| valid := false; error := Some tooLong |}.
Proof. vm_compute. reflexivity. Qed.

(** C3 at the input made of one space and 10000 letters: the trimmed
    content has 10000 characters, and the message is rejected as too long
    all the same. *)
Theorem validateMessage_rejects_padded_message :
  let content := 32%N :: repeat 97%N (N.to_nat 10000) in
  Z.of_nat (length (trim content)) = 10000
  /\ validateMessage content = {| valid := false; error := Some tooLong |}.
Proof. vm_compute. split; reflexivity. Qed.

(** ** Eviction of idle sessions *)

Lemma shouldCleanupConversation_iff (now lastActivity : Z) :
  shouldCleanupConversation now lastActivity = true
  <-> 24 * hour < now - lastActivity.
Proof.
  unfold shouldCleanupConversation, hoursSinceActivity.
  rewrite negb_true_iff, <- not_true_iff_false, Qle_bool_iff.
  unfold Qle, Qdiv, Qmult, Qinv, inject_Z. simpl Qnum. simpl Qden.
  unfold hour. lia.
Qed.

Lemma sweep_lookup (now : Z) (m : gmap jsstring Chat.ConversationData)
    (k : jsstring) :
  Chat.sweep now m !! k =
  match m !! k with
  | Some c =>
      if shouldCleanupConversation now (Chat.lastActivity c) then None
      else Some c
  | None => None
  end.
Proof.
  unfold Chat.sweep.
  set (f := fun (conversationId : jsstring) (conversation : Chat.ConversationData)
                (acc : gmap jsstring Chat.ConversationData) =>
              if shouldCleanupConversation now (Chat.lastActivity conversation)
              then delete conversationId acc else acc).
  enough (forall visited : gmap jsstring Chat.ConversationData,
             map_fold f m visited !! k =
             match visited !! k with
             | Some c =>
                 if shouldCleanupConversation now (Chat.lastActivity c)
                 then None else m !! k
             | None => m !! k
             end) as Hgen.
  { rewrite Hgen. destruct (m !! k) as [c|]; [|reflexivity].
    destruct (shouldCleanupConversation now (Chat.lastActivity c)); reflexivity. }
  intros visited.
  apply (map_fold_weak_ind
           (fun acc (seen : gmap jsstring Chat.ConversationData) =>
              acc !! k =
              match seen !! k with
              | Some c =>
                  if shouldCleanupConversation now (Chat.lastActivity c)
                  then None else m !! k
              | None => m !! k
              end)).
  - rewrite lookup_empty. reflexivity.
  - intros i x seen acc Hfresh IH. unfold f.
    destruct (decide (i = k)) as [->|Hne].
    + rewrite lookup_insert_eq. rewrite Hfresh in IH.
      destruct (shouldCleanupConversation now (Chat.lastActivity x)).
      * apply lookup_delete_eq.
      * exact IH.
    + rewrite lookup_insert_ne by exact Hne.
      destruct (shouldCleanupConversation now (Chat.lastActivity x));
        [rewrite lookup_delete_ne by exact Hne|]; exact IH.
Qed.

(** C9. A session is idle when more than 24 hours lie between its last
    activity and now; the sweep deletes the idle sessions and keeps all
    others as they are. A session last active 25 hours ago goes, one last
    active an hour ago stays. *)
Theorem sweep_evicts_exactly_idle_sessions :
  (forall now lastActivity : Z,
      shouldCleanupConversation now lastActivity = true
      <-> 24 * hour < now - lastActivity)
  /\ (forall (now : Z) (m : gmap jsstring Chat.ConversationData) (k : jsstring),
        Chat.sweep now m !! k =
        match m !! k with
        | Some c =>
            if shouldCleanupConversation now (Chat.lastActivity c) then None
            else Some c
        | None => None
        end)
  /\ (forall (now : Z) (m : gmap jsstring Chat.ConversationData) (k : jsstring)
             (history : list Message),
        Chat.sweep now
          (<[k := {| Chat.messages := history;
                     Chat.lastActivity := now - 25 * hour |}]> m) !! k
        = None)
  /\ (forall (now : Z) (m : gmap jsstring Chat.ConversationData) (k : jsstring)
             (history : list Message),
        Chat.sweep now
          (<[k := {| Chat.messages := history;
                     Chat.lastActivity := now - 1 * hour |}]> m) !! k
        = Some {| Chat.messages := history;
                  Chat.lastActivity := now - 1 * hour |}).
Proof.
  split; [exact shouldCleanupConversation_iff|].
  split; [exact sweep_lookup|].
  split; intros now m k history; rewrite sweep_lookup, lookup_insert_eq;
    cbn [Chat.lastActivity].
  - assert (shouldCleanupConversation now (now - 25 * hour) = true) as ->;
      [|reflexivity].
    apply shouldCleanupConversation_iff. unfold hour. lia.
  - destruct (shouldCleanupConversation now (now - 1 * hour)) eqn:Hidle;
      [|reflexivity].
    apply shouldCleanupConversation_iff in Hidle. unfold hour in Hidle. lia.
Qed.

(** ** The request pipeline *)

Lemma last_removeSecond (l : list Message) :
  overBudget l = true -> last (removeSecond l) = last l.
Proof.
  intros Hg.
  destruct (overBudget_removeSecond _ Hg) as (a & b & c & r & -> & ->).
  reflexivity.
Qed.

Lemma trimLoop_keeps_last (l : list Message) : last (trimLoop l) = last l.
Proof.
  apply (trimLoop_by_turns (fun l res => last res = last l)).
  - reflexivity.
  - intros l' res Hg IH. rewrite IH. apply last_removeSecond, Hg.
Qed.

(** The turn that was just pushed survives trimming, as the last one. *)
Lemma trimConversation_keeps_last (history : list Message) (m : Message) :
  role m <> system ->
  last (trimConversation (history ++ [m])) = Some m.
Proof.
  intros Hrole. destruct (withinLimits (history ++ [m])) eqn:Hw.
  - rewrite (trimConversation_within _ Hw). apply last_snoc.
  - rewrite (trimConversation_over _ Hw), trimLoop_keeps_last.
    unfold window. rewrite List.filter_app. simpl List.filter.
    apply notSystem_true in Hrole. rewrite Hrole.
    unfold sliceLast, KEEP_RECENT_MESSAGES.
    rewrite drop_app_le by (rewrite length_app; simpl; lia).
    rewrite app_assoc. apply last_snoc.
Qed.

Section Pipeline.

Variable uuid : nat -> jsstring.
Variable clock : nat -> Z.
Variable chatCompletion : list Message -> Chat.Completion.
Variable chatCompletionStream : list Message -> Chat.StreamRun.

Import Chat.

Lemma currentConversationId_frame (req : ChatRequest) (w : World) :
  conversations (snd (currentConversationId uuid req w)) = conversations w
  /\ providerCalls (snd (currentConversationId uuid req w)) = providerCalls w.
Proof.
  unfold currentConversationId.
  destruct (req_conversationId req) as [[|c cs]|]; split; reflexivity.
Qed.

(** The conversation a request addresses: the one it names, or a newly
    minted identifier when it names none or the empty string. *)
Lemma conversationOf_request (req : ChatRequest) (w : World) :
  conversationOf uuid req w
  = match req_conversationId req with
    | Some (c :: cs) => c :: cs
    | _ => uuid (uuidCalls w)
    end.
Proof.
  unfold conversationOf, currentConversationId.
  destruct (req_conversationId req) as [[|c cs]|]; reflexivity.
Qed.

(** Lines 41 to 69 store, and hand on, the trimmed history. *)
Lemma recordUserMessage_run (req : ChatRequest) (w : World) :
  exists seed userMessage t w',
    let cid := conversationOf uuid req w in
    recordUserMessage uuid clock req w
    = (cid, trimConversation (historyFound w cid seed ++ [userMessage]), w')
    /\ role seed = system
    /\ content seed = systemPrompt
    /\ role userMessage = user
    /\ content userMessage = trim (req_message req)
    /\ conversationId userMessage = Some cid
    /\ conversations w' !! cid
       = Some {| messages :=
                   trimConversation (historyFound w cid seed ++ [userMessage]);
                 lastActivity := t |}
    /\ providerCalls w' = providerCalls w.
Proof.
  unfold recordUserMessage, bind, conversationOf.
  destruct (currentConversationId_frame req w) as [Hconv Hcalls].
  destruct (currentConversationId uuid req w) as [cid w1].
  simpl in Hconv, Hcalls. simpl fst.
  exists (fst (addSystemMessage uuid clock w1)).
  unfold historyFound, conversations_get. rewrite <- Hconv, <- Hcalls.
  destruct (conversations w1 !! cid) as [c|]; cbn.
  - do 3 eexists. split; [reflexivity|].
    repeat split. apply lookup_insert_eq.
  - do 3 eexists. split; [reflexivity|].
    repeat split. apply lookup_insert_eq.
Qed.


(** C2, as the code has it. When the provider fails, no assistant turn is
    appended: the conversation the request addresses holds the trimmed
    history, whose last turn is the user turn of the request. A streaming
    request is answered by one chunk event for each chunk the provider
    yielded before it failed, in order, and then one error event with the
    generic message; a plain request hands the error to [next]. *)
Theorem post_failure_appends_no_assistant_turn
    (req : ChatRequest) (w : World) (reason : string) :
  valid (validateMessage (req_message req)) = true ->
  providerFails uuid clock chatCompletion chatCompletionStream req w reason ->
  let cid := conversationOf uuid req w in
  exists seed userMessage t,
    let found := historyFound w cid seed in
    let payload := trimConversation (found ++ [userMessage]) in
    cid = match req_conversationId req with
          | Some (c :: cs) => c :: cs
          | _ => uuid (uuidCalls w)
          end
    /\ role seed = system
    /\ content seed = systemPrompt
    /\ role userMessage = user
    /\ content userMessage = trim (req_message req)
    /\ conversationId userMessage = Some cid
    /\ providerCalls (snd (handle uuid clock chatCompletion chatCompletionStream req w)) = providerCalls w ++ [payload]
    /\ conversations (snd (handle uuid clock chatCompletion chatCompletionStream req w)) !! cid
       = Some {| messages := payload; lastActivity := t |}
    /\ last payload = Some userMessage
    /\ (if default false (req_stream req)
        then exists messageId,
               fst (handle uuid clock chatCompletion chatCompletionStream req w)
               = EventStream
                   (List.map (fun chunk => ChunkEvent chunk messageId cid)
                      (chunks (chatCompletionStream payload))
                    ++ [ErrorEvent "Failed to generate response"])
        else fst (handle uuid clock chatCompletion chatCompletionStream req w)
             = Next {| message := reason; statusCode := None |}).
Proof.
  intros Hvalid Hfail. cbv zeta.
  unfold providerFails, payloadOf in Hfail. unfold handle, post, bind.
  rewrite Hvalid. cbn [negb]. cbv beta iota.
  destruct (recordUserMessage_run req w)
    as (seed & userMessage & t & w1 & Hrun & Hseed & Hprompt & Huser & Hcontent
        & Hcid & Hstored & Hcalls).
  cbv zeta in Hrun, Hcid, Hstored.
  rewrite Hrun in Hfail. simpl in Hfail.
  exists seed, userMessage, t. cbv zeta beta. rewrite !Hrun.
  pose proof (conversationOf_request req w) as Hnamed.
  set (cid := conversationOf uuid req w) in *.
  assert (last (trimConversation (historyFound w cid seed ++ [userMessage]))
          = Some userMessage) as Hlast.
  { apply trimConversation_keeps_last. rewrite Huser. discriminate. }
  destruct (default false (req_stream req)).
  - cbn -[trimConversation historyFound]. rewrite Hfail.
    cbn -[trimConversation historyFound]. rewrite Hcalls.
    repeat split; try assumption. eexists. reflexivity.
  - cbn -[trimConversation historyFound]. rewrite Hfail.
    cbn -[trimConversation historyFound]. rewrite Hcalls.
    repeat split; assumption.
Qed.

End Pipeline.

(** The scenario of the specification: a new conversation [c1], the user
    says "Hi", the provider answers "Hello!"; three turns are stored. *)
Example post_end_to_end :
  let run := Chat.handle sampleUuid sampleClock answering streaming
               (sayHi false) emptyWorld in
  fst run = Chat.Json (js "Hello!") (js "c1") (sampleUuid 2) 4000
  /\ option_map (fun c => List.map (fun m => (role m, content m)) (Chat.messages c))
       (Chat.conversations (snd run) !! js "c1")
     = Some [ (system, js "You are a helpful AI assistant. Be concise, friendly, and informative in your responses. Keep your answers clear and well-structured.");
              (user, js "Hi"); (assistant, js "Hello!") ].
Proof. vm_compute. split; reflexivity. Qed.



Lemma post_failure_appends_no_assistant_turn_witness :
  let cid := Chat.conversationOf sampleUuid (sayHi true) emptyWorld in
  exists seed userMessage t,
    let found := Chat.historyFound emptyWorld cid seed in
    let payload := trimConversation (found ++ [userMessage]) in
    cid = match Chat.req_conversationId (sayHi true) with
          | Some (c :: cs) => c :: cs
          | _ => sampleUuid (Chat.uuidCalls emptyWorld)
          end
    /\ role seed = system
    /\ content seed = systemPrompt
    /\ role userMessage = user
    /\ content userMessage = trim (Chat.req_message (sayHi true))
    /\ conversationId userMessage = Some cid
    /\ Chat.providerCalls
         (snd (Chat.handle sampleUuid sampleClock failing breaking
                 (sayHi true) emptyWorld))
       = Chat.providerCalls emptyWorld ++ [payload]
    /\ Chat.conversations
         (snd (Chat.handle sampleUuid sampleClock failing breaking
                 (sayHi true) emptyWorld)) !! cid
       = Some {| Chat.messages := payload; Chat.lastActivity := t |}
    /\ last payload = Some userMessage
    /\ (if default false (Chat.req_stream (sayHi true))
        then exists messageId,
               fst (Chat.handle sampleUuid sampleClock failing breaking
                      (sayHi true) emptyWorld)
               = Chat.EventStream
                   (List.map (fun chunk => Chat.ChunkEvent chunk messageId cid)
                      (Chat.chunks (breaking payload))
                    ++ [Chat.ErrorEvent "Failed to generate response"])
        else fst (Chat.handle sampleUuid sampleClock failing breaking
                    (sayHi true) emptyWorld)
             = Chat.Next {| Chat.message := "Failed to generate streaming response from AI";
                            Chat.statusCode := None |}).
Proof.
  apply (post_failure_appends_no_assistant_turn sampleUuid sampleClock
           failing breaking (sayHi true) emptyWorld).
  - vm_compute. reflexivity.
  - vm_compute. reflexivity.
Defined.

(** C2 as stated fails in both modes: after a failed request on a new
    conversation the session holds the system turn and the user turn, and
    no assistant turn. *)
Lemma post_failure_counterexample :
  (forall stream : bool,
      option_map (fun c => List.map (fun m => (role m, content m)) (Chat.messages c))
        (Chat.conversations
           (snd (Chat.handle sampleUuid sampleClock failing breaking
                   (sayHi stream) emptyWorld)) !! js "c1")
      = Some [ (system, js "You are a helpful AI assistant. Be concise, friendly, and informative in your responses. Keep your answers clear and well-structured.");
               (user, js "Hi") ])
  /\ fst (Chat.handle sampleUuid sampleClock failing breaking
            (sayHi false) emptyWorld)
     = Chat.Next {| Chat.message := "Failed to generate response from AI";
                    Chat.statusCode := None |}
  /\ fst (Chat.handle sampleUuid sampleClock failing breaking
            (sayHi true) emptyWorld)
     = Chat.EventStream
         [ Chat.ChunkEvent (js "Hel") (sampleUuid 2) (js "c1");
           Chat.ErrorEvent "Failed to generate response" ].
Proof.
  split; [intros [|]; vm_compute; reflexivity|].
  split; vm_compute; reflexivity.
Qed.

(** * Further properties of the code *)

Import Chat OpenAIService.

(** ** What trimming guarantees about its output *)

Lemma Payload_others_bound (l : list Message) :
  Payload l -> (length (List.filter notSystem l) <= KEEP_RECENT_MESSAGES)%nat.
Proof.
  intros [s r Hs Hr Hlen | r Hr Hlen].
  - simpl. apply notSystem_false in Hs. rewrite Hs.
    rewrite (filter_notSystem_all _ Hr). exact Hlen.
  - rewrite (filter_notSystem_all _ Hr). exact Hlen.
Qed.

Lemma Payload_length (l : list Message) :
  Payload l -> (length l <= S KEEP_RECENT_MESSAGES)%nat.
Proof. intros [s r _ _ Hlen | r _ Hlen]; simpl; lia. Qed.

Lemma overBudget_false (l : list Message) :
  overBudget l = false ->
  calculateTotalTokens l <= MAX_TOKENS \/ (length l <= 2)%nat.
Proof.
  unfold overBudget. intros H. apply andb_false_iff in H as [H|H].
  - right. apply Nat.ltb_ge in H. exact H.
  - left. apply Z.ltb_ge in H. exact H.
Qed.

(** X1. The output of trimming is within the token budget or has at most
    two turns, and it has at most 30 non-system turns. An output that
    differs from the input has at most 11 turns, at most 10 of them
    non-system. *)
Theorem trim_output_within_budget (turns : list Message) :
  let out := trimConversation turns in
  (calculateTotalTokens out <= MAX_TOKENS \/ (length out <= 2)%nat)
  /\ (length (List.filter notSystem out) <= MAX_MESSAGES)%nat
  /\ (out <> turns ->
      (length out <= 11)%nat
      /\ (length (List.filter notSystem out) <= KEEP_RECENT_MESSAGES)%nat).
Proof.
  cbv zeta. destruct (withinLimits turns) eqn:Hw.
  - rewrite (trimConversation_within _ Hw).
    apply withinLimits_true in Hw as [Hcount Htokens].
    split; [left; exact Htokens|]. split; [exact Hcount|]. congruence.
  - rewrite (trimConversation_over _ Hw).
    pose proof (Payload_trimLoop _ (window_Payload turns)) as Hp.
    pose proof (Payload_others_bound _ Hp) as Hothers.
    pose proof (Payload_length _ Hp) as Hlen.
    unfold KEEP_RECENT_MESSAGES, MAX_MESSAGES in *.
    split; [apply overBudget_false, trimLoop_exit|].
    split; [lia|]. intros _. split; lia.
Qed.

Lemma removeSecond_sublist (l : list Message) :
  overBudget l = true -> removeSecond l `sublist_of` l.
Proof.
  intros Hg.
  destruct (overBudget_removeSecond _ Hg) as (a & b & c & r & -> & ->).
  apply sublist_skip, sublist_cons. reflexivity.
Qed.

Lemma trimLoop_sublist (l : list Message) : trimLoop l `sublist_of` l.
Proof.
  apply (trimLoop_by_turns (fun l res => res `sublist_of` l)).
  - reflexivity.
  - intros l' res Hg IH. etransitivity; [exact IH|].
    apply removeSecond_sublist, Hg.
Qed.

Lemma List_filter_sublist {A} (f : A -> bool) (l : list A) :
  List.filter f l `sublist_of` l.
Proof.
  induction l as [|x l IH]; simpl; [constructor|].
  destruct (f x); [apply sublist_skip|apply sublist_cons]; exact IH.
Qed.

Lemma sliceLast_sublist {A} (n : nat) (l : list A) :
  sliceLast n l `sublist_of` l.
Proof. apply sublist_drop. Qed.

Lemma pinned_and_others_submseteq (ms : list Message) :
  match List.find isSystem ms with Some s => [s] | None => [] end
  ++ List.filter notSystem ms ⊆+ ms.
Proof.
  induction ms as [|m ms IH]; simpl; [constructor|].
  unfold notSystem at 1. destruct (isSystem m) eqn:Hm; simpl.
  - apply submseteq_skip, sublist_submseteq, List_filter_sublist.
  - destruct (List.find isSystem ms) as [s|]; simpl in *.
    + etransitivity; [|apply submseteq_skip, IH].
      apply Permutation_submseteq, Permutation_swap.
    + apply submseteq_skip, IH.
Qed.

Lemma window_submseteq (ms : list Message) : window ms ⊆+ ms.
Proof.
  etransitivity; [|apply pinned_and_others_submseteq].
  unfold window. apply submseteq_app; [reflexivity|].
  apply sublist_submseteq, sliceLast_sublist.
Qed.

Lemma window_sublist (ms : list Message) :
  List.find isSystem ms = None
  \/ (exists s rest, ms = s :: rest /\ role s = system) ->
  window ms `sublist_of` ms.
Proof.
  intros [Hnone | (s & rest & -> & Hs)]; unfold window.
  - rewrite Hnone. simpl. etransitivity; [apply sliceLast_sublist|].
    apply List_filter_sublist.
  - simpl. apply isSystem_true in Hs as Hs'. rewrite Hs'.
    apply notSystem_false in Hs. rewrite Hs. simpl.
    apply sublist_skip. etransitivity; [apply sliceLast_sublist|].
    apply List_filter_sublist.
Qed.

(** X2. Trimming only removes turns: every turn of the output is a turn of
    the input, and none occurs more often than in the input. When the input
    has no system turn, or starts with one, the output is a subsequence of
    the input, in the order of the input. *)
Theorem trim_only_removes_turns (turns : list Message) :
  trimConversation turns ⊆+ turns
  /\ (List.find isSystem turns = None
      \/ (exists s rest, turns = s :: rest /\ role s = system) ->
      trimConversation turns `sublist_of` turns).
Proof.
  destruct (withinLimits turns) eqn:Hw.
  - rewrite (trimConversation_within _ Hw). split; reflexivity.
  - rewrite (trimConversation_over _ Hw). split.
    + etransitivity; [|apply window_submseteq].
      apply sublist_submseteq, trimLoop_sublist.
    + intros Hshape. etransitivity; [apply trimLoop_sublist|].
      apply window_sublist, Hshape.
Qed.

(** X3. When the input has a system turn, the non-system turns of the
    output are a suffix of the non-system turns of the input: the most
    recent ones, none left out in between. *)
Theorem trim_keeps_most_recent_turns (turns : list Message) :
  (exists s, In s turns /\ role s = system) ->
  List.filter notSystem (trimConversation turns)
    `suffix_of` List.filter notSystem turns.
Proof.
  intros (s0 & Hin & Hrole).
  destruct (withinLimits turns) eqn:Hw.
  - rewrite (trimConversation_within _ Hw). reflexivity.
  - rewrite (trimConversation_over _ Hw). unfold window.
    destruct (List.find isSystem turns) as [s|] eqn:Hfind.
    + apply List.find_some in Hfind as [_ Hs].
      simpl. destruct (trimLoop_keeps_head s
        (sliceLast KEEP_RECENT_MESSAGES (List.filter notSystem turns)))
        as [k ->].
      simpl. apply isSystem_true, notSystem_false in Hs. rewrite Hs.
      rewrite filter_notSystem_all by apply Forall_drop, recent_Forall.
      unfold sliceLast. rewrite drop_drop. apply suffix_drop.
    + apply find_isSystem_none in Hfind.
      rewrite List.Forall_forall in Hfind. destruct (Hfind s0 Hin Hrole).
Qed.

(** X4. The newest turn survives trimming: when the last turn of the input
    is not a system turn, it is the last turn of the output. *)
Theorem trim_keeps_newest_turn (turns : list Message) (m : Message) :
  last turns = Some m ->
  role m <> system ->
  last (trimConversation turns) = Some m.
Proof.
  intros Hlast Hrole.
  destruct turns as [|x l _] using rev_ind; [discriminate|].
  rewrite last_snoc in Hlast. injection Hlast as ->.
  apply trimConversation_keeps_last, Hrole.
Qed.

Example summary_ex :
  option_map content (createConversationSummary 1700000000000 5 (dialogue 1 12 2))
  = Some (js "Previous conversation summary: The user and assistant discussed 2 messages covering various topics. Key context has been preserved for continuity.")
  /\ option_map id (createConversationSummary 1700000000000 5 (dialogue 1 12 2))
  = Some (js "summary-1700000000000")
  /\ decimal 0 = js "0" /\ decimal (-12) = js "-12".
Proof. vm_compute. repeat split. Qed.

(** ** Summaries *)

(** X5. [createConversationSummary] returns [null] exactly when there are
    at most 10 non-system turns, so its second test for [null] never
    decides. A summary is a system turn whose text counts the non-system
    turns that the recency window of the trimmer leaves out, at least one.
    Whenever [needsSummarization] holds, a summary is produced. *)
Theorem summary_counts_turns_outside_window
    (now stamp : Z) (turns : list Message) :
  let others := List.filter notSystem turns in
  (createConversationSummary now stamp turns = None
   <-> (length others <= KEEP_RECENT_MESSAGES)%nat)
  /\ (forall summary,
        createConversationSummary now stamp turns = Some summary ->
        role summary = system
        /\ exists n,
             content summary = summaryContent n
             /\ (0 < n)%nat
             /\ (n + length (sliceLast KEEP_RECENT_MESSAGES others)
                 = length others)%nat)
  /\ (needsSummarization turns = true ->
      createConversationSummary now stamp turns <> None).
Proof.
  cbv zeta. unfold createConversationSummary, needsSummarization.
  set (others := List.filter notSystem turns).
  unfold sliceButLast, sliceLast, KEEP_RECENT_MESSAGES.
  rewrite length_take, length_drop.
  destruct (length others <=? 10)%nat eqn:Hle.
  - apply Nat.leb_le in Hle. split; [tauto|]. split; [discriminate|].
    intros Hneed. apply Nat.ltb_lt in Hneed. lia.
  - apply Nat.leb_gt in Hle.
    assert (((length others - 10) `min` length others =? 0) = false)%nat as ->
      by (apply Nat.eqb_neq; lia).
    split; [split; [discriminate|lia]|]. split; [|discriminate].
    intros summary [= <-]. split; [reflexivity|].
    eexists. split; [reflexivity|]. lia.
Qed.

(** X6. More than 30 non-system turns always mean that
    [needsSummarization] holds; after a trim that changed the sequence it
    does not hold any more; and system turns do not count for it. *)
Theorem trimming_settles_summarization (turns : list Message) :
  ((MAX_MESSAGES < length (List.filter notSystem turns))%nat ->
   needsSummarization turns = true)
  /\ (trimConversation turns <> turns ->
      needsSummarization (trimConversation turns) = false)
  /\ needsSummarization turns
     = needsSummarization (List.filter notSystem turns).
Proof.
  unfold needsSummarization, MAX_MESSAGES. split; [|split].
  - intros H. apply Nat.ltb_lt. lia.
  - intros Hchanged. apply Nat.ltb_ge.
    destruct (withinLimits turns) eqn:Hw.
    + rewrite (trimConversation_within _ Hw) in Hchanged. congruence.
    + rewrite (trimConversation_over _ Hw).
      pose proof (Payload_others_bound _
                    (Payload_trimLoop _ (window_Payload turns))) as H.
      unfold KEEP_RECENT_MESSAGES in H. lia.
  - rewrite (filter_notSystem_all (List.filter notSystem turns))
      by apply filter_notSystem_Forall.
    reflexivity.
Qed.

(** ** The patterns of the validator *)

Lemma test_true (matchHere : jsstring -> bool) (s : jsstring) :
  test matchHere s = true
  <-> exists pre suf, s = pre ++ suf /\ matchHere suf = true.
Proof.
  induction s as [|c s IH]; simpl.
  - rewrite orb_false_r. split.
    + intros H. exists [], []. split; [reflexivity|exact H].
    + intros (pre & suf & Heq & H). symmetry in Heq.
      apply app_eq_nil in Heq as [_ ->]. exact H.
  - rewrite orb_true_iff, IH. split.
    + intros [H | (pre & suf & -> & H)].
      * exists [], (c :: s). split; [reflexivity|exact H].
      * exists (c :: pre), suf. split; [reflexivity|exact H].
    + intros (pre & suf & Heq & H). destruct pre as [|c' pre].
      * left. simpl in Heq. rewrite Heq. exact H.
      * right. injection Heq as -> ->. exists pre, suf. split; [reflexivity|exact H].
Qed.

Lemma charMatchesIgnoreCase_true (p c : N) :
  negb ((65 <=? p) && (p <=? 90))%N = true ->
  charMatchesIgnoreCase p c = true
  <-> c = p \/ ((97 <= p)%N /\ (p <= 122)%N /\ c = (p - 32)%N).
Proof.
  intros Hp. apply negb_true_iff in Hp. unfold charMatchesIgnoreCase.
  rewrite Hp, andb_false_l, orb_false_r, orb_true_iff, !andb_true_iff.
  rewrite !N.eqb_eq, !N.leb_le. tauto.
Qed.

Lemma matchLiteral_Some (lit s rest : jsstring) :
  noCapitals lit = true ->
  matchLiteral lit s = Some rest
  <-> exists v, s = v ++ rest /\ Spells lit v.
Proof.
  unfold Spells. revert s. induction lit as [|p lit IH]; intros s Hlit; simpl.
  - split.
    + intros [= ->]. exists []. split; [reflexivity|constructor].
    + intros (v & -> & Hv). inversion Hv. reflexivity.
  - simpl in Hlit. apply andb_true_iff in Hlit as [Hp Hlit].
    destruct s as [|c s].
    + split; [discriminate|]. intros (v & Heq & Hv).
      inversion Hv; subst. discriminate.
    + pose proof (charMatchesIgnoreCase_true p c Hp) as Hc.
      destruct (charMatchesIgnoreCase p c).
      * rewrite (IH s Hlit). split.
        -- intros (v & -> & Hv). exists (c :: v). split; [reflexivity|].
           constructor; [apply Hc; reflexivity|exact Hv].
        -- intros (v & Heq & Hv). inversion Hv as [|? c' ? v' _ Hv']; subst.
           injection Heq as -> ->. exists v'. split; [reflexivity|exact Hv'].
      * split; [discriminate|]. intros (v & Heq & Hv).
        inversion Hv as [|? c' ? v' Hc' Hv']; subst. injection Heq as -> _.
        apply Hc in Hc'. discriminate.
Qed.

Lemma skipWhile_split (f : N -> bool) (s : jsstring) :
  exists run, s = run ++ skipWhile f s
              /\ Forall (fun c => f c = true) run
              /\ stopsAt f (skipWhile f s).
Proof.
  induction s as [|c s (run & Heq & Hrun & Hstop)]; simpl.
  - exists []. repeat split. constructor.
  - destruct (f c) eqn:Hc.
    + exists (c :: run). split; [simpl; f_equal; exact Heq|].
      split; [constructor; assumption|exact Hstop].
    + exists []. split; [reflexivity|]. split; [constructor|exact Hc].
Qed.

Lemma skipWhile_run (f : N -> bool) (run rest : jsstring) :
  Forall (fun c => f c = true) run -> stopsAt f rest ->
  skipWhile f (run ++ rest) = rest.
Proof.
  intros Hrun Hstop. induction Hrun as [|c run Hc _ IH]; simpl.
  - destruct rest as [|c rest]; [reflexivity|]. simpl in *. rewrite Hstop. reflexivity.
  - rewrite Hc. exact IH.
Qed.

Lemma blank_not_word (c : N) : isWhiteSpace c = true -> isWordChar c = false.
Proof.
  unfold isWhiteSpace, isWordChar.
  rewrite !orb_true_iff, !andb_true_iff, !N.eqb_eq, !N.leb_le.
  intros H.
  apply not_true_iff_false.
  rewrite !orb_true_iff, !andb_true_iff, !N.eqb_eq, !N.leb_le. lia.
Qed.

Lemma matchJavascript_true (s : jsstring) :
  matchJavascript s = true
  <-> exists v post, s = v ++ post /\ Spells (js "javascript:") v.
Proof.
  unfold matchJavascript. split.
  - destruct (matchLiteral (js "javascript:") s) as [rest|] eqn:Hm; [|discriminate].
    intros _. apply matchLiteral_Some in Hm as (v & -> & Hv); [|reflexivity].
    exists v, rest. split; [reflexivity|exact Hv].
  - intros (v & post & -> & Hv).
    assert (matchLiteral (js "javascript:") (v ++ post) = Some post) as ->;
      [|reflexivity].
    apply matchLiteral_Some; [reflexivity|]. exists v. split; [reflexivity|exact Hv].
Qed.

Lemma matchScript_true (s : jsstring) :
  matchScript s = true
  <-> exists v post, s = v ++ post /\ Spells (js "<script") v
                     /\ match post with c :: _ => isWordChar c = false | [] => True end.
Proof.
  unfold matchScript. split.
  - destruct (matchLiteral (js "<script") s) as [rest|] eqn:Hm; [|discriminate].
    apply matchLiteral_Some in Hm as (v & -> & Hv); [|reflexivity].
    intros H. exists v, rest. split; [reflexivity|]. split; [exact Hv|].
    destruct rest as [|c rest]; [exact I|]. apply negb_true_iff, H.
  - intros (v & post & -> & Hv & Hpost).
    assert (matchLiteral (js "<script") (v ++ post) = Some post) as ->.
    { apply matchLiteral_Some; [reflexivity|]. exists v. split; [reflexivity|exact Hv]. }
    destruct post as [|c post]; [reflexivity|]. apply negb_true_iff, Hpost.
Qed.

Lemma startsWith_true (c : N) (s : jsstring) :
  startsWith c s = true <-> exists post, s = c :: post.
Proof.
  destruct s as [|c' s]; simpl.
  - split; [discriminate|]. intros [post H]. discriminate.
  - rewrite N.eqb_eq. split.
    + intros ->. eauto.
    + intros [post [= -> _]]. reflexivity.
Qed.

Lemma matchEval_true (s : jsstring) :
  matchEval s = true
  <-> exists v ws post,
        s = v ++ ws ++ 40%N :: post /\ Spells (js "eval") v /\ Blanks ws.
Proof.
  unfold matchEval. split.
  - destruct (matchLiteral (js "eval") s) as [rest|] eqn:Hm; [|discriminate].
    apply matchLiteral_Some in Hm as (v & -> & Hv); [|reflexivity].
    intros H. apply startsWith_true in H as [post Hpost].
    destruct (skipWhile_split isWhiteSpace rest) as (ws & Hrest & Hws & _).
    exists v, ws, post. rewrite <- Hpost, <- Hrest. repeat split; assumption.
  - intros (v & ws & post & -> & Hv & Hws).
    assert (matchLiteral (js "eval") (v ++ ws ++ 40%N :: post)
            = Some (ws ++ 40%N :: post)) as ->.
    { apply matchLiteral_Some; [reflexivity|]. exists v. split; [reflexivity|exact Hv]. }
    rewrite skipWhile_run; [reflexivity|exact Hws|reflexivity].
Qed.

Lemma matchHandler_true (s : jsstring) :
  matchHandler s = true
  <-> exists v w ws post,
        s = v ++ w ++ ws ++ 61%N :: post /\ Spells (js "on") v
        /\ w <> [] /\ WordChars w /\ Blanks ws.
Proof.
  unfold matchHandler. split.
  - destruct (matchLiteral (js "on") s) as [rest|] eqn:Hm; [|discriminate].
    apply matchLiteral_Some in Hm as (v & -> & Hv); [|reflexivity].
    destruct rest as [|c rest]; [discriminate|].
    intros H. apply andb_true_iff in H as [Hc H].
    apply startsWith_true in H as [post Hpost].
    destruct (skipWhile_split isWordChar rest) as (w & Hrest & Hw & _).
    destruct (skipWhile_split isWhiteSpace (skipWhile isWordChar rest))
      as (ws & Hrest' & Hws & _).
    exists v, (c :: w), ws, post.
    split. { simpl. rewrite <- Hpost, <- Hrest', <- Hrest. reflexivity. }
    split; [exact Hv|]. split; [discriminate|].
    split; [constructor; assumption|exact Hws].
  - intros (v & w & ws & post & -> & Hv & Hne & Hw & Hws).
    assert (matchLiteral (js "on") (v ++ w ++ ws ++ 61%N :: post)
            = Some (w ++ ws ++ 61%N :: post)) as ->.
    { apply matchLiteral_Some; [reflexivity|]. exists v. split; [reflexivity|exact Hv]. }
    destruct w as [|c w]; [congruence|]. inversion Hw as [|? ? Hc Hw']; subst.
    simpl. rewrite Hc. simpl.
    rewrite (skipWhile_run isWordChar w (ws ++ 61%N :: post)); [|exact Hw'|].
    + rewrite skipWhile_run; [reflexivity|exact Hws|reflexivity].
    + destruct Hws as [|b ws Hb _]; [reflexivity|]. simpl. apply blank_not_word, Hb.
Qed.

Lemma test_patterns (content : jsstring) :
  existsb (fun pattern => test pattern content) maliciousPatterns = true
  <-> HasJavascriptUri content \/ HasScriptTag content
      \/ HasEventHandler content \/ HasEvalCall content.
Proof.
  unfold maliciousPatterns. simpl. rewrite orb_false_r, !orb_true_iff, !test_true.
  unfold HasJavascriptUri, HasScriptTag, HasEventHandler, HasEvalCall.
  setoid_rewrite matchJavascript_true. setoid_rewrite matchScript_true.
  setoid_rewrite matchHandler_true. setoid_rewrite matchEval_true.
  split.
  - intros [(pre & suf & -> & v & post & -> & H)
           |[(pre & suf & -> & v & post & -> & H)
            |[(pre & suf & -> & v & w & ws & post & -> & H)
             |(pre & suf & -> & v & ws & post & -> & H)]]]; eauto 10.
  - intros [(pre & v & post & -> & H)
           |[(pre & v & post & -> & H)
            |[(pre & v & w & ws & post & -> & H)
             |(pre & v & ws & post & -> & H)]]]; eauto 12.
Qed.

Lemma validateMessage_cases (content : jsstring) :
  validateMessage content =
  if decide (content = []) then
    {| valid := false;
       error := Some "Message content must be a non-empty string"%string |}
  else if decide (trim content = []) then
    {| valid := false; error := Some "Message cannot be empty"%string |}
  else if (10000 <? Z.of_nat (length content)) then
    {| valid := false; error := Some tooLong |}
  else if existsb (fun pattern => test pattern content) maliciousPatterns then
    {| valid := false; error := Some unsafe |}
  else {| valid := true; error := None |}.
Proof.
  unfold validateMessage.
  destruct (decide (content = [])) as [->|Hne]; [reflexivity|].
  assert ((Z.of_nat (length content) =? 0) = false) as ->.
  { apply Z.eqb_neq. destruct content; [congruence|simpl; lia]. }
  destruct (decide (trim content = [])) as [->|Hne']; [reflexivity|].
  assert ((Z.of_nat (length (trim content)) =? 0) = false) as ->.
  { apply Z.eqb_neq. destruct (trim content); [congruence|simpl; lia]. }
  reflexivity.
Qed.

(** X7. [validateMessage] accepts a text exactly when the text is not
    blank, has at most 10000 code units and contains none of the four
    unsafe patterns, letters in either case: [javascript:]; [<script] before
    a non-word character or the end; [on], word characters, optional blanks
    and [=]; [eval], optional blanks and an opening parenthesis. A result is
    valid exactly when it carries no error. *)
Theorem validateMessage_accepts_iff (content : jsstring) :
  (valid (validateMessage content) = true
   <-> trim content <> []
       /\ Z.of_nat (length content) <= 10000
       /\ ~ HasJavascriptUri content /\ ~ HasScriptTag content
       /\ ~ HasEventHandler content /\ ~ HasEvalCall content)
  /\ (valid (validateMessage content) = true
      <-> error (validateMessage content) = None).
Proof.
  rewrite validateMessage_cases.
  pose proof (test_patterns content) as Hpat.
  destruct (decide (content = [])) as [->|Hne].
  { simpl. split; split; try discriminate. intros [H _]. destruct H. reflexivity. }
  destruct (decide (trim content = [])) as [Hblank|Hne'].
  { simpl. split; split; try discriminate. intros [H _]. contradiction. }
  destruct (10000 <? Z.of_nat (length content)) eqn:Hlen.
  { apply Z.ltb_lt in Hlen. simpl. split; split; try discriminate. lia. }
  apply Z.ltb_ge in Hlen.
  destruct (existsb _ maliciousPatterns).
  - simpl. split; split; try discriminate.
    intros (_ & _ & H1 & H2 & H3 & H4).
    destruct Hpat as [Hpat _]. destruct (Hpat eq_refl) as [?|[?|[?|?]]]; contradiction.
  - simpl. split; split; try reflexivity. intros _.
    assert (~ (HasJavascriptUri content \/ HasScriptTag content
               \/ HasEventHandler content \/ HasEvalCall content)) as Hnone.
    { intros H. apply Hpat in H. discriminate. }
    tauto.
Qed.

(** X8. The error "potentially unsafe content" is reported exactly for a
    text that is not blank, has at most 10000 code units and contains one
    of the four unsafe patterns. *)
Theorem validateMessage_unsafe_iff (content : jsstring) :
  error (validateMessage content) = Some unsafe
  <-> trim content <> []
      /\ Z.of_nat (length content) <= 10000
      /\ (HasJavascriptUri content \/ HasScriptTag content
          \/ HasEventHandler content \/ HasEvalCall content).
Proof.
  rewrite validateMessage_cases.
  pose proof (test_patterns content) as Hpat.
  destruct (decide (content = [])) as [->|Hne].
  { simpl. split; [discriminate|]. intros [H _]. destruct H. reflexivity. }
  destruct (decide (trim content = [])) as [Hblank|Hne'].
  { simpl. split; [discriminate|]. intros [H _]. contradiction. }
  destruct (10000 <? Z.of_nat (length content)) eqn:Hlen.
  { apply Z.ltb_lt in Hlen. simpl. split; [discriminate|]. lia. }
  apply Z.ltb_ge in Hlen.
  destruct (existsb _ maliciousPatterns); simpl.
  - split; [|reflexivity]. intros _. split; [exact Hne'|]. split; [exact Hlen|].
    apply Hpat. reflexivity.
  - split; [discriminate|]. intros (_ & _ & H). apply Hpat in H. discriminate.
Qed.

Section Requests.

Variable uuid : nat -> jsstring.
Variable clock : nat -> Z.
Variable chatCompletion : list Message -> Chat.Completion.
Variable chatCompletionStream : list Message -> Chat.StreamRun.

Import Chat.

Lemma currentConversationId_counters (req : ChatRequest) (w : World) :
  (uuidCalls w <= uuidCalls (snd (currentConversationId uuid req w)))%nat
  /\ dateCalls (snd (currentConversationId uuid req w)) = dateCalls w.
Proof.
  unfold currentConversationId.
  destruct (req_conversationId req) as [[|c cs]|]; simpl; lia.
Qed.

(** Lines 41 to 69 in full. *)
Lemma recordUserMessage_effect (req : ChatRequest) (w : World) :
  exists seed userMessage w',
    let cid := conversationOf uuid req w in
    let payload := trimConversation (historyFound w cid seed ++ [userMessage]) in
    recordUserMessage uuid clock req w = (cid, payload, w')
    /\ role seed = system /\ content seed = systemPrompt
    /\ role userMessage = user
    /\ content userMessage = trim (req_message req)
    /\ conversations w'
       = <[cid := {| messages := payload;
                     lastActivity := clock (pred (dateCalls w')) |}]>
           (conversations w)
    /\ providerCalls w' = providerCalls w
    /\ (uuidCalls w < uuidCalls w')%nat
    /\ (dateCalls w < dateCalls w')%nat.
Proof.
  unfold recordUserMessage, bind, conversationOf.
  destruct (currentConversationId_frame uuid req w) as [Hconv Hcalls].
  destruct (currentConversationId_counters req w) as [Huuid Hdate].
  destruct (currentConversationId uuid req w) as [cid w1].
  simpl in Hconv, Hcalls, Huuid, Hdate. simpl fst.
  exists (fst (addSystemMessage uuid clock w1)).
  unfold historyFound, conversations_get. rewrite <- Hconv, <- Hcalls.
  destruct (conversations w1 !! cid) as [c|]; cbn.
  - do 2 eexists. split; [reflexivity|].
    repeat split; cbn; try lia.
  - do 2 eexists. split; [reflexivity|].
    repeat split; cbn; try lia. apply insert_insert_eq.
Qed.


(** The handler in full, for a message that passes validation. *)
Lemma handle_effect (req : ChatRequest) (w : World) :
  valid (validateMessage (req_message req)) = true ->
  exists seed userMessage final,
    let cid := conversationOf uuid req w in
    let payload := trimConversation (historyFound w cid seed ++ [userMessage]) in
    let run := handle uuid clock chatCompletion chatCompletionStream req w in
    role seed = system /\ content seed = systemPrompt
    /\ role userMessage = user
    /\ content userMessage = trim (req_message req)
    /\ conversations (snd run) = <[cid := final]> (conversations w)
    /\ lastActivity final = clock (pred (dateCalls (snd run)))
    /\ providerCalls (snd run) = providerCalls w ++ [payload]
    /\ (uuidCalls w < uuidCalls (snd run))%nat
    /\ (dateCalls w < dateCalls (snd run))%nat
    /\ (if default false (req_stream req) then
          exists messageId,
            let cs := chunks (chatCompletionStream payload) in
            match thrown (chatCompletionStream payload) with
            | None =>
                exists stamp,
                  messages final
                  = payload ++ [{| id := messageId; role := assistant;
                                   content := concat cs; timestamp := stamp;
                                   conversationId := Some cid |}]
                  /\ fst run
                     = EventStream
                         (chunkEvents messageId cid cs
                          ++ [DoneEvent messageId cid (concat cs)])
            | Some _ =>
                messages final = payload
                /\ fst run
                   = EventStream
                       (chunkEvents messageId cid cs
                        ++ [ErrorEvent "Failed to generate response"])
            end
        else
          match chatCompletion payload with
          | Resolved response =>
              exists messageId stamp,
                messages final
                = payload ++ [{| id := messageId; role := assistant;
                                 content := response; timestamp := stamp;
                                 conversationId := Some cid |}]
                /\ fst run = Json response cid messageId stamp
          | Rejected reason =>
              messages final = payload
              /\ fst run = Next {| message := reason; statusCode := None |}
          end).
Proof.
  intros Hvalid. unfold handle, post, bind.
  rewrite Hvalid. cbn [negb]. cbv beta iota.
  destruct (recordUserMessage_effect req w)
    as (seed & userMessage & w1 & Hrun & Hseed & Hprompt & Huser & Hcontent
        & Hconv & Hcalls & Huuid & Hdate).
  cbv zeta in Hrun. exists seed, userMessage. cbv zeta beta. rewrite !Hrun.
  set (cid := conversationOf uuid req w) in *.
  set (payload := trimConversation (historyFound w cid seed ++ [userMessage])) in *.
  destruct (default false (req_stream req)).
  - cbn -[trimConversation historyFound].
    destruct (thrown (chatCompletionStream payload)) eqn:Hthrown;
      cbn -[trimConversation historyFound]; rewrite Hcalls.
    + eexists. repeat split; try assumption; try lia.
      * exact Hconv.
      * reflexivity.
      * eexists. split; reflexivity.
    + eexists. repeat split; try assumption; try lia.
      * rewrite Hconv. apply insert_insert_eq.
      * reflexivity.
      * do 2 eexists. split; reflexivity.
  - cbn -[trimConversation historyFound].
    destruct (chatCompletion payload) as [response|reason];
      cbn -[trimConversation historyFound]; rewrite Hcalls.
    + eexists. repeat split; try assumption; try lia.
      * rewrite Hconv. apply insert_insert_eq.
      * reflexivity.
      * do 2 eexists. split; reflexivity.
    + eexists. repeat split; try assumption; try lia.
      * exact Hconv.
      * reflexivity.
      * reflexivity.
Qed.


Lemma invalid_request_has_no_effect_aux (req : ChatRequest) (w : World) :
  valid (validateMessage (req_message req)) = false ->
  exists reason,
    error (validateMessage (req_message req)) = Some reason
    /\ handle uuid clock chatCompletion chatCompletionStream req w
       = (Next {| message := reason; statusCode := Some 400 |}, w).
Proof.
  intros Hinvalid. unfold handle, post. rewrite Hinvalid. cbn [negb].
  rewrite validateMessage_cases in *.
  repeat match goal with
         | |- context [if ?b then _ else _] => destruct b
         end; try discriminate Hinvalid; eexists; split; reflexivity.
Qed.

(** X10. A request whose message fails validation changes nothing: it is
    answered through [next] with status 400 and the error text of the
    validator, and the session map, the counters and the calls of the
    provider are as before. *)
Theorem invalid_request_has_no_effect (req : ChatRequest) (w : World) :
  valid (validateMessage (req_message req)) = false ->
  exists reason,
    error (validateMessage (req_message req)) = Some reason
    /\ handle uuid clock chatCompletion chatCompletionStream req w
       = (Next {| message := reason; statusCode := Some 400 |}, w).
Proof.
  apply invalid_request_has_no_effect_aux.
Qed.

(** X11. A request touches one conversation only: every other entry of
    the session map is as before, no entry disappears, and after a request
    with a valid message the conversation exists. The conversation is the
    one named in the request, or a newly minted identifier when the request
    names none or the empty string. *)
Theorem request_touches_one_conversation (req : ChatRequest) (w : World) :
  let w' := snd (handle uuid clock chatCompletion chatCompletionStream req w) in
  (forall k, k <> conversationOf uuid req w ->
             conversations w' !! k = conversations w !! k)
  /\ (forall k, is_Some (conversations w !! k) ->
                is_Some (conversations w' !! k))
  /\ (valid (validateMessage (req_message req)) = true ->
      is_Some (conversations w' !! conversationOf uuid req w))
  /\ conversationOf uuid req w
     = match req_conversationId req with
       | Some (c :: cs) => c :: cs
       | _ => uuid (uuidCalls w)
       end.
Proof.
  cbv zeta.
  assert (conversationOf uuid req w
          = match req_conversationId req with
            | Some (c :: cs) => c :: cs
            | _ => uuid (uuidCalls w)
            end) as Hcid.
  { unfold conversationOf, currentConversationId.
    destruct (req_conversationId req) as [[|c cs]|]; reflexivity. }
  destruct (valid (validateMessage (req_message req))) eqn:Hvalid.
  - destruct (handle_effect req w Hvalid)
      as (seed & userMessage & final & _ & _ & _ & _ & Hconv & _).
    cbv zeta in Hconv. rewrite Hconv.
    split; [intros k Hk; apply lookup_insert_ne; congruence|].
    split; [|split; [intros _; rewrite lookup_insert_eq; eauto|exact Hcid]].
    intros k Hsome. destruct (decide (conversationOf uuid req w = k)) as [<-|Hne].
    + rewrite lookup_insert_eq. eauto.
    + rewrite lookup_insert_ne by exact Hne. exact Hsome.
  - destruct (invalid_request_has_no_effect_aux req w Hvalid) as (reason & _ & Hrun).
    rewrite Hrun. simpl. split; [reflexivity|]. split; [tauto|].
    split; [discriminate|exact Hcid].
Qed.

End Requests.

(** ** Invariants of the session map *)

Lemma trimConversation_seeded (s u : Message) (others : list Message) :
  role s = system ->
  Forall (fun m => role m <> system) others ->
  role u <> system ->
  exists rest,
    trimConversation (s :: others ++ [u]) = s :: rest ++ [u]
    /\ Forall (fun m => role m <> system) rest
    /\ (length rest <= 29)%nat
    /\ (calculateTotalTokens (s :: rest ++ [u]) <= MAX_TOKENS \/ rest = []).
Proof.
  intros Hs Hothers Hu.
  assert (List.find isSystem (s :: others ++ [u]) = Some s) as Hfind.
  { simpl. apply isSystem_true in Hs. rewrite Hs. reflexivity. }
  destruct (withinLimits (s :: others ++ [u])) eqn:Hw.
  - rewrite (trimConversation_within _ Hw). exists others.
    apply withinLimits_true in Hw as [Hcount Htokens].
    simpl in Hcount. apply notSystem_false in Hs. rewrite Hs in Hcount.
    rewrite filter_notSystem_all in Hcount
      by (apply Forall_app; split; [exact Hothers|repeat constructor; exact Hu]).
    rewrite length_app in Hcount. simpl in Hcount. unfold MAX_MESSAGES in Hcount.
    repeat split; [exact Hothers|lia|left; exact Htokens].
  - destruct (trimConversation_over_pinned _ _ Hfind Hw) as (rest0 & Hout & Hrest0).
    pose proof (trimConversation_keeps_last (s :: others) u Hu) as Hlast.
    simpl app in Hlast. rewrite Hout in Hlast.
    destruct rest0 as [|x rest _] using rev_ind.
    { simpl in Hlast. injection Hlast as ->. contradiction. }
    rewrite app_comm_cons, last_snoc in Hlast. injection Hlast as ->.
    exists rest. split; [exact Hout|].
    apply Forall_app in Hrest0 as [Hrest _]. split; [exact Hrest|].
    pose proof (trimLoop_exit (window (s :: others ++ [u]))) as Hexit.
    pose proof (Payload_length _ (Payload_trimLoop _ (window_Payload (s :: others ++ [u])))) as Hlen.
    rewrite <- (trimConversation_over _ Hw), Hout in Hexit, Hlen.
    simpl in Hlen. rewrite length_app in Hlen. simpl in Hlen.
    unfold KEEP_RECENT_MESSAGES in Hlen. split; [lia|].
    apply overBudget_false in Hexit as [Htokens|Htwo]; [left; exact Htokens|].
    right. simpl in Htwo. rewrite length_app in Htwo. simpl in Htwo.
    destruct rest; [reflexivity|simpl in Htwo; lia].
Qed.

(** A valid request on a well-formed store, in full. *)
Lemma handle_on_seeded uuid clock chatCompletion chatCompletionStream
    (req : Chat.ChatRequest) (w : Chat.World) :
  StoreOk w ->
  valid (validateMessage (Chat.req_message req)) = true ->
  let run := Chat.handle uuid clock chatCompletion chatCompletionStream req w in
  let cid := conversationOf uuid req w in
  exists s kept u answer final,
    Chat.conversations (snd run) = <[cid := final]> (Chat.conversations w)
    /\ Chat.providerCalls (snd run)
       = Chat.providerCalls w ++ [s :: kept ++ [u]]
    /\ Chat.messages final = s :: kept ++ [u] ++ answer
    /\ Chat.lastActivity final = clock (pred (Chat.dateCalls (snd run)))
    /\ role s = system /\ content s = systemPrompt
    /\ Forall (fun m => role m <> system) kept
    /\ (length kept <= 29)%nat
    /\ role u = user /\ content u = trim (Chat.req_message req)
    /\ (calculateTotalTokens (s :: kept ++ [u]) <= MAX_TOKENS \/ kept = [])
    /\ (answer = [] \/ exists a, answer = [a] /\ role a = assistant).
Proof.
  intros [Hstore Hcalls] Hvalid. cbv zeta.
  destruct (handle_effect uuid clock chatCompletion chatCompletionStream req w Hvalid)
    as (seed & userMessage & final & Hseed & Hprompt & Huser & Hcontent & Hconv
        & Hlast & Hprov & _ & _ & Hfinal).
  cbv zeta in *.
  set (cid := conversationOf uuid req w) in *.
  assert (Seeded (Chat.historyFound w cid seed))
    as (s & rest & Hfound & Hs & Hsp & Hrest & _).
  { unfold Chat.historyFound.
    destruct (Chat.conversations w !! cid) as [c|] eqn:Hc.
    - eapply Hstore, Hc.
    - exists seed, []. repeat split; [assumption..|constructor|simpl; lia]. }
  assert (role userMessage <> system) as Hu by (rewrite Huser; discriminate).
  rewrite Hfound in *. simpl app in *.
  destruct (trimConversation_seeded s userMessage rest Hs Hrest Hu)
    as (kept & Hout & Hkept & Hlen & Hbudget).
  rewrite Hout in *.
  assert (exists answer,
             Chat.messages final = s :: kept ++ [userMessage] ++ answer
             /\ (answer = [] \/ exists a, answer = [a] /\ role a = assistant))
    as (answer & Hmessages & Hanswer).
  { destruct (default false (Chat.req_stream req)).
    - destruct Hfinal as [messageId Hfinal].
      destruct (Chat.thrown _).
      + exists []. rewrite app_nil_r. split; [apply Hfinal|left; reflexivity].
      + destruct Hfinal as (stamp & -> & _). eexists.
        split; [simpl; rewrite <- app_assoc; reflexivity|].
        right. eexists. split; reflexivity.
    - destruct (chatCompletion _).
      + destruct Hfinal as (messageId & stamp & -> & _). eexists.
        split; [simpl; rewrite <- app_assoc; reflexivity|].
        right. eexists. split; reflexivity.
      + exists []. rewrite app_nil_r. split; [apply Hfinal|left; reflexivity]. }
  exists s, kept, userMessage, answer, final. repeat split; assumption.
Qed.

Lemma handle_keeps_StoreOk uuid clock chatCompletion chatCompletionStream
    (req : Chat.ChatRequest) (w : Chat.World) :
  StoreOk w ->
  StoreOk (snd (Chat.handle uuid clock chatCompletion chatCompletionStream req w)).
Proof.
  intros Hok.
  destruct (valid (validateMessage (Chat.req_message req))) eqn:Hvalid.
  2:{ destruct (invalid_request_has_no_effect_aux uuid clock chatCompletion
                  chatCompletionStream req w Hvalid) as (reason & _ & ->).
      exact Hok. }
  destruct (handle_on_seeded uuid clock chatCompletion chatCompletionStream
              req w Hok Hvalid)
    as (s & kept & u & answer & final & Hconv & Hprov & Hmessages & _ & Hs & Hsp
        & Hkept & Hlen & Hu & _ & Hbudget & Hanswer).
  destruct Hok as [Hstore Hcalls]. split.
  - intros k c. rewrite Hconv.
    destruct (decide (conversationOf uuid req w = k)) as [<-|Hne].
    + rewrite lookup_insert_eq. intros [= <-]. rewrite Hmessages.
      exists s, (kept ++ [u] ++ answer). repeat split; try assumption.
      * repeat (apply Forall_app; split); [exact Hkept|..].
        -- repeat constructor. rewrite Hu. discriminate.
        -- destruct Hanswer as [->|(a & -> & Ha)]; repeat constructor.
           rewrite Ha. discriminate.
      * rewrite !length_app. simpl.
        destruct Hanswer as [->|(a & -> & Ha)]; simpl; lia.
    + rewrite lookup_insert_ne by exact Hne. apply Hstore.
  - rewrite Hprov. apply Forall_app. split; [exact Hcalls|].
    repeat constructor. exists s, kept, u. repeat split; assumption.
Qed.

Lemma reachable_sessions_are_seeded_aux (w : Chat.World) :
  Reachable w -> StoreOk w.
Proof.
  induction 1 as [uuids dates
                 |uuid clock chatCompletion chatCompletionStream req w _ IH
                 |i w _ [Hstore Hcalls]|now w _ [Hstore Hcalls]].
  - split; [|constructor]. intros k c. simpl. rewrite lookup_empty. discriminate.
  - apply handle_keeps_StoreOk, IH.
  - unfold deleteConversation. split.
    + intros k c Hk. apply (Hstore k c).
      destruct (bool_decide _); simpl in Hk;
        apply lookup_delete_Some in Hk as [_ Hk]; exact Hk.
    + destruct (bool_decide _); exact Hcalls.
  - split; [|exact Hcalls]. intros k c. simpl. rewrite sweep_lookup.
    destruct (Chat.conversations w !! k) as [c'|] eqn:Hk; [|discriminate].
    destruct (shouldCleanupConversation _ _); [discriminate|].
    intros [= <-]. eapply Hstore, Hk.
Qed.

(** ** Handlers that overlap *)

Lemma PromptFirst_snoc (history : list Message) (m : Message) :
  PromptFirst history -> role m <> system -> PromptFirst (history ++ [m]).
Proof.
  intros (s & rest & -> & Hs & Hp & Hrest) Hm.
  exists s, (rest ++ [m]). repeat split; try assumption.
  apply Forall_app. split; [exact Hrest|repeat constructor; exact Hm].
Qed.

Lemma Prompted_PromptFirst (payload : list Message) :
  Prompted payload -> PromptFirst payload.
Proof.
  intros (s & rest & u & -> & Hs & Hp & Hrest & Hu & _).
  exists s, (rest ++ [u]). repeat split; try assumption.
  apply Forall_app. split; [exact Hrest|].
  repeat constructor. rewrite Hu. discriminate.
Qed.

(** Trimming a history with a new user turn gives a payload. *)
Lemma trimConversation_Prompted (history : list Message) (u : Message) :
  PromptFirst history -> role u = user ->
  Prompted (trimConversation (history ++ [u])).
Proof.
  intros (s & rest & -> & Hs & Hp & Hrest) Hu.
  assert (role u <> system) as Hu' by (rewrite Hu; discriminate).
  destruct (trimConversation_seeded s u rest Hs Hrest Hu')
    as (kept & Hout & Hkept & Hlen & Hbudget).
  simpl app. rewrite Hout. exists s, kept, u. repeat split; assumption.
Qed.

Lemma lookup_alter_same {A} (f : A -> A) (l : list A) (i : nat) :
  alter f i l !! i = f <$> l !! i.
Proof. rewrite list_lookup_alter. destruct (decide (i = i)); congruence. Qed.

Section Overlap.

Variable uuid : nat -> jsstring.
Variable clock : nat -> Z.

Import Server.

Lemma HeapOk_counters (st st' : State) :
  arrays st' = arrays st -> objects st' = objects st ->
  conversations st' = conversations st -> suspended st' = suspended st ->
  providerCalls st' = providerCalls st ->
  HeapOk st -> HeapOk st'.
Proof.
  intros Ha Ho Hc Hs Hp [? ? ? ? ?].
  split; rewrite ?Ha, ?Ho, ?Hc, ?Hs, ?Hp; assumption.
Qed.

Lemma after_bind {A B} (m : M A) (k : A -> M B) (st : State)
    (Q : B -> State -> Prop) :
  after m st (fun a st' => after (k a) st' Q) -> after (bind m k) st Q.
Proof. unfold after, bind. destruct (m st). intros H. exact H. Qed.

Lemma after_consequence {A} (m : M A) (st : State)
    (P Q : A -> State -> Prop) :
  after m st P -> (forall a st', P a st' -> Q a st') -> after m st Q.
Proof. unfold after. intros H HPQ. apply HPQ, H. Qed.

(** Lines 43 to 48: the conversation is found, or seeded. *)
Lemma open_keeps_HeapOk (cid : jsstring) (st : State) :
  HeapOk st ->
  after (openConversation uuid clock cid) st
    (fun o st' => HeapOk st' /\ (o < length (objects st'))%nat).
Proof.
  intros Hok. unfold after, openConversation, bind, conversations_get.
  destruct (conversations st !! cid) as [o|] eqn:Hcid.
  - simpl. split; [exact Hok|]. eapply (conversations_ok st Hok), Hcid.
  - destruct Hok as [Harrays Hobjects Hconv Hsusp Hcalls].
    cbn. split; [split; cbn|].
    + apply Forall_app. split; [exact Harrays|]. repeat constructor.
      eexists _, []. repeat split. constructor.
    + rewrite length_app. cbn. apply Forall_app. split.
      * eapply Forall_impl; [exact Hobjects|]. cbn. intros; lia.
      * repeat constructor. cbn. lia.
    + rewrite length_app. cbn. apply map_Forall_insert_2; [lia|].
      eapply map_Forall_impl; [exact Hconv|]. cbn. intros; lia.
    + rewrite !length_app. cbn.
      eapply Forall_impl; [exact Hsusp|]. cbn. intros; lia.
    + exact Hcalls.
    + rewrite length_app. cbn. lia.
Qed.

Lemma begin_keeps_HeapOk (req : Chat.ChatRequest) (st : State) :
  HeapOk st -> HeapOk (snd (begin uuid clock req st)).
Proof.
  intros Hok. change (after (begin uuid clock req) st (fun _ st' => HeapOk st')).
  unfold begin.
  destruct (valid (validateMessage (Chat.req_message req))); [|exact Hok].
  cbn [negb]. apply after_bind.
  apply (after_consequence _ _ (fun _ st' => HeapOk st')).
  { unfold currentConversationId.
    destruct (Chat.req_conversationId req) as [[|c cs]|]; try exact Hok;
      (eapply HeapOk_counters; [..|exact Hok]; reflexivity). }
  clear st Hok. intros cid st Hok.
  apply after_bind.
  apply (after_consequence _ _ _ _ (open_keeps_HeapOk cid st Hok)).
  clear st Hok. intros o st [Hok Ho].
  destruct Hok as [Harrays Hobjects Hconv Hsusp Hcalls].
  destruct (lookup_lt_is_Some_2 _ _ Ho) as [c Hc].
  pose proof (proj1 (Forall_lookup _ _) Hobjects _ _ Hc) as Hmessages.
  cbn beta in Hmessages.
  destruct (lookup_lt_is_Some_2 _ _ Hmessages) as [history Hhistory].
  pose proof (proj1 (Forall_lookup _ _) Harrays _ _ Hhistory) as Hprompt.
  assert (default 0%nat (messages <$> objects st !! o) = messages c) as Hget
    by (rewrite Hc; reflexivity).
  unfold after, recordUserMessage, bind, getMessages, uuidv4, newDate, push,
    trimConversation, elements, setMessages, setLastActivity,
    conversations_set, callProvider, suspend, withArrays, withObjects,
    newArray, bind, ret.
  cbn. rewrite Hget.
  set (u := {| id := uuid (uuidCalls st); role := user;
               content := trim (Chat.req_message req);
               timestamp := clock (dateCalls st);
               conversationId := Some cid |}).
  rewrite !lookup_alter_same, Hhistory. cbn [fmap option_fmap option_map default].
  pose proof (trimConversation_Prompted history u Hprompt eq_refl) as Hpayload.
  assert (Forall PromptFirst
            (alter (fun l => l ++ [u]) (messages c) (arrays st))) as Harrays'.
  { apply Forall_alter; [exact Harrays|]. intros x _ Hx.
    apply PromptFirst_snoc; [exact Hx|discriminate]. }
  unfold Datatypes.id.
  assert (forall a (o' : option jsstring),
             (if withinLimits (history ++ [u])
              then a = messages c
              else a = length (arrays st)) ->
             HeapOk
               {| arrays :=
                    (if withinLimits (history ++ [u])
                     then alter (fun l => l ++ [u]) (messages c) (arrays st)
                     else alter (fun l => l ++ [u]) (messages c) (arrays st)
                          ++ [ContextManager.trimConversation (history ++ [u])]);
                  objects :=
                    alter (fun c0 => {| messages := messages c0;
                                        lastActivity := clock (S (dateCalls st)) |})
                      o
                      (alter (fun c0 => {| messages := a;
                                           lastActivity := lastActivity c0 |})
                         o (objects st));
                  conversations := <[cid := o]> (conversations st);
                  suspended :=
                    suspended st
                    ++ [{| h_currentConversationId := cid;
                           h_conversationData := o;
                           h_conversationMessages := a;
                           h_assistantMessageId := o' |}];
                  uuidCalls := 0; dateCalls := 0;
                  providerCalls :=
                    providerCalls st
                    ++ [ContextManager.trimConversation (history ++ [u])] |})
    as Hgoal.
  { intros a o' Ha.
    assert (length (arrays st)
            <= length (if withinLimits (history ++ [u])
                       then alter (fun l => l ++ [u]) (messages c) (arrays st)
                       else alter (fun l => l ++ [u]) (messages c) (arrays st)
                            ++ [ContextManager.trimConversation (history ++ [u])])
            /\ a < length (if withinLimits (history ++ [u])
                       then alter (fun l => l ++ [u]) (messages c) (arrays st)
                       else alter (fun l => l ++ [u]) (messages c) (arrays st)
                            ++ [ContextManager.trimConversation (history ++ [u])]))%nat
      as [Hgrow Hlt].
    { destruct (withinLimits (history ++ [u])); subst a;
        rewrite ?length_app, !length_alter; cbn; lia. }
    split; cbn.
    - destruct (withinLimits (history ++ [u])); [exact Harrays'|].
      apply Forall_app. split; [exact Harrays'|].
      repeat constructor. apply Prompted_PromptFirst, Hpayload.
    - apply Forall_alter; [apply Forall_alter|].
      + eapply Forall_impl; [exact Hobjects|]. cbn. intros; lia.
      + intros x _ _. cbn. exact Hlt.
      + intros x _ Hx. exact Hx.
    - rewrite !length_alter. apply map_Forall_insert_2; [exact Ho|exact Hconv].
    - rewrite !length_alter. apply Forall_app. split.
      + eapply Forall_impl; [exact Hsusp|]. cbn. intros; lia.
      + repeat constructor; cbn; [exact Ho|exact Hlt].
    - apply Forall_app. split; [exact Hcalls|].
      repeat constructor. exact Hpayload. }
  destruct (withinLimits (history ++ [u])) eqn:Hwithin.
  - destruct (Chat.req_stream req) as [[|]|]; cbn;
      rewrite lookup_alter_same, Hhistory; cbn;
      (eapply HeapOk_counters; [..|eapply Hgoal; reflexivity]); cbn;
      try rewrite (trimConversation_within _ Hwithin); reflexivity.
  - destruct (Chat.req_stream req) as [[|]|]; cbn;
      rewrite (list_lookup_middle _ [] _ _ eq_refl), length_alter; cbn;
      (eapply HeapOk_counters; [..|eapply Hgoal; reflexivity]); reflexivity.
Qed.

Lemma finish_keeps_HeapOk (h : Suspended) (response : jsstring) (st : State) :
  HeapOk st ->
  (h_conversationData h < length (objects st))%nat ->
  (h_conversationMessages h < length (arrays st))%nat ->
  HeapOk (snd (finish uuid clock h response st)).
Proof.
  intros [Harrays Hobjects Hconv Hsusp Hcalls] Ho Ha.
  unfold finish, bind, uuidv4, newDate, push, setMessages, setLastActivity,
    conversations_set, withArrays, withObjects, ret.
  destruct (h_assistantMessageId h); cbn; (split; cbn; rewrite ?length_alter;
    [ apply Forall_alter; [exact Harrays|]; intros x _ Hx;
      apply PromptFirst_snoc; [exact Hx|discriminate]
    | apply Forall_alter; [apply Forall_alter|];
      [exact Hobjects|intros x _ _; exact Ha|intros x _ Hx; exact Hx]
    | apply map_Forall_insert_2; [exact Ho|exact Hconv]
    | exact Hsusp
    | exact Hcalls ]).
Qed.

Lemma resume_keeps_HeapOk (n : nat) (outcome : Outcome) (st : State) :
  HeapOk st -> HeapOk (snd (resume uuid clock n outcome st)).
Proof.
  intros Hok. unfold resume.
  destruct (suspended st !! n) as [h|] eqn:Hn; [|exact Hok].
  pose proof (proj1 (Forall_lookup _ _) (suspended_ok st Hok) _ _ Hn)
    as [Ho Ha].
  assert (HeapOk
            {| arrays := arrays st; objects := objects st;
               conversations := conversations st;
               suspended := delete n (suspended st);
               uuidCalls := uuidCalls st; dateCalls := dateCalls st;
               providerCalls := providerCalls st |}) as Hok'.
  { destruct Hok as [Harrays Hobjects Hconv Hsusp Hcalls].
    split; cbn; try assumption. apply Forall_delete, Hsusp. }
  destruct outcome as [response|]; [|exact Hok'].
  apply finish_keeps_HeapOk; assumption.
Qed.

End Overlap.


Lemma deleteConversation_keeps_HeapOk (i : jsstring) (st : Server.State) :
  HeapOk st -> HeapOk (Server.deleteConversation i st).
Proof.
  intros [Harrays Hobjects Hconv Hsusp Hcalls].
  split; cbn; try assumption. apply map_Forall_delete, Hconv.
Qed.

(** A sweep only removes entries. *)
Lemma server_sweep_subseteq (now : Z) (st : Server.State) :
  Server.conversations (Server.sweep now st) ⊆ Server.conversations st.
Proof.
  cbn.
  set (f := fun (conversationId : jsstring) (conversation : nat)
                (acc : gmap jsstring nat) =>
              if shouldCleanupConversation now
                   (default 0
                      (Server.lastActivity
                         <$> Server.objects st !! conversation))
              then delete conversationId acc else acc).
  enough (forall acc, acc ⊆ Server.conversations st ->
                      map_fold f acc (Server.conversations st)
                      ⊆ Server.conversations st) as Hgen
    by (apply Hgen; reflexivity).
  intros acc Hacc.
  apply (map_fold_weak_ind
           (fun acc' (_ : gmap jsstring nat) =>
              acc' ⊆ Server.conversations st)).
  - exact Hacc.
  - intros i x seen acc' _ IH. unfold f.
    destruct (shouldCleanupConversation _ _); [|exact IH].
    etransitivity; [apply delete_subseteq|exact IH].
Qed.

Lemma sweep_keeps_HeapOk (now : Z) (st : Server.State) :
  HeapOk st -> HeapOk (Server.sweep now st).
Proof.
  intros [Harrays Hobjects Hconv Hsusp Hcalls].
  split; try assumption.
  intros i o Hi. apply (Hconv i o).
  eapply lookup_weaken; [exact Hi|apply server_sweep_subseteq].
Qed.

Lemma Interleaved_HeapOk (st : Server.State) : Interleaved st -> HeapOk st.
Proof.
  induction 1 as [uuids dates|uuid clock req st _ IH
                 |uuid clock n outcome st _ IH|i st _ IH|now st _ IH].
  - split; cbn; try constructor. apply map_Forall_empty.
  - apply begin_keeps_HeapOk, IH.
  - apply resume_keeps_HeapOk, IH.
  - apply deleteConversation_keeps_HeapOk, IH.
  - apply sweep_keeps_HeapOk, IH.
Qed.


(** ** Handlers that do not overlap *)

Lemma alter_as_insert {A} (f : A -> A) (l : list A) (i : nat) (x : A) :
  l !! i = Some x -> alter f i l = <[i := f x]> l.
Proof.
  intros Hi. apply list_eq. intros j. destruct (decide (i = j)) as [<-|Hne].
  - rewrite lookup_alter_same, Hi, list_lookup_insert_eq
      by (eapply lookup_lt_Some, Hi). reflexivity.
  - rewrite list_lookup_alter_ne, list_lookup_insert_ne by exact Hne.
    reflexivity.
Qed.

Lemma entry_other (st F : Server.State) (o : nat) :
  Server.objects F !! o = Server.objects st !! o ->
  (forall c, Server.objects st !! o = Some c ->
             Server.arrays F !! Server.messages c
             = Server.arrays st !! Server.messages c) ->
  Server.entry F o = Server.entry st o.
Proof.
  intros Ho Ha. unfold Server.entry. rewrite Ho.
  destruct (Server.objects st !! o) as [c|]; [|reflexivity].
  rewrite (Ha c eq_refl). reflexivity.
Qed.

(** Storing an object under its key changes that entry of the view and no
    other. *)
Lemma view_store (st F : Server.State) (cid : jsstring) (o : nat)
    (final : Chat.ConversationData) :
  Owned st ->
  Server.conversations F = <[cid := o]> (Server.conversations st) ->
  (forall k, k <> cid -> Server.conversations st !! k <> Some o) ->
  Server.entry F o = Some final ->
  (forall o2, o2 <> o -> (o2 < length (Server.objects st))%nat ->
              Server.entry F o2 = Server.entry st o2) ->
  omap (Server.entry F) (Server.conversations F)
  = <[cid := final]> (omap (Server.entry st) (Server.conversations st)).
Proof.
  intros Hst Hconv Hfresh Ho Hothers. apply map_eq. intros k.
  rewrite lookup_omap, Hconv. destruct (decide (cid = k)) as [<-|Hne].
  - rewrite !lookup_insert_eq. exact Ho.
  - rewrite !lookup_insert_ne, lookup_omap by exact Hne.
    destruct (Server.conversations st !! k) as [o2|] eqn:Hk; [|reflexivity].
    cbn. apply Hothers.
    + intros ->. apply (Hfresh k); congruence.
    + eapply conversations_valid; eassumption.
Qed.

(** An object that a conversation holds is given an array, its own or a
    new one, and stored again. *)
Lemma store_existing (st F : Server.State) (cid : jsstring) (o a' : nat)
    (c : Server.ConversationData) (t' : Z) (new : list Message) :
  Owned st ->
  Server.conversations st !! cid = Some o ->
  Server.objects st !! o = Some c ->
  Server.objects F
  = <[o := {| Server.messages := a'; Server.lastActivity := t' |}]>
      (Server.objects st) ->
  Server.conversations F = <[cid := o]> (Server.conversations st) ->
  Server.arrays F !! a' = Some new ->
  (length (Server.arrays st) <= length (Server.arrays F))%nat ->
  (forall j, j <> Server.messages c -> (j < length (Server.arrays st))%nat ->
             Server.arrays F !! j = Server.arrays st !! j) ->
  (a' = Server.messages c \/ (length (Server.arrays st) <= a')%nat) ->
  Owned F
  /\ omap (Server.entry F) (Server.conversations F)
     = <[cid := {| Chat.messages := new; Chat.lastActivity := t' |}]>
         (omap (Server.entry st) (Server.conversations st))
  /\ Server.conversations F !! cid = Some o
  /\ Server.objects F !! o
     = Some {| Server.messages := a'; Server.lastActivity := t' |}.
Proof.
  intros Hst Hcid Hc Hobjects Hconv Hnew Hgrow Hframe Ha'.
  pose proof (lookup_lt_Some _ _ _ Hc) as Ho.
  assert (Server.objects F !! o
          = Some {| Server.messages := a'; Server.lastActivity := t' |})
    as Hstored by (rewrite Hobjects; apply list_lookup_insert_eq, Ho).
  assert (forall o2, o2 <> o ->
                     Server.objects F !! o2 = Server.objects st !! o2)
    as Hsame by (intros o2 Hne; rewrite Hobjects;
                 apply list_lookup_insert_ne; congruence).
  assert (forall o2 c2, o2 <> o -> Server.objects st !! o2 = Some c2 ->
                        Server.messages c2 <> Server.messages c) as Hown.
  { intros o2 c2 Hne Hc2 Heq. apply Hne.
    eapply (own_array st Hst); eassumption. }
  split; [split|split; [|split]].
  - intros o2 c2. destruct (decide (o2 = o)) as [->|Hne].
    + rewrite Hstored. intros [= <-]. cbn. eapply lookup_lt_Some, Hnew.
    + rewrite (Hsame _ Hne). intros Hc2.
      pose proof (objects_valid st Hst _ _ Hc2). lia.
  - intros i o2. rewrite Hconv, (insert_id _ _ _ Hcid), Hobjects, length_insert.
    apply (conversations_valid st Hst).
  - intros i j o2. rewrite Hconv, (insert_id _ _ _ Hcid).
    apply (own_object st Hst).
  - intros o1 o2 c1 c2.
    destruct (decide (o1 = o)) as [->|Hne1];
      destruct (decide (o2 = o)) as [->|Hne2]; [reflexivity|..].
    + rewrite Hstored, (Hsame _ Hne2). intros [= <-] Hc2. cbn. intros Heq.
      destruct Ha' as [->|Hfresh].
      * exfalso. exact (Hown _ _ Hne2 Hc2 (eq_sym Heq)).
      * pose proof (objects_valid st Hst _ _ Hc2). lia.
    + rewrite Hstored, (Hsame _ Hne1). intros Hc1 [= <-]. cbn. intros Heq.
      destruct Ha' as [->|Hfresh].
      * exfalso. exact (Hown _ _ Hne1 Hc1 Heq).
      * pose proof (objects_valid st Hst _ _ Hc1). lia.
    + rewrite (Hsame _ Hne1), (Hsame _ Hne2). apply (own_array st Hst).
  - apply (view_store st F cid o); [exact Hst|exact Hconv|..].
    + intros k Hne Hk. apply Hne. eapply (own_object st Hst); eassumption.
    + unfold Server.entry. rewrite Hstored. cbn. rewrite Hnew. reflexivity.
    + intros o2 Hne Hlt. apply entry_other; [apply Hsame, Hne|].
      intros c2 Hc2. apply Hframe; [eapply Hown; eassumption|].
      eapply objects_valid; eassumption.
  - rewrite Hconv. apply lookup_insert_eq.
  - exact Hstored.
Qed.

(** A conversation that the map does not hold is given a new object with
    a new array. *)
Lemma store_new (st F : Server.State) (cid : jsstring) (t : Z)
    (new : list Message) :
  Owned st ->
  Server.conversations st !! cid = None ->
  Server.arrays F = Server.arrays st ++ [new] ->
  Server.objects F
  = Server.objects st
    ++ [{| Server.messages := length (Server.arrays st);
           Server.lastActivity := t |}] ->
  Server.conversations F
  = <[cid := length (Server.objects st)]> (Server.conversations st) ->
  Owned F
  /\ omap (Server.entry F) (Server.conversations F)
     = <[cid := {| Chat.messages := new; Chat.lastActivity := t |}]>
         (omap (Server.entry st) (Server.conversations st))
  /\ Server.entry F (length (Server.objects st))
     = Some {| Chat.messages := new; Chat.lastActivity := t |}.
Proof.
  intros Hst Hcid Harrays Hobjects Hconv.
  assert (Server.entry F (length (Server.objects st))
          = Some {| Chat.messages := new; Chat.lastActivity := t |}) as Hentry.
  { unfold Server.entry.
    rewrite Hobjects, (list_lookup_middle _ [] _ _ eq_refl). cbn.
    rewrite Harrays, (list_lookup_middle _ [] _ _ eq_refl). reflexivity. }
  assert (forall o c, Server.objects st !! o = Some c ->
                      Server.objects F !! o = Some c) as Hsame.
  { intros o c Hc. rewrite Hobjects, lookup_app_l; [exact Hc|].
    eapply lookup_lt_Some, Hc. }
  assert (forall o c, Server.objects F !! o = Some c ->
                      Server.objects st !! o = Some c
                      \/ (o = length (Server.objects st)
                          /\ c = {| Server.messages := length (Server.arrays st);
                                    Server.lastActivity := t |})) as Hcases.
  { intros o c. rewrite Hobjects. intros Hc.
    apply lookup_app_Some in Hc as [Hc|[Hge Hc]]; [left; exact Hc|right].
    apply list_lookup_singleton_Some in Hc as [Hz ->].
    split; [lia|reflexivity]. }
  split; [split|split].
  - intros o c Hc. rewrite Harrays, length_app. cbn.
    destruct (Hcases _ _ Hc) as [Hc'|[-> ->]]; [|cbn; lia].
    pose proof (objects_valid st Hst _ _ Hc'). lia.
  - intros i o. rewrite Hconv, Hobjects, length_app. cbn.
    destruct (decide (cid = i)) as [<-|Hne].
    + rewrite lookup_insert_eq. intros [= <-]. lia.
    + rewrite lookup_insert_ne by exact Hne. intros Hi.
      pose proof (conversations_valid st Hst _ _ Hi). lia.
  - intros i j o. rewrite Hconv.
    destruct (decide (cid = i)) as [<-|Hi];
      destruct (decide (cid = j)) as [<-|Hj]; [reflexivity|..];
      rewrite ?lookup_insert_eq, ?lookup_insert_ne by assumption.
    + intros [= <-] Hj'. pose proof (conversations_valid st Hst _ _ Hj'). lia.
    + intros Hi' [= <-]. pose proof (conversations_valid st Hst _ _ Hi'). lia.
    + apply (own_object st Hst).
  - intros o1 o2 c1 c2 Hc1 Hc2 Heq.
    destruct (Hcases _ _ Hc1) as [Hc1'|[-> ->]];
      destruct (Hcases _ _ Hc2) as [Hc2'|[-> ->]]; [..|reflexivity].
    + eapply (own_array st Hst); eassumption.
    + cbn in Heq. pose proof (objects_valid st Hst _ _ Hc1'). lia.
    + cbn in Heq. pose proof (objects_valid st Hst _ _ Hc2'). lia.
  - apply (view_store st F cid (length (Server.objects st)));
      [exact Hst|exact Hconv|..].
    + intros k _ Hk. pose proof (conversations_valid st Hst _ _ Hk). lia.
    + exact Hentry.
    + intros o2 _ Hlt. destruct (lookup_lt_is_Some_2 _ _ Hlt) as [c2 Hc2].
      apply entry_other; [rewrite Hc2; apply Hsame, Hc2|].
      intros c2' Hc2'. rewrite Harrays. apply lookup_app_l.
      eapply objects_valid; eassumption.
  - exact Hentry.
Qed.

Section Serve.

Variable uuid : nat -> jsstring.
Variable clock : nat -> Z.

Import Server.

(** Lines 50 to 69, on the heap. *)
Lemma recordUserMessage_heap (req : Chat.ChatRequest) (cid : jsstring)
    (o : nat) (c : ConversationData) (history : list Message) (st : State) :
  objects st !! o = Some c ->
  arrays st !! messages c = Some history ->
  let u := {| id := uuid (uuidCalls st); role := user;
              content := trim (Chat.req_message req);
              timestamp := clock (dateCalls st);
              conversationId := Some cid |} in
  let payload := ContextManager.trimConversation (history ++ [u]) in
  let pushed := <[messages c := history ++ [u]]> (arrays st) in
  let a' := if withinLimits (history ++ [u]) then messages c
            else length (arrays st) in
  recordUserMessage uuid clock req cid o st
  = (a',
     {| arrays := if withinLimits (history ++ [u]) then pushed
                  else pushed ++ [payload];
        objects := <[o := {| messages := a';
                             lastActivity := clock (S (dateCalls st)) |}]>
                     (objects st);
        conversations := <[cid := o]> (conversations st);
        suspended := suspended st;
        uuidCalls := S (uuidCalls st);
        dateCalls := S (S (dateCalls st));
        providerCalls := providerCalls st |}).
Proof.
  intros Hc Hhistory. cbv zeta.
  assert (default 0%nat (messages <$> objects st !! o) = messages c) as Hget
    by (rewrite Hc; reflexivity).
  unfold recordUserMessage, bind, getMessages, uuidv4, newDate, push,
    trimConversation, elements, setMessages, setLastActivity,
    conversations_set, withArrays, withObjects, newArray, bind, ret.
  cbn. rewrite Hget, lookup_alter_same, Hhistory. cbn. unfold Datatypes.id.
  rewrite (alter_as_insert _ _ _ _ Hhistory).
  destruct (withinLimits _); cbn; rewrite ?length_insert;
    (erewrite (alter_as_insert _ (objects st)) by exact Hc);
    (erewrite alter_as_insert
       by (apply list_lookup_insert_eq; eapply lookup_lt_Some, Hc));
    cbn; rewrite list_insert_insert_eq; reflexivity.
Qed.

(** Lines 92 to 98, or 121 to 133, on the heap. *)
Lemma finish_heap (h : Suspended) (response : jsstring)
    (c : ConversationData) (payload : list Message) (st : State) :
  objects st !! h_conversationData h = Some c ->
  arrays st !! h_conversationMessages h = Some payload ->
  let i := default (uuid (uuidCalls st)) (h_assistantMessageId h) in
  let a := {| id := i; role := assistant; content := response;
              timestamp := clock (dateCalls st);
              conversationId := Some (h_currentConversationId h) |} in
  finish uuid clock h response st
  = (tt,
     {| arrays := <[h_conversationMessages h := payload ++ [a]]> (arrays st);
        objects := <[h_conversationData h :=
                       {| messages := h_conversationMessages h;
                          lastActivity := clock (S (dateCalls st)) |}]>
                     (objects st);
        conversations :=
          <[h_currentConversationId h := h_conversationData h]>
            (conversations st);
        suspended := suspended st;
        uuidCalls := match h_assistantMessageId h with
                     | Some _ => uuidCalls st
                     | None => S (uuidCalls st)
                     end;
        dateCalls := S (S (dateCalls st));
        providerCalls := providerCalls st |}).
Proof.
  intros Hc Hpayload. cbv zeta.
  unfold finish, bind, uuidv4, newDate, push, setMessages, setLastActivity,
    conversations_set, withArrays, withObjects, ret.
  destruct (h_assistantMessageId h); cbn;
    rewrite (alter_as_insert _ _ _ _ Hpayload);
    (erewrite (alter_as_insert _ (objects st)) by exact Hc);
    (erewrite alter_as_insert
       by (apply list_lookup_insert_eq; eapply lookup_lt_Some, Hc));
    cbn; rewrite list_insert_insert_eq; reflexivity.
Qed.

(** Lines 43 to 48, on the heap. *)
Lemma openConversation_heap (cid : jsstring) (st : State) :
  openConversation uuid clock cid st
  = match conversations st !! cid with
    | Some o => (o, st)
    | None =>
        let sys := {| id := uuid (uuidCalls st); role := system;
                      content := systemPrompt;
                      timestamp := clock (dateCalls st);
                      conversationId := None |} in
        (length (objects st),
         {| arrays := arrays st ++ [[sys]];
            objects := objects st
                       ++ [{| messages := length (arrays st);
                              lastActivity := clock (S (dateCalls st)) |}];
            conversations := <[cid := length (objects st)]> (conversations st);
            suspended := suspended st;
            uuidCalls := S (uuidCalls st);
            dateCalls := S (S (dateCalls st));
            providerCalls := providerCalls st |})
    end.
Proof.
  unfold openConversation, bind, conversations_get.
  destruct (conversations st !! cid); reflexivity.
Qed.

Lemma currentConversationId_view (req : Chat.ChatRequest) (st : State) :
  Chat.currentConversationId uuid req (view st)
  = (fst (currentConversationId uuid req st),
     view (snd (currentConversationId uuid req st))).
Proof.
  unfold Chat.currentConversationId, currentConversationId.
  destruct (Chat.req_conversationId req) as [[|c cs]|]; reflexivity.
Qed.

Lemma Owned_fields (st st' : State) :
  arrays st' = arrays st -> objects st' = objects st ->
  conversations st' = conversations st ->
  Owned st -> Owned st'.
Proof.
  intros Ha Ho Hc [? ? ? ?]. split; rewrite ?Ha, ?Ho, ?Hc; assumption.
Qed.

Lemma currentConversationId_fields (req : Chat.ChatRequest) (st : State) :
  let st' := snd (currentConversationId uuid req st) in
  arrays st' = arrays st /\ objects st' = objects st
  /\ conversations st' = conversations st /\ suspended st' = suspended st
  /\ providerCalls st' = providerCalls st.
Proof.
  unfold currentConversationId.
  destruct (Chat.req_conversationId req) as [[|c cs]|]; cbn; auto.
Qed.

(** Lines 41 to 69 of [Chat.post], when the map holds the conversation. *)
Lemma chat_recordUserMessage_found (req : Chat.ChatRequest) (w w0 : Chat.World)
    (cid : jsstring) (c : Chat.ConversationData) :
  Chat.currentConversationId uuid req w = (cid, w0) ->
  Chat.conversations w0 !! cid = Some c ->
  let u := {| id := uuid (Chat.uuidCalls w0); role := user;
              content := trim (Chat.req_message req);
              timestamp := clock (Chat.dateCalls w0);
              conversationId := Some cid |} in
  let payload := ContextManager.trimConversation (Chat.messages c ++ [u]) in
  Chat.recordUserMessage uuid clock req w
  = (cid, payload,
     {| Chat.conversations :=
          <[cid := {| Chat.messages := payload;
                      Chat.lastActivity := clock (S (Chat.dateCalls w0)) |}]>
            (Chat.conversations w0);
        Chat.uuidCalls := S (Chat.uuidCalls w0);
        Chat.dateCalls := S (S (Chat.dateCalls w0));
        Chat.providerCalls := Chat.providerCalls w0 |}).
Proof.
  intros Hcid Hc. cbv zeta. unfold Chat.recordUserMessage.
  unfold Chat.bind at 1. rewrite Hcid.
  unfold Chat.bind at 1. unfold Chat.conversations_get at 1.
  rewrite Hc. reflexivity.
Qed.

(** The same lines, when the conversation is new. *)
Lemma chat_recordUserMessage_new (req : Chat.ChatRequest) (w w0 : Chat.World)
    (cid : jsstring) :
  Chat.currentConversationId uuid req w = (cid, w0) ->
  Chat.conversations w0 !! cid = None ->
  let sys := {| id := uuid (Chat.uuidCalls w0); role := system;
                content := systemPrompt;
                timestamp := clock (Chat.dateCalls w0);
                conversationId := None |} in
  let u := {| id := uuid (S (Chat.uuidCalls w0)); role := user;
              content := trim (Chat.req_message req);
              timestamp := clock (S (S (Chat.dateCalls w0)));
              conversationId := Some cid |} in
  let payload := ContextManager.trimConversation ([sys] ++ [u]) in
  Chat.recordUserMessage uuid clock req w
  = (cid, payload,
     {| Chat.conversations :=
          <[cid := {| Chat.messages := payload;
                      Chat.lastActivity :=
                        clock (S (S (S (Chat.dateCalls w0)))) |}]>
            (<[cid := {| Chat.messages := [sys];
                         Chat.lastActivity := clock (S (Chat.dateCalls w0)) |}]>
               (Chat.conversations w0));
        Chat.uuidCalls := S (S (Chat.uuidCalls w0));
        Chat.dateCalls := S (S (S (S (Chat.dateCalls w0))));
        Chat.providerCalls := Chat.providerCalls w0 |}).
Proof.
  intros Hcid Hc. cbv zeta. unfold Chat.recordUserMessage.
  unfold Chat.bind at 1. rewrite Hcid.
  unfold Chat.bind at 1. unfold Chat.conversations_get at 1.
  rewrite Hc. reflexivity.
Qed.

(** Lines 50 to 69, on the heap and on the map. *)
Lemma recordUserMessage_store (req : Chat.ChatRequest) (cid : jsstring)
    (o : nat) (c : ConversationData) (history : list Message) (st : State) :
  Owned st ->
  conversations st !! cid = Some o ->
  objects st !! o = Some c ->
  arrays st !! messages c = Some history ->
  let u := {| id := uuid (uuidCalls st); role := user;
              content := trim (Chat.req_message req);
              timestamp := clock (dateCalls st);
              conversationId := Some cid |} in
  let payload := ContextManager.trimConversation (history ++ [u]) in
  let a' := fst (recordUserMessage uuid clock req cid o st) in
  let st' := snd (recordUserMessage uuid clock req cid o st) in
  view st'
  = {| Chat.conversations :=
         <[cid := {| Chat.messages := payload;
                     Chat.lastActivity := clock (S (dateCalls st)) |}]>
           (Chat.conversations (view st));
       Chat.uuidCalls := S (uuidCalls st);
       Chat.dateCalls := S (S (dateCalls st));
       Chat.providerCalls := providerCalls st |}
  /\ arrays st' !! a' = Some payload
  /\ conversations st' !! cid = Some o
  /\ objects st' !! o
     = Some {| messages := a'; lastActivity := clock (S (dateCalls st)) |}
  /\ Owned st'
  /\ suspended st' = suspended st
  /\ providerCalls st' = providerCalls st.
Proof.
  intros Hst Hcid Hc Hhistory. cbv zeta.
  rewrite (recordUserMessage_heap req cid o c history st Hc Hhistory).
  cbn [fst snd].
  set (u := {| id := uuid (uuidCalls st); role := user;
               content := trim (Chat.req_message req);
               timestamp := clock (dateCalls st);
               conversationId := Some cid |}).
  set (payload := ContextManager.trimConversation (history ++ [u])).
  set (a' := if withinLimits (history ++ [u]) then messages c
             else length (arrays st)).
  set (st' := {| arrays := _ |}).
  assert (arrays st' !! a' = Some payload) as Hpayload.
  { subst st' a' payload. cbn.
    destruct (withinLimits (history ++ [u])) eqn:Hwithin.
    - rewrite (trimConversation_within _ Hwithin).
      apply list_lookup_insert_eq. eapply lookup_lt_Some, Hhistory.
    - apply list_lookup_middle. rewrite length_insert. reflexivity. }
  destruct (store_existing st st' cid o a' c (clock (S (dateCalls st)))
              payload Hst Hcid Hc eq_refl eq_refl Hpayload)
    as (Hst' & Hview & Hcid' & Ho').
  { subst st'. cbn. destruct (withinLimits _);
      rewrite ?length_app, length_insert; lia. }
  { intros j Hj Hlt. subst st'. cbn.
    destruct (withinLimits _);
      rewrite ?lookup_app_l by (rewrite length_insert; exact Hlt);
      apply list_lookup_insert_ne; congruence. }
  { subst a'. destruct (withinLimits _); [left; reflexivity|right; lia]. }
  split; [unfold view; rewrite Hview; reflexivity|].
  repeat match goal with |- _ /\ _ => split end; try assumption; reflexivity.
Qed.

(** Lines 41 to 69, on the heap and on the map. *)
Lemma recordUserMessage_view (req : Chat.ChatRequest) (st : State) :
  Owned st ->
  let cid := fst (currentConversationId uuid req st) in
  let st0 := snd (currentConversationId uuid req st) in
  let o := fst (openConversation uuid clock cid st0) in
  let st1 := snd (openConversation uuid clock cid st0) in
  let a' := fst (recordUserMessage uuid clock req cid o st1) in
  let st2 := snd (recordUserMessage uuid clock req cid o st1) in
  exists payload t',
    Chat.recordUserMessage uuid clock req (view st) = (cid, payload, view st2)
    /\ arrays st2 !! a' = Some payload
    /\ conversations st2 !! cid = Some o
    /\ objects st2 !! o = Some {| messages := a'; lastActivity := t' |}
    /\ Owned st2
    /\ suspended st2 = suspended st
    /\ providerCalls st2 = providerCalls st.
Proof.
  intros Hst. cbv zeta.
  pose proof (currentConversationId_view req st) as Hcid.
  destruct (currentConversationId_fields req st)
    as (Ha0 & Ho0 & Hc0 & Hs0 & Hp0).
  cbv zeta in *.
  set (cid := fst (currentConversationId uuid req st)) in *.
  set (st0 := snd (currentConversationId uuid req st)) in *.
  assert (Owned st0) as Hst0 by (eapply Owned_fields; eassumption).
  rewrite <- Hs0, <- Hp0. clearbody cid st0. clear Ha0 Ho0 Hc0 Hs0 Hp0 Hst.
  rewrite openConversation_heap.
  destruct (conversations st0 !! cid) as [o|] eqn:Hcid0; cbn [fst snd].
  - pose proof (conversations_valid st0 Hst0 _ _ Hcid0) as Ho.
    destruct (lookup_lt_is_Some_2 _ _ Ho) as [c Hc].
    destruct (lookup_lt_is_Some_2 _ _ (objects_valid st0 Hst0 _ _ Hc))
      as [history Hhistory].
    destruct (recordUserMessage_store req cid o c history st0
                Hst0 Hcid0 Hc Hhistory)
      as (Hview & Hrest).
    cbv zeta in Hview, Hrest. do 2 eexists. split; [|exact Hrest].
    erewrite chat_recordUserMessage_found; [|exact Hcid|].
    2:{ cbn. rewrite lookup_omap, Hcid0. cbn. unfold entry.
        rewrite Hc, Hhistory. reflexivity. }
    rewrite Hview. reflexivity.
  - set (sys := {| id := uuid (uuidCalls st0); role := system;
                   content := systemPrompt;
                   timestamp := clock (dateCalls st0);
                   conversationId := None |}).
    set (st1 := {| arrays := _ |}).
    destruct (store_new st0 st1 cid (clock (S (dateCalls st0))) [sys]
                Hst0 Hcid0 eq_refl eq_refl eq_refl)
      as (Hst1 & Hview1 & _).
    assert (conversations st1 !! cid = Some (length (objects st0))) as Hcid1
      by apply lookup_insert_eq.
    assert (objects st1 !! length (objects st0)
            = Some {| messages := length (arrays st0);
                      lastActivity := clock (S (dateCalls st0)) |}) as Hc
      by (apply list_lookup_middle; reflexivity).
    assert (arrays st1 !! length (arrays st0) = Some [sys]) as Hhistory
      by (apply list_lookup_middle; reflexivity).
    destruct (recordUserMessage_store req cid _ _ _ st1
                Hst1 Hcid1 Hc Hhistory)
      as (Hview & Hrest).
    cbv zeta in Hview, Hrest. do 2 eexists. split; [|exact Hrest].
    erewrite chat_recordUserMessage_new; [|exact Hcid|].
    2:{ cbn. rewrite lookup_omap, Hcid0. reflexivity. }
    rewrite Hview.
    change (Chat.conversations (view st1))
      with (omap (entry st1) (conversations st1)).
    rewrite Hview1. reflexivity.
Qed.

(** Lines 29 to 82, or to 119, for a message that passes validation. *)
Lemma begin_heap (req : Chat.ChatRequest) (st : State) :
  valid (validateMessage (Chat.req_message req)) = true ->
  let cid := fst (currentConversationId uuid req st) in
  let st0 := snd (currentConversationId uuid req st) in
  let o := fst (openConversation uuid clock cid st0) in
  let st1 := snd (openConversation uuid clock cid st0) in
  let a' := fst (recordUserMessage uuid clock req cid o st1) in
  let st2 := snd (recordUserMessage uuid clock req cid o st1) in
  let stream := default false (Chat.req_stream req) in
  snd (begin uuid clock req st)
  = {| arrays := arrays st2; objects := objects st2;
       conversations := conversations st2;
       suspended :=
         suspended st2
         ++ [{| h_currentConversationId := cid;
                h_conversationData := o;
                h_conversationMessages := a';
                h_assistantMessageId :=
                  if stream then Some (uuid (uuidCalls st2)) else None |}];
       uuidCalls := (if stream then S (uuidCalls st2) else uuidCalls st2);
       dateCalls := dateCalls st2;
       providerCalls := providerCalls st2 ++ [default [] (arrays st2 !! a')] |}.
Proof.
  intros Hvalid. cbv zeta. unfold begin. rewrite Hvalid. cbn [negb].
  unfold bind at 1 2 3.
  destruct (currentConversationId uuid req st) as [cid st0]; cbn [fst snd].
  destruct (openConversation uuid clock cid st0) as [o st1]; cbn [fst snd].
  destruct (recordUserMessage uuid clock req cid o st1) as [a' st2];
    cbn [fst snd].
  destruct (default false (Chat.req_stream req)); reflexivity.
Qed.

(** A handler that nothing overlaps acts on the session map as [Chat.post]
    does. *)
Lemma serve_view (req : Chat.ChatRequest) (outcome : Outcome) (st : State) :
  Owned st ->
  view (serve uuid clock req outcome st)
  = snd (Chat.handle uuid clock (settles outcome) (streams outcome) req
           (view st))
  /\ Owned (serve uuid clock req outcome st)
  /\ suspended (serve uuid clock req outcome st) = suspended st.
Proof.
  intros Hst. unfold serve, Chat.handle, Chat.post.
  destruct (valid (validateMessage (Chat.req_message req))) eqn:Hvalid;
    cbn [negb].
  2:{ unfold begin, resume. rewrite Hvalid. cbn [negb ret fst snd].
      rewrite (proj2 (lookup_ge_None _ _) (Nat.le_refl _)).
      split; [reflexivity|split; [exact Hst|reflexivity]]. }
  rewrite (begin_heap req st Hvalid).
  destruct (recordUserMessage_view req st Hst)
    as (payload & t' & Hchat & Hpayload & Hcid2 & Ho2 & Hst2 & Hs2 & Hp2).
  cbv zeta in *. unfold Chat.bind at 1. rewrite Hchat. clear Hchat.
  destruct (currentConversationId uuid req st) as [cid st0]; cbn [fst snd] in *.
  destruct (openConversation uuid clock cid st0) as [o st1]; cbn [fst snd] in *.
  destruct (recordUserMessage uuid clock req cid o st1) as [a' st2];
    cbn [fst snd] in *.
  rewrite <- Hs2. rewrite Hpayload. cbn [default from_option Datatypes.id].
  unfold resume. cbn [suspended].
  rewrite (list_lookup_middle _ [] _ _ eq_refl), (delete_middle _ []), app_nil_r.
  cbn [arrays objects conversations suspended uuidCalls dateCalls providerCalls].
  destruct outcome as [response|].
  - set (h := {| h_currentConversationId := cid; h_conversationData := o;
                 h_conversationMessages := a'; h_assistantMessageId := _ |}).
    set (st3 := {| arrays := arrays st2 |}).
    rewrite (finish_heap h response {| messages := a'; lastActivity := t' |}
               payload st3 Ho2 Hpayload).
    cbn [fst snd]. set (F := {| arrays := _ |}).
    destruct (store_existing st2 F cid o a'
                {| messages := a'; lastActivity := t' |}
                (clock (S (dateCalls st2)))
                (payload
                 ++ [{| id := default (uuid (uuidCalls st3))
                                 (h_assistantMessageId h);
                        role := assistant; content := response;
                        timestamp := clock (dateCalls st2);
                        conversationId := Some cid |}])
                Hst2 Hcid2 Ho2 eq_refl eq_refl)
      as (HF & Hview & _ & _).
    { apply list_lookup_insert_eq. eapply lookup_lt_Some, Hpayload. }
    { subst F. cbn. rewrite length_insert. lia. }
    { intros j Hj _. subst F h. cbn in *. apply list_lookup_insert_ne.
      congruence. }
    { left. reflexivity. }
    split; [|split; [exact HF|reflexivity]].
    unfold view at 1. rewrite Hview. subst F h st3.
    destruct (Chat.req_stream req) as [[|]|]; cbn; rewrite ?app_nil_r;
      reflexivity.
  - split; [|split; [|reflexivity]].
    + destruct (Chat.req_stream req) as [[|]|]; reflexivity.
    + eapply Owned_fields; [..|exact Hst2]; reflexivity.
Qed.


End Serve.

Lemma deleteConversation_view (i : jsstring) (st : Server.State) :
  Server.view (Server.deleteConversation i st)
  = snd (Chat.deleteConversation i (Server.view st)).
Proof.
  unfold Chat.deleteConversation.
  destruct (bool_decide _); cbn; unfold Server.view; cbn;
    rewrite omap_delete; reflexivity.
Qed.

Lemma deleteConversation_Owned (i : jsstring) (st : Server.State) :
  Owned st -> Owned (Server.deleteConversation i st).
Proof.
  intros [Hobjects Hconv Hobj Harr]. split; cbn; try assumption.
  - intros k o Hk. apply lookup_delete_Some in Hk as [_ Hk]. eauto.
  - intros k j o Hk Hj. apply lookup_delete_Some in Hk as [_ Hk].
    apply lookup_delete_Some in Hj as [_ Hj]. eauto.
Qed.

Lemma server_sweep_lookup (now : Z) (st : Server.State) (k : jsstring) :
  Server.conversations (Server.sweep now st) !! k
  = match Server.conversations st !! k with
    | Some o =>
        if shouldCleanupConversation now
             (default 0 (Server.lastActivity <$> Server.objects st !! o))
        then None else Some o
    | None => None
    end.
Proof.
  cbn.
  set (idle := fun o : nat =>
                 shouldCleanupConversation now
                   (default 0 (Server.lastActivity <$> Server.objects st !! o))).
  set (f := fun (conversationId : jsstring) (conversation : nat)
                (acc : gmap jsstring nat) =>
              if idle conversation then delete conversationId acc else acc).
  set (m := Server.conversations st).
  change (map_fold f m m !! k
          = match m !! k with
            | Some o => if idle o then None else Some o
            | None => None
            end).
  enough (forall visited : gmap jsstring nat,
             map_fold f m visited !! k =
             match visited !! k with
             | Some o => if idle o then None else m !! k
             | None => m !! k
             end) as Hgen.
  { rewrite Hgen. destruct (m !! k) as [o|]; [|reflexivity].
    destruct (idle o); reflexivity. }
  intros visited.
  apply (map_fold_weak_ind
           (fun acc (seen : gmap jsstring nat) =>
              acc !! k =
              match seen !! k with
              | Some o => if idle o then None else m !! k
              | None => m !! k
              end)).
  - rewrite lookup_empty. reflexivity.
  - intros i x seen acc Hfresh IH. unfold f.
    destruct (decide (i = k)) as [->|Hne].
    + rewrite lookup_insert_eq. rewrite Hfresh in IH.
      destruct (idle x).
      * apply lookup_delete_eq.
      * exact IH.
    + rewrite lookup_insert_ne by exact Hne.
      destruct (idle x); [|exact IH].
      rewrite lookup_delete_ne by exact Hne. exact IH.
Qed.

Lemma sweep_view (now : Z) (st : Server.State) :
  Owned st ->
  Server.view (Server.sweep now st) = Chat.sweepWorld now (Server.view st).
Proof.
  intros Hst. unfold Server.view, Chat.sweepWorld. cbn [Chat.conversations
    Chat.uuidCalls Chat.dateCalls Chat.providerCalls].
  f_equal. apply map_eq. intros k.
  rewrite lookup_omap, server_sweep_lookup, sweep_lookup, lookup_omap.
  destruct (Server.conversations st !! k) as [o|] eqn:Hk; [|reflexivity].
  cbn. unfold Server.entry at 2. cbn.
  destruct (lookup_lt_is_Some_2 _ _ (conversations_valid st Hst _ _ Hk))
    as [c Hc].
  destruct (lookup_lt_is_Some_2 _ _ (objects_valid st Hst _ _ Hc))
    as [history Hhistory].
  rewrite Hc, Hhistory. cbn.
  destruct (shouldCleanupConversation now (Server.lastActivity c));
    [reflexivity|].
  cbn. unfold Server.entry. cbn. rewrite Hc, Hhistory. reflexivity.
Qed.

Lemma sweep_Owned (now : Z) (st : Server.State) :
  Owned st -> Owned (Server.sweep now st).
Proof.
  intros [Hobjects Hconv Hobj Harr].
  pose proof (server_sweep_subseteq now st) as Hsub.
  split; try assumption.
  - intros k o Hk. apply (Hconv k). eapply lookup_weaken; eassumption.
  - intros k j o Hk Hj.
    apply (Hobj k j o); eapply lookup_weaken; eassumption.
Qed.

Lemma Serial_Reachable (st : Server.State) :
  Serial st ->
  Owned st /\ Server.suspended st = [] /\ Reachable (Server.view st).
Proof.
  induction 1 as [uuids dates|uuid clock req outcome st _ (Hst & Hidle & Hview)
                 |i st _ (Hst & Hidle & Hview)|now st _ (Hst & Hidle & Hview)].
  - split; [split; cbn; intros *; rewrite ?lookup_empty; discriminate|].
    split; [reflexivity|]. unfold Server.view. cbn. rewrite omap_empty.
    apply Reachable_start.
  - destruct (serve_view uuid clock req outcome st Hst) as (-> & Hst' & ->).
    split; [exact Hst'|]. split; [exact Hidle|].
    apply Reachable_post, Hview.
  - split; [apply deleteConversation_Owned, Hst|]. split; [exact Hidle|].
    rewrite deleteConversation_view. apply Reachable_delete, Hview.
  - split; [apply sweep_Owned, Hst|]. split; [exact Hidle|].
    rewrite (sweep_view now st Hst). apply Reachable_sweep, Hview.
Qed.

(** X30. When no handler is overlapped, the server acts on the session map
    as [Chat.post] does: no handler is left suspended, the session map read
    entry by entry is a state that runs of [Chat.post], deletions and
    sweeps reach, the next handler changes it exactly as [Chat.post] does
    with a provider that settles to the same outcome, and every stored
    history is the system prompt followed by at most 31 user and assistant
    turns. *)
Theorem unoverlapped_handlers_act_as_post (st : Server.State) :
  Serial st ->
  Server.suspended st = []
  /\ Reachable (Server.view st)
  /\ (forall uuid clock req outcome,
         Server.view (Server.serve uuid clock req outcome st)
         = snd (Chat.handle uuid clock (Server.settles outcome)
                  (Server.streams outcome) req (Server.view st)))
  /\ (forall i c, Server.stored st i = Some c -> Seeded (Chat.messages c)).
Proof.
  intros Hserial. destruct (Serial_Reachable st Hserial) as (Hst & Hidle & Hview).
  split; [exact Hidle|]. split; [exact Hview|]. split.
  - intros uuid clock req outcome. apply serve_view, Hst.
  - intros i c Hc.
    apply reachable_sessions_are_seeded_aux in Hview as [Hstore _].
    apply (Hstore i). cbn. rewrite lookup_omap. exact Hc.
Qed.

(** ** Reading and deleting conversations *)

(** X13. In a reachable state, reading a conversation shows every stored
    turn but the first (the system prompt), with the count of the turns
    shown and the last activity; reading an unknown conversation is
    answered "Conversation not found" with status 404. *)
Theorem getConversation_hides_the_prompt (w : Chat.World) (i : jsstring) :
  Reachable w ->
  match Chat.conversations w !! i with
  | Some c =>
      getConversation i w
      = ConversationJson i (tail (Chat.messages c)) (Chat.lastActivity c)
          (length (Chat.messages c) - 1)
  | None => getConversation i w = ConversationNext notFound
  end.
Proof.
  intros Hw. apply reachable_sessions_are_seeded_aux in Hw as [Hstore _].
  unfold getConversation.
  destruct (Chat.conversations w !! i) as [c|] eqn:Hc; [|reflexivity].
  destruct (Hstore i c Hc) as (s & rest & -> & Hs & _ & Hrest & _).
  simpl. apply notSystem_false in Hs. rewrite Hs.
  rewrite (filter_notSystem_all _ Hrest), Nat.sub_0_r. reflexivity.
Qed.


(** X15. Deleting a conversation answers success exactly when it existed.
    Afterwards reading it is answered 404, every other conversation reads
    as before, and deleting it again is answered 404. Deleting an unknown
    conversation leaves the session map as it was. *)
Theorem deleteConversation_forgets (w : Chat.World) (i : jsstring) :
  let w' := snd (deleteConversation i w) in
  (fst (deleteConversation i w)
   = if bool_decide (is_Some (Chat.conversations w !! i))
     then DeleteJson "Conversation cleared successfully"
     else DeleteNext notFound)
  /\ getConversation i w' = ConversationNext notFound
  /\ (forall k, k <> i -> getConversation k w' = getConversation k w)
  /\ fst (deleteConversation i w') = DeleteNext notFound
  /\ (Chat.conversations w !! i = None ->
      Chat.conversations w' = Chat.conversations w).
Proof.
  cbv zeta. unfold deleteConversation, getConversation.
  destruct (bool_decide (is_Some (Chat.conversations w !! i))); simpl;
    rewrite !lookup_delete_eq;
    (split; [reflexivity|]); (split; [reflexivity|]);
    (split; [intros k Hk; rewrite lookup_delete_ne by congruence; reflexivity|]);
    (split; [rewrite bool_decide_eq_false_2; [reflexivity|intros [? ?]; discriminate]|]);
    intros Hnone; apply delete_id, Hnone.
Qed.

(** ** Sweeps *)

Lemma sweep_lookup_Some (now : Z) (m : gmap jsstring Chat.ConversationData)
    (k : jsstring) (c : Chat.ConversationData) :
  Chat.sweep now m !! k = Some c
  <-> m !! k = Some c /\ now - Chat.lastActivity c <= 24 * hour.
Proof.
  rewrite sweep_lookup. destruct (m !! k) as [c'|].
  - destruct (shouldCleanupConversation now (Chat.lastActivity c')) eqn:Hidle.
    + apply shouldCleanupConversation_iff in Hidle.
      split; [discriminate|]. intros [[= ->] H]. lia.
    + split.
      * intros [= ->]. split; [reflexivity|].
        destruct (Z.le_gt_cases (now - Chat.lastActivity c) (24 * hour)) as [H|H];
          [exact H|]. apply shouldCleanupConversation_iff in H. congruence.
      * intros [[= ->] _]. reflexivity.
  - split; [discriminate|]. intros [H _]. discriminate.
Qed.

(** X18. A sweep only removes entries, and a second sweep at the same
    instant removes nothing more. A later sweep removes at least as much,
    and sweeping twice, earlier and later, leaves what the later sweep
    alone leaves. *)
Theorem sweep_only_removes_and_settles
    (now later : Z) (m : gmap jsstring Chat.ConversationData) :
  Chat.sweep now m ⊆ m
  /\ Chat.sweep now (Chat.sweep now m) = Chat.sweep now m
  /\ (now <= later ->
      Chat.sweep later m ⊆ Chat.sweep now m
      /\ Chat.sweep later (Chat.sweep now m) = Chat.sweep later m).
Proof.
  split; [|split; [|intros Hle; split]].
  - apply map_subseteq_spec. intros k c Hk.
    apply sweep_lookup_Some in Hk. tauto.
  - apply map_eq. intros k. apply option_eq. intros c.
    rewrite !sweep_lookup_Some. tauto.
  - apply map_subseteq_spec. intros k c.
    rewrite !sweep_lookup_Some. intros [Hk H]. split; [exact Hk|lia].
  - apply map_eq. intros k. apply option_eq. intros c.
    rewrite !sweep_lookup_Some. split; [tauto|].
    intros [Hk H]. repeat split; [exact Hk|lia|exact H].
Qed.

Section Served.

Variable uuid : nat -> jsstring.
Variable clock : nat -> Z.
Variable chatCompletion : list Message -> Chat.Completion.
Variable chatCompletionStream : list Message -> Chat.StreamRun.

Import Chat.

(** X17. After a request with a valid message, answered or not, the
    conversation is stored with the last clock reading of the request as
    its last activity, and a sweep keeps it exactly when it runs at most 24
    hours after that reading. *)
Theorem served_conversation_survives_a_day (req : ChatRequest) (w : World) :
  valid (validateMessage (req_message req)) = true ->
  let w' := snd (handle uuid clock chatCompletion chatCompletionStream req w) in
  let cid := conversationOf uuid req w in
  exists final,
    conversations w' !! cid = Some final
    /\ lastActivity final = clock (pred (dateCalls w'))
    /\ forall now,
         sweep now (conversations w') !! cid = Some final
         <-> now - clock (pred (dateCalls w')) <= 24 * hour.
Proof.
  intros Hvalid. cbv zeta.
  destruct (handle_effect uuid clock chatCompletion chatCompletionStream req w Hvalid)
    as (seed & userMessage & final & _ & _ & _ & _ & Hconv & Hlast & _).
  cbv zeta in *. exists final. rewrite Hconv, lookup_insert_eq.
  split; [reflexivity|]. split; [exact Hlast|].
  intros now. rewrite sweep_lookup_Some, lookup_insert_eq, Hlast. tauto.
Qed.

Lemma systemPrompt_cost (seed : Message) :
  content seed = systemPrompt -> estimateTokens seed = 44.
Proof. intros H. unfold estimateTokens. rewrite H. reflexivity. Qed.

Lemma valid_message_length (content : jsstring) :
  valid (validateMessage content) = true ->
  Z.of_nat (length content) <= 10000.
Proof.
  rewrite validateMessage_cases.
  destruct (decide (content = [])); [discriminate|].
  destruct (decide (trim content = [])); [discriminate|].
  destruct (10000 <? Z.of_nat (length content)) eqn:H; [discriminate|].
  intros _. apply Z.ltb_ge, H.
Qed.

Lemma first_exchange_within_limits (seed userMessage : Message) (text : jsstring) :
  role seed = system -> content seed = systemPrompt ->
  role userMessage = user -> content userMessage = trim text ->
  valid (validateMessage text) = true ->
  trimConversation [seed; userMessage] = [seed; userMessage].
Proof.
  intros Hs Hprompt Hu Hcontent Hvalid.
  apply trimConversation_within, withinLimits_true. split.
  - simpl. apply notSystem_false in Hs. rewrite Hs.
    destruct (notSystem userMessage); simpl; unfold MAX_MESSAGES; lia.
  - rewrite !calculateTotalTokens_cons, (systemPrompt_cost _ Hprompt).
    rewrite estimateTokens_closed_form, Hcontent.
    pose proof (valid_message_length _ Hvalid).
    pose proof (trim_length text).
    change (calculateTotalTokens []) with 0. unfold MAX_TOKENS.
    Z.div_mod_to_equations. lia.
Qed.


(** X19. The reply names the stored turn. A JSON reply carries the
    identifier, text and time of the assistant turn stored last. An event
    stream is one chunk event per chunk, all with one message identifier,
    and one closing event: a done event whose full message is the
    concatenation of the chunks and the content of the assistant turn
    stored last, or the generic error event, the user turn being stored
    last. A failure handed to [next] carries no status, the user turn being
    stored last. *)
Theorem reply_matches_stored_turn (req : ChatRequest) (w : World) :
  valid (validateMessage (req_message req)) = true ->
  let run := handle uuid clock chatCompletion chatCompletionStream req w in
  let cid := conversationOf uuid req w in
  exists final,
    conversations (snd run) !! cid = Some final
    /\ match fst run with
       | Json response conversation messageId stamp =>
           conversation = cid
           /\ last (messages final)
              = Some {| id := messageId; role := assistant;
                        content := response; timestamp := stamp;
                        conversationId := Some cid |}
       | EventStream events =>
           exists messageId cs closing,
             events = List.map (fun c => ChunkEvent c messageId cid) cs
                      ++ [closing]
             /\ match closing with
                | DoneEvent messageId' conversation fullMessage =>
                    messageId' = messageId /\ conversation = cid
                    /\ fullMessage = concat cs
                    /\ exists a,
                         last (messages final) = Some a
                         /\ id a = messageId /\ role a = assistant
                         /\ content a = concat cs
                | ErrorEvent reason =>
                    reason = "Failed to generate response"%string
                    /\ exists u,
                         last (messages final) = Some u /\ role u = user
                         /\ content u = trim (req_message req)
                | ChunkEvent _ _ _ => False
                end
       | Next err =>
           statusCode err = None
           /\ exists u,
                last (messages final) = Some u /\ role u = user
                /\ content u = trim (req_message req)
       end.
Proof.
  intros Hvalid. cbv zeta.
  destruct (handle_effect uuid clock chatCompletion chatCompletionStream req w Hvalid)
    as (seed & userMessage & final & Hseed & Hprompt & Huser & Hcontent & Hconv
        & _ & _ & _ & _ & Hfinal).
  cbv zeta in *. exists final. rewrite Hconv, lookup_insert_eq.
  split; [reflexivity|].
  assert (last (trimConversation
                  (historyFound w (conversationOf uuid req w) seed ++ [userMessage]))
          = Some userMessage) as Hlast.
  { apply trimConversation_keeps_last. rewrite Huser. discriminate. }
  destruct (default false (req_stream req)).
  - destruct Hfinal as [messageId Hfinal]. destruct (thrown _).
    + destruct Hfinal as [-> ->]. do 3 eexists. split; [reflexivity|].
      split; [reflexivity|]. eauto.
    + destruct Hfinal as (stamp & -> & ->). do 3 eexists. split; [reflexivity|].
      repeat split. eexists. rewrite last_snoc. repeat split.
  - destruct (chatCompletion _).
    + destruct Hfinal as (messageId & stamp & -> & ->).
      split; [reflexivity|]. apply last_snoc.
    + destruct Hfinal as [-> ->]. split; [reflexivity|]. eauto.
Qed.

End Served.

Section ServiceFacts.

Variable apiKey : option jsstring.
Variable create : list (Role * jsstring) -> Api (list Choice).
Variable createStream : list (Role * jsstring) -> Api Stream.

Lemma chatCompletion_outcomes_aux (client : bool) (messages : list Message) :
  match fst (chatCompletion apiKey create client messages) with
  | Chat.Resolved response => response <> []
  | Chat.Rejected reason => reason = "Failed to generate response from AI"%string
  end.
Proof.
  unfold chatCompletion, getOpenAIClient.
  destruct client; [|destruct apiKey as [[|k ks]|]]; simpl; try reflexivity;
    (destruct (create _) as [choices|]; simpl; [|reflexivity]);
    (destruct (choices !! 0%nat ≫= choiceContent) as [[|c s]|]; simpl; discriminate).
Qed.

Lemma chatCompletionStream_outcomes_aux (client : bool) (messages : list Message) :
  Forall (fun chunk => chunk <> [])
    (Chat.chunks (fst (chatCompletionStream apiKey createStream client messages))).
Proof.
  unfold chatCompletionStream, getOpenAIClient.
  destruct client; [|destruct apiKey as [[|k ks]|]]; simpl; try constructor;
    (destruct (createStream _) as [stream|]; simpl; [|constructor]);
    apply Forall_forall; intros chunk Hin;
    apply list_elem_of_In, in_flat_map in Hin as ([[|c s]|] & _ & Hy);
    simpl in Hy; try destruct Hy as [<-|[]]; try destruct Hy; discriminate.
Qed.

(** X20. [chatCompletion] resolves to a non-empty text only, the fallback
    text standing in for a missing or empty one, and it rejects with the
    generic message only. Without a client and without an API key it
    rejects with that same message and creates no client. Its outcome
    depends on the roles and contents of the messages only. *)
Theorem chatCompletion_outcomes (client : bool) (messages : list Message) :
  match fst (chatCompletion apiKey create client messages) with
  | Chat.Resolved response => response <> []
  | Chat.Rejected reason => reason = "Failed to generate response from AI"%string
  end
  /\ (client = false -> (apiKey = None \/ apiKey = Some []) ->
      chatCompletion apiKey create client messages
      = (Chat.Rejected "Failed to generate response from AI", false))
  /\ (forall others,
        formatMessages others = formatMessages messages ->
        chatCompletion apiKey create client others
        = chatCompletion apiKey create client messages).
Proof.
  split; [apply chatCompletion_outcomes_aux|].
  unfold chatCompletion, getOpenAIClient. split.
  - intros -> [->| ->]; reflexivity.
  - intros others ->. reflexivity.
Qed.

Lemma concat_yielded (ds : list (option jsstring)) :
  concat (List.flat_map yielded ds) = concat (List.map deltaText ds).
Proof.
  induction ds as [|d ds IH]; [reflexivity|].
  destruct d as [[|c s]|]; simpl; rewrite IH; reflexivity.
Qed.

(** X21. [chatCompletionStream] yields non-empty chunks only, and it
    throws the generic streaming message or nothing. When the client could
    be had and the stream was opened, the chunks concatenate to the text of
    all the deltas received, and the generator throws exactly when the
    stream breaks. *)
Theorem chatCompletionStream_outcomes (client : bool) (messages : list Message) :
  let run := fst (chatCompletionStream apiKey createStream client messages) in
  Forall (fun chunk => chunk <> []) (Chat.chunks run)
  /\ (Chat.thrown run = None
      \/ Chat.thrown run
         = Some "Failed to generate streaming response from AI"%string)
  /\ (forall stream,
        (client = true \/ exists k ks, apiKey = Some (k :: ks)) ->
        createStream (formatMessages messages) = Returns stream ->
        concat (Chat.chunks run) = concat (List.map deltaText (deltas stream))
        /\ (Chat.thrown run = None <-> breaks stream = false)).
Proof.
  cbv zeta. split; [apply chatCompletionStream_outcomes_aux|].
  unfold chatCompletionStream, getOpenAIClient. split.
  - destruct client; [|destruct apiKey as [[|k ks]|]]; simpl; auto;
      (destruct (createStream _) as [stream|]; simpl; auto);
      destruct (breaks stream); auto.
  - intros stream Hclient ->.
    assert (getOpenAIClient apiKey client = Some true) as Hc.
    { unfold getOpenAIClient. destruct Hclient as [->|(k & ks & ->)];
        [reflexivity|destruct client; reflexivity]. }
    unfold getOpenAIClient in Hc. rewrite Hc. simpl.
    split; [apply concat_yielded|]. destruct (breaks stream); split; congruence.
Qed.


(** X22. With the completion service as provider, a JSON reply never
    carries an empty message; an error handed to [next] is either the
    validator's text with status 400 or "Failed to generate response from
    AI" without a status; and an event stream is chunk events with non-empty
    chunks followed by one closing event that is not a chunk event. *)
Theorem service_replies
    (uuid : nat -> jsstring) (clock : nat -> Z) (client : bool)
    (req : Chat.ChatRequest) (w : Chat.World) :
  match
    fst (Chat.handle uuid clock
           (fun ms => fst (chatCompletion apiKey create client ms))
           (fun ms => fst (chatCompletionStream apiKey createStream client ms))
           req w)
  with
  | Chat.Json response _ _ _ => response <> []
  | Chat.EventStream events =>
      exists written closing,
        events = written ++ [closing]
        /\ Forall (fun e => exists chunk i c,
                              e = Chat.ChunkEvent chunk i c /\ chunk <> [])
             written
        /\ match closing with
           | Chat.ChunkEvent _ _ _ => False
           | _ => True
           end
  | Chat.Next err =>
      (Chat.statusCode err = Some 400
       /\ error (validateMessage (Chat.req_message req))
          = Some (Chat.message err))
      \/ (Chat.statusCode err = None
          /\ Chat.message err = "Failed to generate response from AI"%string)
  end.
Proof.
  set (provider := fun ms => fst (chatCompletion apiKey create client ms)).
  set (streamer := fun ms => fst (chatCompletionStream apiKey createStream client ms)).
  destruct (valid (validateMessage (Chat.req_message req))) eqn:Hvalid.
  2:{ destruct (invalid_request_has_no_effect_aux uuid clock provider streamer
                  req w Hvalid) as (reason & Herror & ->).
      simpl. left. split; [reflexivity|exact Herror]. }
  destruct (handle_effect uuid clock provider streamer req w Hvalid)
    as (seed & userMessage & final & _ & _ & _ & _ & _ & _ & _ & _ & _ & Hfinal).
  cbv zeta in Hfinal.
  set (payload := trimConversation _) in Hfinal.
  destruct (default false (Chat.req_stream req)).
  - destruct Hfinal as [messageId Hfinal].
    pose proof (chatCompletionStream_outcomes_aux client payload) as Hchunks.
    fold (streamer payload) in Hchunks.
    assert (Forall (fun e => exists chunk i c,
                        e = Chat.ChunkEvent chunk i c /\ chunk <> [])
              (Chat.chunkEvents messageId (conversationOf uuid req w)
                 (Chat.chunks (streamer payload)))) as Hwritten.
    { unfold Chat.chunkEvents. apply Forall_fmap.
      eapply Forall_impl; [exact Hchunks|]. simpl. eauto. }
    destruct (Chat.thrown (streamer payload)).
    + destruct Hfinal as [_ ->]. do 2 eexists. split; [reflexivity|].
      split; [exact Hwritten|exact I].
    + destruct Hfinal as (stamp & _ & ->). do 2 eexists. split; [reflexivity|].
      split; [exact Hwritten|exact I].
  - pose proof (chatCompletion_outcomes_aux client payload) as Hout.
    fold (provider payload) in Hout.
    destruct (provider payload) as [response|reason].
    + destruct Hfinal as (messageId & stamp & _ & ->). exact Hout.
    + destruct Hfinal as [_ ->]. simpl. right. split; [reflexivity|exact Hout].
Qed.

End ServiceFacts.

Section RateLimit.

Import ClientRateLimit.

Example rate_ex :
  fst (requests [0; 1; 2; 3; 59999; 60000; 60001] (new 3 60000))
  = [(0, true); (1, true); (2, true); (3, false); (59999, false);
     (60000, true); (60001, true)]
  /\ getTimeUntilReset 3 (snd (requests [0; 1; 2; 3] (new 3 60000))) = 59997.
Proof. vm_compute. split; reflexivity. Qed.

(** ** The rate limit *)

Lemma canMakeRequest_settings (now : Z) (r : t) :
  maxRequests (snd (canMakeRequest now r)) = maxRequests r
  /\ windowMs (snd (canMakeRequest now r)) = windowMs r.
Proof.
  unfold canMakeRequest. destruct (_ >=? _); split; reflexivity.
Qed.

Lemma filter_length_le {A} (f : A -> bool) (l : list A) :
  (length (List.filter f l) <= length l)%nat.
Proof.
  induction l as [|x l IH]; simpl; [lia|]. destruct (f x); simpl; lia.
Qed.

Lemma canMakeRequest_bound (now : Z) (r : t) :
  Z.of_nat (length (timestamps r)) <= Z.max 0 (maxRequests r) ->
  Z.of_nat (length (timestamps (snd (canMakeRequest now r))))
  <= Z.max 0 (maxRequests r).
Proof.
  intros Hinv. unfold canMakeRequest.
  pose proof (filter_length_le (fun timestamp => now - timestamp <? windowMs r)
                (timestamps r)) as Hle.
  destruct (_ >=? _) eqn:Hfull; simpl.
  - lia.
  - rewrite length_app. simpl. rewrite Z.geb_leb in Hfull.
    apply Z.leb_gt in Hfull. lia.
Qed.

Lemma canMakeRequest_recent (now : Z) (r : t) :
  0 < windowMs r ->
  Forall (fun g => now - g < windowMs r)
    (timestamps (snd (canMakeRequest now r))).
Proof.
  intros Hw. unfold canMakeRequest.
  assert (Forall (fun g => now - g < windowMs r)
            (List.filter (fun timestamp => now - timestamp <? windowMs r)
               (timestamps r))) as Hkept.
  { apply List.Forall_forall. intros g Hg.
    apply List.filter_In in Hg as [_ Hg]. apply Z.ltb_lt, Hg. }
  destruct (_ >=? _); simpl; [exact Hkept|].
  apply Forall_app. split; [exact Hkept|]. repeat constructor. lia.
Qed.

(** X23. The rate limit never remembers more time stamps than the limit
    (none for a limit below zero) and never changes its settings; after a
    series of calls, every remembered time stamp is less than a window
    older than the last call. *)
Theorem rate_limit_memory_bound (times : list Z) (limit window : Z) :
  0 < window ->
  let r := snd (requests times (new limit window)) in
  Z.of_nat (length (timestamps r)) <= Z.max 0 limit
  /\ maxRequests r = limit /\ windowMs r = window
  /\ (forall latest, last times = Some latest ->
        Forall (fun g => latest - g < window) (timestamps r)).
Proof.
  intros Hw. cbv zeta.
  assert (forall r0,
             maxRequests r0 = limit -> windowMs r0 = window ->
             Z.of_nat (length (timestamps r0)) <= Z.max 0 limit ->
             let r := snd (requests times r0) in
             Z.of_nat (length (timestamps r)) <= Z.max 0 limit
             /\ maxRequests r = limit /\ windowMs r = window
             /\ (forall latest, last times = Some latest ->
                   Forall (fun g => latest - g < window) (timestamps r)))
    as Hgen.
  { induction times as [|now later IH]; intros r0 Hm Hwin Hinv.
    - simpl. repeat split; try assumption. discriminate.
    - pose proof (canMakeRequest_settings now r0) as [Hm' Hwin'].
      pose proof (canMakeRequest_bound now r0) as Hb.
      pose proof (canMakeRequest_recent now r0) as Hrecent.
      rewrite Hm in *. rewrite Hwin in *.
      specialize (IH (snd (canMakeRequest now r0)) Hm' Hwin' (Hb Hinv)).
      assert (snd (requests (now :: later) r0)
              = snd (requests later (snd (canMakeRequest now r0)))) as ->.
      { simpl. destruct (canMakeRequest now r0) as [granted r1].
        simpl. destruct (requests later r1). reflexivity. }
      cbv zeta in IH. destruct IH as (H1 & H2 & H3 & H4).
      repeat split; try assumption.
      intros latest Hlast. destruct later as [|next later'].
      + simpl in *. injection Hlast as <-. apply Hrecent, Hw.
      + apply H4. exact Hlast. }
  apply Hgen; try reflexivity. simpl. lia.
Qed.

Lemma requests_cons (now : Z) (later : list Z) (r : t) :
  fst (requests (now :: later) r)
  = (now, fst (canMakeRequest now r))
      :: fst (requests later (snd (canMakeRequest now r))).
Proof.
  simpl. destruct (canMakeRequest now r) as [granted r1].
  simpl. destruct (requests later r1). reflexivity.
Qed.

Lemma filter_window_narrows (G : list Z) (older now window : Z) :
  older <= now ->
  List.filter (fun g => now - g <? window)
    (List.filter (fun g => older - g <? window) G)
  = List.filter (fun g => now - g <? window) G.
Proof.
  intros Hle. induction G as [|g G IH]; simpl; [reflexivity|].
  destruct (older - g <? window) eqn:Ho; simpl.
  - rewrite IH. reflexivity.
  - rewrite IH. destruct (now - g <? window) eqn:Hn; [|reflexivity].
    apply Z.ltb_lt in Hn. apply Z.ltb_ge in Ho. lia.
Qed.

(** The memory of the limiter along a series of calls in time order: the
    grants so far that are less than a window old. *)
Lemma requests_grants (times : list Z) (r : t) (G : list Z) (older : Z) :
  0 < windowMs r ->
  timestamps r = List.filter (fun g => older - g <? windowMs r) G ->
  StronglySorted Z.le (older :: times) ->
  forall i now,
    fst (requests times r) !! i = Some (now, true) ->
    Z.of_nat
      (length
         (List.filter (fun g => now - g <? windowMs r)
            (G ++ grantedTimes (take (S i) (fst (requests times r))))))
    <= maxRequests r.
Proof.
  revert r G older.
  induction times as [|t0 later IH]; intros r G older Hw Hmem Hsorted i now Hi;
    [discriminate|].
  rewrite requests_cons in *.
  apply StronglySorted_inv in Hsorted as [Hlater Holder].
  apply Forall_cons in Holder as [Hle Holder].
  assert (List.filter (fun g => t0 - g <? windowMs r) (timestamps r)
          = List.filter (fun g => t0 - g <? windowMs r) G) as Hkept.
  { rewrite Hmem. apply filter_window_narrows, Hle. }
  pose proof (canMakeRequest_settings t0 r) as [Hm' Hw'].
  assert (timestamps (snd (canMakeRequest t0 r))
          = List.filter (fun g => t0 - g <? windowMs r)
              (G ++ if fst (canMakeRequest t0 r) then [t0] else [])) as Hmem'.
  { unfold canMakeRequest. rewrite Hkept. destruct (_ >=? _); simpl.
    - rewrite app_nil_r. reflexivity.
    - rewrite List.filter_app. simpl.
      replace (t0 - t0 <? windowMs r) with true
        by (symmetry; apply Z.ltb_lt; lia).
      reflexivity. }
  destruct i as [|j].
  - simpl in Hi. injection Hi as -> Hgranted.
    rewrite Hgranted in Hmem' |- *.
    simpl take. unfold grantedTimes. simpl.
    rewrite <- Hmem'. unfold canMakeRequest in *. rewrite Hkept in *.
    destruct (_ >=? _) eqn:Hfull; [discriminate|]. simpl.
    rewrite Z.geb_leb in Hfull. apply Z.leb_gt in Hfull.
    rewrite length_app. simpl. lia.
  - simpl in Hi.
    specialize (IH (snd (canMakeRequest t0 r))
                  (G ++ if fst (canMakeRequest t0 r) then [t0] else []) t0).
    rewrite Hw', Hm' in IH. specialize (IH Hw Hmem').
    assert (StronglySorted Z.le (t0 :: later)) as Hsorted'.
    { apply StronglySorted_inv in Hlater as [Hs Hall]. constructor; assumption. }
    specialize (IH Hsorted' j now Hi).
    replace (G ++ grantedTimes
               (take (S (S j))
                  ((t0, fst (canMakeRequest t0 r))
                     :: fst (requests later (snd (canMakeRequest t0 r))))))
      with ((G ++ (if fst (canMakeRequest t0 r) then [t0] else []))
              ++ grantedTimes
                   (take (S j) (fst (requests later (snd (canMakeRequest t0 r))))));
      [exact IH|].
    rewrite <- app_assoc. f_equal. unfold grantedTimes. simpl.
    destruct (fst (canMakeRequest t0 r)); reflexivity.
Qed.

(** X24. For calls in the order of time, every granted request has at
    most [maxRequests] granted requests, itself included, in the window
    that ends with it. *)
Theorem rate_limit_caps_each_window (times : list Z) (limit window : Z) :
  0 < window ->
  StronglySorted Z.le times ->
  let answers := fst (requests times (new limit window)) in
  forall i now,
    answers !! i = Some (now, true) ->
    Z.of_nat
      (length (List.filter (fun g => now - g <? window)
                 (grantedTimes (take (S i) answers))))
    <= limit.
Proof.
  intros Hw Hsorted. cbv zeta. intros i now Hi.
  destruct times as [|t0 later]; [discriminate|].
  apply (requests_grants (t0 :: later) (new limit window) [] t0 Hw);
    [reflexivity| |exact Hi].
  constructor; [exact Hsorted|]. constructor; [lia|].
  apply StronglySorted_inv in Hsorted as [_ H]. exact H.
Qed.

Lemma minimum_spec (first : Z) (others : list Z) :
  In (minimum first others) (first :: others)
  /\ Forall (fun g => minimum first others <= g) (first :: others).
Proof.
  unfold minimum. revert first.
  induction others as [|x others IH]; intros first; simpl.
  - split; [left; reflexivity|]. repeat constructor. lia.
  - destruct (IH (Z.min first x)) as [Hin Hall]. split.
    + destruct Hin as [Hin|Hin]; [|right; right; exact Hin].
      rewrite <- Hin. destruct (Z.min_spec first x) as [[_ ->]|[_ ->]]; auto.
    + apply Forall_cons in Hall as [Hmin Hall].
      repeat (apply Forall_cons; split); try exact Hall; lia.
Qed.

Lemma filter_drops_one {A} (f : A -> bool) (l : list A) (x : A) :
  In x l -> f x = false -> (length (List.filter f l) < length l)%nat.
Proof.
  intros Hin Hx. induction l as [|y l IH]; [destruct Hin|].
  simpl. destruct Hin as [->|Hin].
  - rewrite Hx. pose proof (filter_length_le f l). lia.
  - specialize (IH Hin). destruct (f y); simpl; lia.
Qed.

Lemma filter_keeps_all {A} (f : A -> bool) (l : list A) :
  Forall (fun x => f x = true) l -> List.filter f l = l.
Proof.
  induction 1 as [|x l Hx _ IH]; simpl; [reflexivity|].
  rewrite Hx, IH. reflexivity.
Qed.

(** X25. After a refusal, with a limit of at least one that the memory
    respects, the time until reset is positive, every request before it has
    passed is refused as well, and a request made exactly then is
    granted. *)
Theorem refused_until_reset (now : Z) (r : t) :
  1 <= maxRequests r ->
  Z.of_nat (length (timestamps r)) <= maxRequests r ->
  fst (canMakeRequest now r) = false ->
  let r' := snd (canMakeRequest now r) in
  let wait := getTimeUntilReset now r' in
  0 < wait
  /\ (forall t, now <= t < now + wait -> fst (canMakeRequest t r') = false)
  /\ fst (canMakeRequest (now + wait) r') = true.
Proof.
  intros Hlimit Hinv Hrefused. cbv zeta.
  set (kept := List.filter (fun timestamp => now - timestamp <? windowMs r)
                 (timestamps r)).
  assert (canMakeRequest now r
          = (false, {| timestamps := kept; maxRequests := maxRequests r;
                       windowMs := windowMs r |})
          /\ maxRequests r <= Z.of_nat (length kept)) as [Hrun Hfull].
  { unfold canMakeRequest in *. fold kept in Hrefused |- *.
    destruct (Z.of_nat (length kept) >=? maxRequests r) eqn:Hfull;
      [|discriminate].
    split; [reflexivity|]. rewrite Z.geb_leb in Hfull. apply Z.leb_le, Hfull. }
  rewrite Hrun. clear Hrun Hrefused. cbn [snd].
  pose proof (filter_length_le (fun timestamp => now - timestamp <? windowMs r)
                (timestamps r)) as Hle. fold kept in Hle.
  assert (Forall (fun g => now - g < windowMs r) kept) as Hrecent.
  { apply List.Forall_forall. intros g Hg.
    apply List.filter_In in Hg as [_ Hg]. apply Z.ltb_lt, Hg. }
  unfold getTimeUntilReset. simpl timestamps. simpl windowMs.
  clearbody kept. destruct kept as [|first others]; [simpl in Hfull; lia|].
  destruct (minimum_spec first others) as [Hin Hmin].
  remember (minimum first others) as oldest eqn:Holdest in *.
  rewrite List.Forall_forall in Hrecent. pose proof (Hrecent oldest Hin) as Hold.
  rewrite Z.max_r by lia.
  split; [lia|]. split.
  - intros t Ht. unfold canMakeRequest. cbn [timestamps windowMs maxRequests].
    rewrite (filter_keeps_all _ (first :: others)).
    + destruct (_ >=? _) eqn:H; [reflexivity|].
      rewrite Z.geb_leb in H. apply Z.leb_gt in H. lia.
    + eapply Forall_impl; [exact Hmin|]. simpl. intros g Hg.
      apply Z.ltb_lt. lia.
  - unfold canMakeRequest. cbn [timestamps windowMs maxRequests].
    assert (length (List.filter
                      (fun timestamp =>
                         (now + (oldest + windowMs r - now) - timestamp
                          <? windowMs r)%Z) (first :: others))
            < length (first :: others))%nat as Hdrop.
    { apply (filter_drops_one _ _ oldest Hin). apply Z.ltb_ge. lia. }
    destruct (_ >=? _) eqn:H; [|reflexivity].
    rewrite Z.geb_leb in H. apply Z.leb_le in H. lia.
Qed.

Lemma rate_limit_memory_bound_witness :
  let r := snd (requests [0; 1; 2; 3; 60001] (new 3 60000)) in
  Z.of_nat (length (timestamps r)) <= Z.max 0 3
  /\ maxRequests r = 3 /\ windowMs r = 60000
  /\ (forall latest, last [0; 1; 2; 3; 60001] = Some latest ->
        Forall (fun g => latest - g < 60000) (timestamps r)).
Proof.
  apply (rate_limit_memory_bound [0; 1; 2; 3; 60001] 3 60000). reflexivity.
Defined.

(** The request granted at 60000 is the third of its window. *)
Lemma rate_limit_caps_each_window_witness :
  let answers :=
    fst (requests [0; 1; 2; 3; 59999; 60000; 60001] (new 3 60000)) in
  answers !! 5%nat = Some (60000, true)
  /\ Z.of_nat
       (length (List.filter (fun g => 60000 - g <? 60000)
                  (grantedTimes (take 6 answers))))
     <= 3.
Proof.
  split; [reflexivity|].
  apply (rate_limit_caps_each_window [0; 1; 2; 3; 59999; 60000; 60001] 3 60000).
  - reflexivity.
  - repeat constructor; lia.
  - reflexivity.
Defined.

Lemma refused_until_reset_witness :
  let r := snd (requests [0; 1; 2] (new 3 60000)) in
  let r' := snd (canMakeRequest 3 r) in
  let wait := getTimeUntilReset 3 r' in
  0 < wait
  /\ (forall t, 3 <= t < 3 + wait -> fst (canMakeRequest t r') = false)
  /\ fst (canMakeRequest (3 + wait) r') = true.
Proof.
  apply (refused_until_reset 3 (snd (requests [0; 1; 2] (new 3 60000)))).
  - vm_compute. discriminate.
  - vm_compute. discriminate.
  - reflexivity.
Defined.

End RateLimit.

Example frontend_ex :
  Frontend.sanitizeInput (js "a<b> & 'c'/") = js "a&lt;b&gt; &amp; &#x27;c&#x27;&#x2F;"
  /\ Frontend.error (Frontend.validateMessage (repeat 97%N 51))
     = Some "Message contains too many repeated characters"%string
  /\ Frontend.valid (Frontend.validateMessage (repeat 97%N 50)) = true
  /\ Frontend.error (Frontend.validateMessage (js "<IFRAME src=x>"))
     = Some "Message contains potentially unsafe content"%string
  /\ Frontend.sent (js "  hi/there ") = Some (js "hi&#x2F;there").
Proof. vm_compute. repeat split. Qed.

(** ** Text trimming *)

Lemma trimStart_stops (s : jsstring) : stopsAt isWhiteSpace (trimStart s).
Proof.
  induction s as [|c s IH]; simpl; [exact I|].
  destruct (isWhiteSpace c) eqn:Hc; [exact IH|exact Hc].
Qed.

Lemma trimStart_fixed (s : jsstring) :
  stopsAt isWhiteSpace s -> trimStart s = s.
Proof. destruct s as [|c s]; simpl; [reflexivity|]. intros ->. reflexivity. Qed.

Lemma trimStart_suffix (s : jsstring) : trimStart s `suffix_of` s.
Proof.
  induction s as [|c s IH]; simpl; [reflexivity|].
  destruct (isWhiteSpace c); [apply suffix_cons_r, IH|reflexivity].
Qed.

Lemma trimStart_nil (s : jsstring) : trimStart s = [] <-> Blanks s.
Proof.
  unfold Blanks. induction s as [|c s IH]; simpl.
  - split; [constructor|reflexivity].
  - destruct (isWhiteSpace c) eqn:Hc.
    + rewrite IH. split; [constructor; assumption|].
      intros H. inversion H; assumption.
    + split; [discriminate|]. intros H. inversion H; congruence.
Qed.

Lemma stopsAt_rev_suffix (a b : jsstring) :
  stopsAt isWhiteSpace a -> b `suffix_of` rev a -> b <> [] ->
  stopsAt isWhiteSpace (rev b).
Proof.
  intros Ha [pre Hb] Hne.
  assert (a = rev b ++ rev pre) as ->.
  { rewrite <- (rev_involutive a), Hb, rev_app_distr. reflexivity. }
  destruct (rev b) as [|c t] eqn:Hr; [|exact Ha].
  exfalso. apply Hne. rewrite <- (rev_involutive b), Hr. reflexivity.
Qed.

Lemma trim_idempotent_text (s : jsstring) : trim (trim s) = trim s.
Proof.
  unfold trim, trimEnd.
  set (a := trimStart s). set (b := trimStart (rev a)).
  assert (stopsAt isWhiteSpace (rev b)) as Hrb.
  { destruct (decide (b = [])) as [->|Hne]; [exact I|].
    apply (stopsAt_rev_suffix a); [apply trimStart_stops|apply trimStart_suffix|exact Hne]. }
  rewrite (trimStart_fixed (rev b) Hrb), rev_involutive.
  rewrite (trimStart_fixed b) by apply trimStart_stops. reflexivity.
Qed.

Lemma trim_nil (s : jsstring) : trim s = [] <-> Blanks s.
Proof.
  unfold trim, trimEnd. split.
  - intros H. apply trimStart_nil.
    pose proof (trimStart_stops s) as Hstop.
    destruct (trimStart s) as [|c t]; [reflexivity|]. exfalso.
    assert (trimStart (rev (c :: t)) = []) as Hnil.
    { rewrite <- (rev_involutive (trimStart _)), H. reflexivity. }
    apply trimStart_nil in Hnil. unfold Blanks in Hnil.
    apply Forall_rev in Hnil. rewrite rev_involutive in Hnil.
    inversion Hnil as [|? ? Hc _]; subst. simpl in Hstop. congruence.
  - intros H. apply trimStart_nil in H. rewrite H. reflexivity.
Qed.

(** X9. The error "must be a non-empty string" is reported for the empty
    string only, and "Message cannot be empty" exactly for a non-empty text
    made of white space only, whatever its length. *)
Theorem validateMessage_blank_iff (content : jsstring) :
  (error (validateMessage content)
   = Some "Message content must be a non-empty string"%string
   <-> content = [])
  /\ (error (validateMessage content) = Some "Message cannot be empty"%string
      <-> content <> [] /\ Blanks content).
Proof.
  rewrite validateMessage_cases, <- trim_nil.
  destruct (decide (content = [])) as [->|Hne].
  { simpl. split; split; try reflexivity; try discriminate. intros [H _]. congruence. }
  destruct (decide (trim content = [])) as [Hblank|Hne'].
  { simpl. split; split; try discriminate; try congruence. intros _. split; assumption. }
  destruct (10000 <? Z.of_nat (length content)).
  { simpl. unfold tooLong. split; split; try discriminate; try congruence. tauto. }
  destruct (existsb _ maliciousPatterns); simpl; unfold unsafe;
    split; split; try discriminate; try congruence; tauto.
Qed.

(** ** The sanitizer *)

Lemma flat_map_flat_map {A B C} (f : B -> list C) (g : A -> list B) (l : list A) :
  List.flat_map f (List.flat_map g l)
  = List.flat_map (fun x => List.flat_map f (g x)) l.
Proof.
  induction l as [|x l IH]; simpl; [reflexivity|].
  rewrite List.flat_map_app, IH. reflexivity.
Qed.

Lemma flat_map_pointwise {A B} (f g : A -> list B) (l : list A) :
  (forall x, f x = g x) -> List.flat_map f l = List.flat_map g l.
Proof.
  intros H. induction l as [|x l IH]; simpl; [reflexivity|].
  rewrite H, IH. reflexivity.
Qed.

(** The six replacements in a row encode each character once. *)
Lemma sanitizeInput_encode (input : jsstring) :
  Frontend.sanitizeInput input
  = List.flat_map encode
      (List.filter (fun c => negb (Frontend.isControl c)) input).
Proof.
  unfold Frontend.sanitizeInput, Frontend.replaceChar.
  rewrite !flat_map_flat_map. apply flat_map_pointwise. intros x.
  unfold encode.
  destruct (N.eqb_spec x 38) as [->|H38]; [reflexivity|].
  destruct (N.eqb_spec x 60) as [->|H60]; [reflexivity|].
  destruct (N.eqb_spec x 62) as [->|H62]; [reflexivity|].
  destruct (N.eqb_spec x 34) as [->|H34]; [reflexivity|].
  destruct (N.eqb_spec x 39) as [->|H39]; [reflexivity|].
  destruct (N.eqb_spec x 47) as [->|H47]; [reflexivity|].
  simpl. rewrite !app_nil_r.
  repeat match goal with
         | |- context [(x =? ?c)%N] =>
             destruct (N.eqb_spec x c); [congruence|]; simpl; rewrite ?app_nil_r
         end.
  reflexivity.
Qed.

Lemma encode_plain (c : N) :
  Frontend.isControl c = false -> forallb plain (encode c) = true.
Proof.
  intros Hc. unfold encode.
  repeat match goal with
         | |- context [(c =? ?k)%N] =>
             destruct (N.eqb_spec c k); [reflexivity|]
         end.
  simpl. unfold plain. rewrite Hc. simpl.
  repeat match goal with
         | |- context [(c =? ?k)%N] =>
             destruct (N.eqb_spec c k); [congruence|]
         end.
  reflexivity.
Qed.

Lemma encode_length (c : N) : (1 <= length (encode c) <= 6)%nat.
Proof.
  unfold encode.
  repeat match goal with
         | |- context [(c =? ?k)%N] => destruct (c =? k)%N; [simpl; lia|]
         end.
  simpl. lia.
Qed.

Lemma sanitizeInput_plain (input : jsstring) :
  forallb plain (Frontend.sanitizeInput input) = true.
Proof.
  rewrite sanitizeInput_encode.
  induction input as [|c s IH]; simpl; [reflexivity|].
  destruct (Frontend.isControl c) eqn:Hc; simpl; [exact IH|].
  rewrite forallb_app, IH, (encode_plain c Hc). reflexivity.
Qed.

Lemma sanitizeInput_leaves_no_markup_aux (input : jsstring) :
  Forall (fun c => Frontend.isControl c = false /\ isMarkup c = false) input ->
  Frontend.sanitizeInput input = input.
Proof.
  intros Hclean. rewrite sanitizeInput_encode.
  induction Hclean as [|c s [Hctl Hmark] _ IH]; simpl; [reflexivity|].
  rewrite Hctl. simpl. rewrite IH. unfold isMarkup in Hmark.
  rewrite !orb_false_iff in Hmark. unfold encode.
  destruct Hmark as [[[[[-> ->] ->] ->] ->] ->]. reflexivity.
Qed.

(** X26. The output of [sanitizeInput] contains no control character and
    none of the characters less-than, greater-than, double quote, single
    quote and slash; it is at most six times as long as the input; and a
    text without control characters, ampersands and those five characters
    is returned unchanged. *)
Theorem sanitizeInput_leaves_no_markup (input : jsstring) :
  Forall (fun c => Frontend.isControl c = false
                   /\ c <> 60%N /\ c <> 62%N /\ c <> 34%N /\ c <> 39%N
                   /\ c <> 47%N)
    (Frontend.sanitizeInput input)
  /\ (length (Frontend.sanitizeInput input) <= 6 * length input)%nat
  /\ (Forall (fun c => Frontend.isControl c = false /\ isMarkup c = false) input ->
      Frontend.sanitizeInput input = input).
Proof.
  split; [|split].
  - pose proof (sanitizeInput_plain input) as H.
    rewrite List.forallb_forall in H. apply List.Forall_forall. intros c Hc.
    specialize (H c Hc). unfold plain in H.
    apply andb_true_iff in H as [Hctl Hmark].
    apply negb_true_iff in Hctl, Hmark.
    rewrite !orb_false_iff, !N.eqb_neq in Hmark. tauto.
  - rewrite sanitizeInput_encode.
    induction input as [|c s IH]; simpl; [lia|].
    destruct (Frontend.isControl c); simpl; [lia|].
    rewrite length_app. pose proof (encode_length c). lia.
  - apply sanitizeInput_leaves_no_markup_aux.
Qed.

(** ** The two validators *)

Lemma frontend_validateMessage_cases (content : jsstring) :
  Frontend.validateMessage content =
  if decide (trim content = []) then
    Frontend.invalid "Message cannot be empty"
  else if (10000 <? Z.of_nat (length (trim content))) then
    Frontend.invalid "Message is too long (maximum 10,000 characters)"
  else if existsb (fun pattern => test pattern (trim content))
            Frontend.suspiciousPatterns
  then Frontend.invalid "Message contains potentially unsafe content"
  else if test Frontend.matchRepeated (trim content) then
    Frontend.invalid "Message contains too many repeated characters"
  else {| Frontend.valid := true; Frontend.error := None;
          Frontend.sanitizedContent :=
            Some (Frontend.sanitizeInput (trim content)) |}.
Proof.
  unfold Frontend.validateMessage.
  destruct (decide (trim content = [])) as [Hblank|Hne].
  - rewrite Hblank. simpl. destruct (Z.of_nat (length content) =? 0); reflexivity.
  - assert ((Z.of_nat (length content) =? 0) = false) as ->.
    { apply Z.eqb_neq. destruct content; [|simpl; lia].
      exfalso. apply Hne. reflexivity. }
    assert ((Z.of_nat (length (trim content)) =? 0) = false) as ->.
    { apply Z.eqb_neq. destruct (trim content); [congruence|simpl; lia]. }
    assert ((Z.of_nat (length (trim content)) <? 1) = false) as ->.
    { apply Z.ltb_ge. destruct (trim content); [congruence|simpl; lia]. }
    reflexivity.
Qed.

(** X29. The validator of the input area reports "too long" exactly when
    the trimmed text has more than 10000 code units. *)
Theorem frontend_too_long_iff (content : jsstring) :
  Frontend.error (Frontend.validateMessage content) = Some tooLong
  <-> 10000 < Z.of_nat (length (trim content)).
Proof.
  rewrite frontend_validateMessage_cases.
  destruct (decide (trim content = [])) as [Hblank|Hne].
  { rewrite Hblank. simpl. split; [discriminate|lia]. }
  destruct (10000 <? Z.of_nat (length (trim content))) eqn:Hlen.
  { apply Z.ltb_lt in Hlen. simpl. unfold tooLong. tauto. }
  apply Z.ltb_ge in Hlen.
  destruct (existsb _ Frontend.suspiciousPatterns);
    [simpl; split; [discriminate|lia]|].
  destruct (test Frontend.matchRepeated (trim content)); simpl;
    (split; [discriminate|lia]).
Qed.

Lemma sent_Some (message c : jsstring) :
  Frontend.sent message = Some c ->
  c = Frontend.sanitizeInput (trim message)
  /\ c <> []
  /\ trim message <> []
  /\ Z.of_nat (length (trim message)) <= 10000
  /\ existsb (fun pattern => test pattern (trim message))
       Frontend.suspiciousPatterns = false.
Proof.
  unfold Frontend.sent. rewrite frontend_validateMessage_cases.
  destruct (decide (trim message = [])) as [Hblank|Hne]; [discriminate|].
  destruct (10000 <? Z.of_nat (length (trim message))) eqn:Hlen; [discriminate|].
  apply Z.ltb_ge in Hlen.
  destruct (existsb _ Frontend.suspiciousPatterns) eqn:Hpat; [discriminate|].
  destruct (test Frontend.matchRepeated (trim message)); [discriminate|].
  simpl. destruct (Frontend.sanitizeInput (trim message)) as [|x s]; [discriminate|].
  intros [= <-]. repeat split; try assumption. discriminate.
Qed.

(** X27. What the input area sends is the sanitized form of the trimmed
    message; it is not empty, contains no less-than sign and therefore no
    script tag in the sense of the server's validator. *)
Theorem sent_message_has_no_script_tag (message c : jsstring) :
  Frontend.sent message = Some c ->
  c = Frontend.sanitizeInput (trim message)
  /\ c <> []
  /\ ~ In 60%N c
  /\ ~ HasScriptTag c.
Proof.
  intros Hsent. apply sent_Some in Hsent as (-> & Hne & _).
  split; [reflexivity|]. split; [exact Hne|].
  assert (~ In 60%N (Frontend.sanitizeInput (trim message))) as Hlt.
  { intros Hin. pose proof (sanitizeInput_plain (trim message)) as H.
    rewrite List.forallb_forall in H. specialize (H _ Hin). discriminate. }
  split; [exact Hlt|].
  intros (pre & v & post & Heq & Hv & _). apply Hlt. rewrite Heq.
  unfold Spells in Hv. simpl in Hv.
  inversion Hv as [|p x lit v' Hx _]; subst.
  apply in_or_app. right. left.
  destruct Hx as [->|(Hlow & _)]; [reflexivity|lia].
Qed.

(** X28. A message whose trimmed text has no control character, no
    ampersand and none of the five encoded characters is sent as its
    trimmed text when the input area accepts it, and the server's validator
    accepts what is sent. *)
Theorem plain_message_passes_both_validators (message c : jsstring) :
  Frontend.sent message = Some c ->
  Forall (fun x => Frontend.isControl x = false /\ isMarkup x = false)
    (trim message) ->
  c = trim message
  /\ validateMessage c = {| valid := true; error := None |}.
Proof.
  intros Hsent Hplain.
  apply sent_Some in Hsent as (-> & _ & Hne & Hlen & Hpat).
  rewrite (sanitizeInput_leaves_no_markup_aux (trim message) Hplain). split; [reflexivity|].
  rewrite validateMessage_cases, trim_idempotent_text.
  destruct (decide (trim message = [])); [contradiction|].
  assert ((10000 <? Z.of_nat (length (trim message))) = false) as ->
    by (apply Z.ltb_ge; exact Hlen).
  assert (existsb (fun pattern => test pattern (trim message)) maliciousPatterns
          = false) as ->; [|reflexivity].
  unfold Frontend.suspiciousPatterns in Hpat. simpl in Hpat.
  rewrite !orb_false_iff in Hpat.
  destruct Hpat as (Hjs & Hscript & _ & _ & _ & Hhandler & Heval & _).
  unfold maliciousPatterns. simpl.
  change (test matchScript (trim message))
    with (test (Frontend.matchTag "<script") (trim message)).
  change (test matchEval (trim message))
    with (test (Frontend.matchCall "eval") (trim message)).
  rewrite Hjs, Hscript, Hhandler, Heval. reflexivity.
Qed.

(** ** Sample runs of the properties *)

Lemma trim_keeps_most_recent_turns_witness :
  List.filter notSystem (trimConversation (pinned :: dialogue 1 31 2))
    `suffix_of` List.filter notSystem (pinned :: dialogue 1 31 2).
Proof.
  apply trim_keeps_most_recent_turns.
  exists pinned. split; [left; reflexivity|reflexivity].
Defined.

(** Without a system turn the loop pins the oldest turn of the window
    instead, and the turns kept are no longer the most recent ones. *)
Example trim_without_system_turn :
  trimConversation [turn user 1 9000; turn assistant 2 9000; turn user 3 9000]
  = [turn user 1 9000; turn user 3 9000].
Proof. vm_compute. reflexivity. Qed.

(** A system turn that is not first is moved to the front. *)
Example trim_moves_system_turn :
  trimConversation [turn user 1 9000; turn system 2 4; turn assistant 3 9000]
  = [turn system 2 4; turn assistant 3 9000].
Proof. vm_compute. reflexivity. Qed.

Lemma trim_keeps_newest_turn_witness :
  last (trimConversation (pinned :: dialogue 1 31 2))
  = Some (turn assistant 31 2).
Proof.
  apply trim_keeps_newest_turn; [reflexivity|discriminate].
Defined.

Lemma invalid_request_has_no_effect_witness :
  exists reason,
    error (validateMessage (Chat.req_message blankRequest)) = Some reason
    /\ Chat.handle sampleUuid sampleClock answering streaming blankRequest
         busyWorld
       = (Chat.Next {| Chat.message := reason; Chat.statusCode := Some 400 |},
          busyWorld).
Proof.
  apply invalid_request_has_no_effect. reflexivity.
Defined.

Lemma greetedWorld_Reachable : Reachable greetedWorld.
Proof. apply Reachable_post, (Reachable_start 0 0). Qed.


(** Two handlers that overlap on a conversation of 28 turns leave 32 turns
    after the prompt: the bound of the runs without overlap is not one of
    the server. *)
Example overlapping_handlers_exceed_the_bound :
  length (texts (exchanges 14)) = 29%nat
  /\ length (texts (overlap (exchanges 14))) = 33%nat.
Proof. split; vm_compute; reflexivity. Qed.

(** An answer can be lost. On a conversation of 29 turns the second
    handler trims into a new array while the first still holds the old
    one: the answer to the first request is stored, and is gone once the
    second request is answered. *)
Example overlapping_handlers_lose_an_answer :
  let st := unanswered (exchanges 14) in
  length (texts st) = 30%nat
  /\ In (assistant, js "First") (texts (overlapBegun st))
  /\ ~ In (assistant, js "First") (texts (overlap st))
  /\ last (texts (overlap st)) = Some (assistant, js "Second").
Proof.
  cbv zeta. split; [vm_compute; reflexivity|]. split; [|split].
  - vm_compute. do 32 right. left. reflexivity.
  - vm_compute. intros Hin.
    repeat (destruct Hin as [Hin|Hin]; [discriminate Hin|]). exact Hin.
  - vm_compute. reflexivity.
Qed.

Lemma unoverlapped_handlers_act_as_post_witness :
  Server.suspended servedOnce = []
  /\ Reachable (Server.view servedOnce)
  /\ (forall uuid clock req outcome,
         Server.view (Server.serve uuid clock req outcome servedOnce)
         = snd (Chat.handle uuid clock (Server.settles outcome)
                  (Server.streams outcome) req (Server.view servedOnce)))
  /\ (forall i c, Server.stored servedOnce i = Some c ->
                  Seeded (Chat.messages c)).
Proof.
  apply unoverlapped_handlers_act_as_post.
  apply Serial_serve, (Serial_start 0 0).
Defined.

(** The heap model and [Chat.post] agree on the scenario of the
    specification. *)
Example served_once_is_greeted : Server.view servedOnce = greetedWorld.
Proof. vm_compute. reflexivity. Qed.

Lemma getConversation_hides_the_prompt_witness :
  match Chat.conversations greetedWorld !! js "c1" with
  | Some c =>
      getConversation (js "c1") greetedWorld
      = ConversationJson (js "c1") (tail (Chat.messages c))
          (Chat.lastActivity c) (length (Chat.messages c) - 1)
  | None => getConversation (js "c1") greetedWorld = ConversationNext notFound
  end.
Proof.
  apply getConversation_hides_the_prompt, Reachable_post, (Reachable_start 0 0).
Defined.

Example getConversation_after_greeting :
  match getConversation (js "c1") greetedWorld with
  | ConversationJson i shown _ n =>
      i = js "c1" /\ n = 2%nat
      /\ List.map (fun m => (role m, content m)) shown
         = [(user, js "Hi"); (assistant, js "Hello!")]
  | ConversationNext _ => False
  end.
Proof. vm_compute. repeat split. Qed.



Lemma served_conversation_survives_a_day_witness :
  let w' := snd (Chat.handle sampleUuid sampleClock answering streaming
                   (sayHi false) emptyWorld) in
  let cid := conversationOf sampleUuid (sayHi false) emptyWorld in
  exists final,
    Chat.conversations w' !! cid = Some final
    /\ Chat.lastActivity final = sampleClock (pred (Chat.dateCalls w'))
    /\ forall now,
         Chat.sweep now (Chat.conversations w') !! cid = Some final
         <-> now - sampleClock (pred (Chat.dateCalls w')) <= 24 * hour.
Proof.
  apply (served_conversation_survives_a_day sampleUuid sampleClock answering
           streaming (sayHi false) emptyWorld).
  vm_compute. reflexivity.
Defined.

Lemma reply_matches_stored_turn_witness :
  exists final,
       Chat.conversations
         (snd (Chat.handle sampleUuid sampleClock answering streaming
                 (sayHi false) emptyWorld))
         !! conversationOf sampleUuid (sayHi false) emptyWorld
       = Some final
       /\ match
            fst (Chat.handle sampleUuid sampleClock answering streaming
                   (sayHi false) emptyWorld)
          with
          | Chat.Json response conversation messageId stamp =>
              conversation = conversationOf sampleUuid (sayHi false) emptyWorld
              /\ last (Chat.messages final)
                 = Some {| id := messageId; role := assistant;
                           content := response; timestamp := stamp;
                           conversationId :=
                             Some (conversationOf sampleUuid (sayHi false)
                                     emptyWorld) |}
          | Chat.EventStream events =>
              exists messageId cs closing,
                events
                = List.map
                    (fun c =>
                       Chat.ChunkEvent c messageId
                         (conversationOf sampleUuid (sayHi false) emptyWorld))
                    cs
                  ++ [closing]
                /\ match closing with
                   | Chat.DoneEvent messageId' conversation fullMessage =>
                       messageId' = messageId
                       /\ conversation
                          = conversationOf sampleUuid (sayHi false) emptyWorld
                       /\ fullMessage = concat cs
                       /\ exists a,
                            last (Chat.messages final) = Some a
                            /\ id a = messageId /\ role a = assistant
                            /\ content a = concat cs
                   | Chat.ErrorEvent reason =>
                       reason = "Failed to generate response"%string
                       /\ exists u,
                            last (Chat.messages final) = Some u
                            /\ role u = user
                            /\ content u = trim (Chat.req_message (sayHi false))
                   | Chat.ChunkEvent _ _ _ => False
                   end
          | Chat.Next err =>
              Chat.statusCode err = None
              /\ exists u,
                   last (Chat.messages final) = Some u /\ role u = user
                   /\ content u = trim (Chat.req_message (sayHi false))
          end.
Proof.
  apply (reply_matches_stored_turn sampleUuid sampleClock answering streaming
           (sayHi false) emptyWorld).
  vm_compute. reflexivity.
Defined.

Lemma sent_message_has_no_script_tag_witness :
  js "&lt;b&gt;hi" = Frontend.sanitizeInput (trim (js " <b>hi "))
  /\ js "&lt;b&gt;hi" <> []
  /\ ~ In 60%N (js "&lt;b&gt;hi")
  /\ ~ HasScriptTag (js "&lt;b&gt;hi").
Proof.
  apply (sent_message_has_no_script_tag (js " <b>hi ")). reflexivity.
Defined.

Lemma plain_message_passes_both_validators_witness :
  js "hello there" = trim (js "  hello there ")
  /\ validateMessage (js "hello there") = {| valid := true; error := None |}.
Proof.
  apply (plain_message_passes_both_validators (js "  hello there ")).
  - reflexivity.
  - repeat constructor.
Defined.

(** What the input area sends can still be refused by the server: the
    sanitizer removes the control character that hid the pattern from the
    first validator, and entities make a text longer. *)
Example sent_message_refused_by_server :
  Frontend.sent (js "java" ++ [1%N] ++ js "script:x") = Some (js "javascript:x")
  /\ validateMessage (js "javascript:x")
     = {| valid := false; error := Some unsafe |}.
Proof. vm_compute. split; reflexivity. Qed.

